(** * SmartFrame canvas extraction: page pool and extraction pipeline

    A shallow embedding of
      - [src/server/utils/page-activation-scheduler.ts] (class
        [PageActivationScheduler]) and
      - [src/server/utils/smartframe-extension/canvas-extractor.ts] (class
        [SmartFrameCanvasExtractor] and its two error classes).

    Conventions of the embedding.
      - A JavaScript string is a [string]: a sequence of code units, here
        restricted to the 8-bit range (Latin-1), which covers every literal
        the two files compare against.
      - A JavaScript number that the code uses as a count, a size or a time in
        milliseconds is a [Z]; [NaN] is made explicit where the code can
        produce it.
      - [x | null | undefined] is [option x]; truthiness is written out.
      - Everything the code awaits from Puppeteer, sharp, the file system or a
        child process is an oracle of the [World] record: it either resolves
        or rejects.  A promise that never settles is outside the model.
      - [console.log] and friends are not modelled, except the warnings of
        the date parser. *)

From Stdlib Require Import ZArith List String Ascii Bool Lia DecimalString.
From stdpp Require Import base option list gmap strings.
Import ListNotations.

Local Open Scope Z_scope.
Local Open Scope string_scope.

(** ** JavaScript string primitives used by the sources *)

Module Js.

(** Truthiness of [string | null | undefined]: only a non-empty string. *)
Definition truthy (o : option string) : option string :=
  match o with
  | Some s => if String.eqb s "" then None else Some s
  | None => None
  end.

(** [`${n}`] for an integral number. *)
Definition num (z : Z) : string := NilZero.string_of_int (Z.to_int z).

(** [s.split(',')] for a one-character separator: never an empty array. *)
Fixpoint split (sep : ascii) (s : string) : list string :=
  match s with
  | EmptyString => [EmptyString]
  | String c s' =>
      if Ascii.eqb c sep then EmptyString :: split sep s'
      else match split sep s' with
           | h :: t => String c h :: t
           | [] => [String c EmptyString]
           end
  end.

(** WhiteSpace and LineTerminator code units below 256: TAB, LF, VT, FF, CR,
    SP and NBSP. *)
Definition is_ws (c : ascii) : bool :=
  let n := nat_of_ascii c in
  ((9 <=? n) && (n <=? 13))%nat || (n =? 32)%nat || (n =? 160)%nat.

Fixpoint trimStart (s : string) : string :=
  match s with
  | String c s' => if is_ws c then trimStart s' else s
  | EmptyString => EmptyString
  end.

Fixpoint trimEnd (s : string) : string :=
  match s with
  | String c s' =>
      match trimEnd s' with
      | EmptyString => if is_ws c then EmptyString else String c EmptyString
      | t => String c t
      end
  | EmptyString => EmptyString
  end.

(** [s.trim()] *)
Definition trim (s : string) : string := trimEnd (trimStart s).

(** [s.startsWith(p)] *)
Definition startsWith (p s : string) : bool := String.prefix p s.

(** [s.replace(/[...]/g, '-')] for a one-character class: a character map. *)
Fixpoint mapChars (f : ascii -> ascii) (s : string) : string :=
  match s with
  | String c s' => String (f c) (mapChars f s')
  | EmptyString => EmptyString
  end.

Definition in_range (lo hi c : ascii) : bool :=
  ((nat_of_ascii lo <=? nat_of_ascii c) && (nat_of_ascii c <=? nat_of_ascii hi))%nat.

(** [a.join(c)] for a one-character separator. *)
Fixpoint join (sep : ascii) (l : list string) : string :=
  match l with
  | [] => EmptyString
  | [x] => x
  | x :: l' => x +:+ String sep (join sep l')
  end.

(** [s.includes(c)] for one character. *)
Fixpoint includes (c : ascii) (s : string) : bool :=
  match s with
  | String c' s' => Ascii.eqb c' c || includes c s'
  | EmptyString => false
  end.

(** Whether the first, the last character is white space. *)
Definition headWs (s : string) : bool :=
  match s with
  | String c _ => is_ws c
  | EmptyString => false
  end.

Fixpoint lastWs (s : string) : bool :=
  match s with
  | String c EmptyString => is_ws c
  | String _ s' => lastWs s'
  | EmptyString => false
  end.

(** [\d]: only the ASCII digits. *)
Definition is_digit (c : ascii) : bool := in_range "0" "9" c.

End Js.

(** ** Regular expressions

    The fragment of JavaScript regular expressions that the date pattern of
    [embedExifMetadata] uses, with the backtracking semantics of the language:
    quantifiers are greedy, alternation is ordered, a capture group records
    the text its body consumed, and a group that did not take part in the
    match is [undefined]. *)

Module Regex.

Inductive re : Type :=
| Chr (p : ascii -> bool)          (* one character of a class *)
| Seq (r1 r2 : re)                 (* r1 r2 *)
| Alt (r1 r2 : re)                 (* r1|r2 *)
| Opt (r : re)                     (* (?:r)? *)
| Plus (p : ascii -> bool)         (* c+ for a class c *)
| Group (n : nat) (r : re).        (* the n-th capturing group *)

(** Captures, most recent first. *)
Definition caps := list (nat * string).

Fixpoint cap (n : nat) (cs : caps) : option string :=
  match cs with
  | (m, s) :: cs' => if Nat.eqb m n then Some s else cap n cs'
  | [] => None
  end.

(** [c+] at the head of [s]: as many characters of the class as the rest of
    the match allows, the longest run first. *)
Fixpoint more (p : ascii -> bool) (s : string)
    (k : string -> string -> option caps) : option caps :=
  match s with
  | String c s' =>
      if p c then
        match more p s' (fun t s2 => k (String c t) s2) with
        | Some res => Some res
        | None => k (String c EmptyString) s'
        end
      else None
  | EmptyString => None
  end.

(** [run r s cs k]: match [r] at the head of [s]; the continuation receives
    the text consumed, the rest of the input and the captures, and its failure
    makes the matcher backtrack. *)
Fixpoint run (r : re) (s : string) (cs : caps)
    (k : string -> string -> caps -> option caps) {struct r} : option caps :=
  match r with
  | Chr p =>
      match s with
      | String c s' => if p c then k (String c EmptyString) s' cs else None
      | EmptyString => None
      end
  | Seq r1 r2 =>
      run r1 s cs (fun t1 s1 cs1 =>
        run r2 s1 cs1 (fun t2 s2 cs2 => k (t1 +:+ t2) s2 cs2))
  | Alt r1 r2 =>
      match run r1 s cs k with
      | Some res => Some res
      | None => run r2 s cs k
      end
  | Opt r1 =>
      match run r1 s cs k with
      | Some res => Some res
      | None => k EmptyString s cs
      end
  | Plus p => more p s (fun t s2 => k t s2 cs)
  | Group n r1 =>
      run r1 s cs (fun t s1 cs1 => k t s1 ((n, t) :: cs1))
  end.

(** [r{n}] *)
Fixpoint rep (n : nat) (r : re) : re :=
  match n with
  | O => Opt (Chr (fun _ => false))   (* matches the empty text only *)
  | S O => r
  | S n' => Seq r (rep n' r)
  end.

Definition lit (c : ascii) : re := Chr (Ascii.eqb c).
Definition oneOf (c1 c2 : ascii) : re := Chr (fun c => Ascii.eqb c c1 || Ascii.eqb c c2).

(** [s.match(/^r/)]: anchored at the start, not at the end; [None] is
    [null]. *)
Definition matchStart (r : re) (s : string) : option caps :=
  run r s [] (fun _ _ cs => Some cs).




End Regex.

(** ** Metadata embedding: the argument list of the exiftool call

    [embedExifMetadata], lines 76-152 of canvas-extractor.ts. *)

Module Exif.
Import Regex.

Declare Scope re_scope.
Delimit Scope re_scope with re.
Notation "r1 >> r2" := (Seq r1 r2) (at level 60, right associativity) : re_scope.

Record ImageMetadata : Type := {
  titleField : option string;
  subjectField : option string;
  tags : option string;
  comments : option string;
  authors : option string;
  dateTaken : option string;
  copyright : option string;
}.

Definition digit : re := Chr Js.is_digit.

(** The pattern of line 120, from its innermost groups outwards. *)

(** [:(\d{2})] *)
Definition seconds : re := (lit ":" >> Group 6 (rep 2 digit))%re.

(** [\.\d+] *)
Definition fraction : re := (lit "." >> Plus Js.is_digit)%re.

(** [[+-]\d{2}:\d{2}|Z] *)
Definition zone : re :=
  Alt (oneOf "+" "-" >> rep 2 digit >> lit ":" >> rep 2 digit)%re (lit "Z").

(** [[T ](\d{2}):(\d{2})(?::(\d{2}))?(?:\.\d+)?(?:[+-]\d{2}:\d{2}|Z)?] *)
Definition timeOfDay : re :=
  (oneOf "T" " " >> Group 4 (rep 2 digit) >> lit ":" >> Group 5 (rep 2 digit) >>
   Opt seconds >> Opt fraction >> Opt zone)%re.

(** [/^(\d{4})-(\d{2})-(\d{2})(?:[T ](\d{2}):(\d{2})(?::(\d{2}))?(?:\.\d+)?(?:[+-]\d{2}:\d{2}|Z)?)?/] *)
Definition isoDate : re :=
  (Group 1 (rep 4 digit) >> lit "-" >> Group 2 (rep 2 digit) >> lit "-" >>
   Group 3 (rep 2 digit) >> Opt timeOfDay)%re.

(** A destructured element of the match array inside a template literal:
    [undefined] would print as such. *)
Definition elt (n : nat) (m : caps) : string :=
  match cap n m with Some s => s | None => "undefined" end.

(** A destructured element with the default ['00']. *)
Definition elt00 (n : nat) (m : caps) : string :=
  match cap n m with Some s => s | None => "00" end.

(** [YYYY:MM:DD HH:MM:SS] from the six fields. *)
Definition exifDateOf (year month day hours minutes seconds : string) : string :=
  year +:+ ":" +:+ month +:+ ":" +:+ day +:+ " " +:+
  hours +:+ ":" +:+ minutes +:+ ":" +:+ seconds.

Definition exifDate (m : caps) : string :=
  exifDateOf (elt 1 m) (elt 2 m) (elt 3 m) (elt00 4 m) (elt00 5 m) (elt00 6 m).

Definition dateWarning (d : string) : string :=
  "[SmartFrame Canvas] Date format not recognized, skipping date embedding: " +:+ d.

(** Lines 114-137 for a truthy [dateTaken]: the arguments pushed and the
    warnings printed.  [String.prototype.match] does not throw, so the
    [catch] of line 134 is dead. *)
Definition dateArgs (d : string) : list string * list string :=
  match matchStart isoDate d with
  | Some m =>
      ([ "-EXIF:DateTimeOriginal=" +:+ exifDate m;
         "-EXIF:CreateDate=" +:+ exifDate m;
         "-XMP:DateCreated=" +:+ d ], [])
  | None => ([], [dateWarning d])
  end.


(** Line 142: [tags.split(',').map(t => t.trim()).filter(t => t)] *)
Definition tagList (t : string) : list string :=
  List.filter (fun t => negb (String.eqb t "")) (List.map Js.trim (Js.split "," t)).

Definition keywordArg (tag : string) : string := "-IPTC:Keywords+=" +:+ tag.
Definition subjectArg (tag : string) : string := "-XMP:Subject+=" +:+ tag.

(** Lines 143-149: the [forEach] over the tag list. *)
Definition tagArgs (t : string) : list string :=
  List.flat_map (fun tag => [keywordArg tag; subjectArg tag]) (tagList t).

(** [if (field) { args.push(...) }] *)
Definition whenTruthy {A} (o : option string) (f : string -> list A) : list A :=
  match Js.truthy o with Some v => f v | None => [] end.

(** Lines 78-152: the argument vector handed to [spawn]. *)
Definition exifArgs (jpgPath : string) (md : ImageMetadata) : list string :=
  ["-overwrite_original"]
  ++ whenTruthy (titleField md) (fun v =>
       ["-IPTC:ObjectName=" +:+ v; "-XMP:Title=" +:+ v; "-IPTC:Headline=" +:+ v])
  ++ whenTruthy (subjectField md) (fun v =>
       ["-XMP:PersonInImage=" +:+ v; "-IPTC:SubjectReference=" +:+ v])
  ++ whenTruthy (comments md) (fun v =>
       ["-IPTC:Caption-Abstract=" +:+ v; "-XMP:Description=" +:+ v;
        "-EXIF:ImageDescription=" +:+ v])
  ++ whenTruthy (authors md) (fun v =>
       ["-IPTC:By-line=" +:+ v; "-XMP:Creator=" +:+ v; "-EXIF:Artist=" +:+ v])
  ++ whenTruthy (copyright md) (fun v =>
       ["-IPTC:CopyrightNotice=" +:+ v; "-XMP:Rights=" +:+ v; "-EXIF:Copyright=" +:+ v])
  ++ whenTruthy (dateTaken md) (fun v => fst (dateArgs v))
  ++ whenTruthy (tags md) tagArgs
  ++ [jpgPath].


(** *** The date pattern in the words of the specification

    [YYYY-MM-DD], optionally followed by [T] or a space and [HH:MM],
    optionally followed by [:SS]; what comes after is not looked at.  This is
    the reading against which the regular expression is checked below. *)











Definition tagsOnly (t : string) : ImageMetadata :=
  {| titleField := None; subjectField := None; tags := Some t; comments := None;
     authors := None; dateTaken := None; copyright := None |}.



End Exif.

(** ** The page pool

    [PageActivationScheduler] of page-activation-scheduler.ts.  JavaScript
    runs one synchronous segment at a time and other callers interleave only
    at an [await]; each function below is one such segment. *)

Module PagePool.

(** An opaque Puppeteer page handle. *)
Definition Page := nat.

Record PageState : Type := {
  page : Page;
  busy : bool;
  lastActivated : Z;
}.

(** What the pool asks of a page. *)
Inductive Effect : Type :=
| BringToFront (p : Page)
| MouseMove (p : Page)
| ClosePage (p : Page).

Record Scheduler : Type := {
  pages : list PageState;
  activationIntervalMs : Z;
  rotationTimerId : bool;              (* a timer handle, or null *)
  currentActiveIndex : option nat;     (* [None] is NaN *)
  activeTasks : gset nat;              (* the task promises, by identity *)
  shuttingDown : bool;
  cleanupStarted : bool;               (* a promise, or null *)
  nextTask : nat;                      (* identity of the next task promise *)
}.

Definition setPages (ps : list PageState) (s : Scheduler) : Scheduler :=
  {| pages := ps; activationIntervalMs := activationIntervalMs s;
     rotationTimerId := rotationTimerId s; currentActiveIndex := currentActiveIndex s;
     activeTasks := activeTasks s; shuttingDown := shuttingDown s;
     cleanupStarted := cleanupStarted s; nextTask := nextTask s |}.

Definition setTimer (b : bool) (s : Scheduler) : Scheduler :=
  {| pages := pages s; activationIntervalMs := activationIntervalMs s;
     rotationTimerId := b; currentActiveIndex := currentActiveIndex s;
     activeTasks := activeTasks s; shuttingDown := shuttingDown s;
     cleanupStarted := cleanupStarted s; nextTask := nextTask s |}.

Definition setCursor (c : option nat) (s : Scheduler) : Scheduler :=
  {| pages := pages s; activationIntervalMs := activationIntervalMs s;
     rotationTimerId := rotationTimerId s; currentActiveIndex := c;
     activeTasks := activeTasks s; shuttingDown := shuttingDown s;
     cleanupStarted := cleanupStarted s; nextTask := nextTask s |}.

Definition setTasks (t : gset nat) (n : nat) (s : Scheduler) : Scheduler :=
  {| pages := pages s; activationIntervalMs := activationIntervalMs s;
     rotationTimerId := rotationTimerId s; currentActiveIndex := currentActiveIndex s;
     activeTasks := t; shuttingDown := shuttingDown s;
     cleanupStarted := cleanupStarted s; nextTask := n |}.

Definition beginShutdown (s : Scheduler) : Scheduler :=
  {| pages := pages s; activationIntervalMs := activationIntervalMs s;
     rotationTimerId := rotationTimerId s; currentActiveIndex := currentActiveIndex s;
     activeTasks := activeTasks s; shuttingDown := true;
     cleanupStarted := true; nextTask := nextTask s |}.

Definition setBusy (b : bool) (p : PageState) : PageState :=
  {| page := page p; busy := b; lastActivated := lastActivated p |}.

Definition stamp (now : Z) (p : PageState) : PageState :=
  {| page := page p; busy := busy p; lastActivated := now |}.

(** Lines 32-40: the constructor; the interval defaults to 500. *)
Definition create (ps : list Page) (interval : option Z) : Scheduler :=
  {| pages := List.map (fun p => {| page := p; busy := false; lastActivated := 0 |}) ps;
     activationIntervalMs := match interval with Some i => i | None => 500 end;
     rotationTimerId := false; currentActiveIndex := Some O;
     activeTasks := ∅; shuttingDown := false; cleanupStarted := false;
     nextTask := O |}.

(** Lines 46-57 and 62-68. *)
Definition startRotation (s : Scheduler) : Scheduler :=
  if rotationTimerId s then s else setTimer true s.

Definition stopRotation (s : Scheduler) : Scheduler :=
  if rotationTimerId s then setTimer false s else s.

(** [(i + 1) % n] on numbers: NaN when [n] is 0 or [i] is NaN. *)
Definition nextIndex (i : option nat) (n : nat) : option nat :=
  match i, n with
  | Some i, S _ => Some ((i + 1) mod n)%nat
  | _, _ => None
  end.

(** Lines 75-104, one tick of the rotation timer.  With no slot under the
    cursor the assignment of line 87 throws a TypeError, which the [catch] of
    line 101 logs.  A rejection of [mouse.move] is swallowed at line 97, so
    the tick does not depend on it. *)
Definition rotateActivePage (now : Z) (s : Scheduler) : Scheduler * list Effect :=
  if shuttingDown s then (s, [])
  else
    let s1 := setCursor (nextIndex (currentActiveIndex s) (length (pages s))) s in
    match currentActiveIndex s1 with
    | Some i =>
        match pages s1 !! i with
        | Some pageState =>
            let s2 := setPages (alter (stamp now) i (pages s1)) s1 in
            if negb (shuttingDown s2) then (s2, [MouseMove (page pageState)])
            else (s2, [])
        | None => (s1, [])
        end
    | None => (s1, [])
    end.

(** [pages.findIndex(p => !p.busy)]; [None] is -1. *)
Fixpoint findIndex {A} (f : A -> bool) (l : list A) : option nat :=
  match l with
  | x :: l' => if f x then Some O else option_map S (findIndex f l')
  | [] => None
  end.

(** [acquirePage], lines 111-170, is a loop around an [await]: before each
    iteration the clock is tested (line 119), and when the time is up the
    method returns null (line 169) without touching the pool; so a call is a
    number of attempts, below, the last of which may be followed by the
    settling of [bringToFront].

    The outcome of one iteration of the loop. *)
Inductive Attempt : Type :=
| ShutdownNull                       (* line 123: return null *)
| Granted (index : nat) (p : Page)   (* lines 129-133: slot taken, activation requested *)
| AllBusy.                           (* lines 162-163: sleep and retry *)

(** Lines 121-133: from the shutdown check up to the [await] of
    [bringToFront], in one segment. *)
Definition acquireAttempt (s : Scheduler) : Scheduler * Attempt * list Effect :=
  if shuttingDown s then (s, ShutdownNull, [])
  else
    match findIndex (fun p => negb (busy p)) (pages s) with
    | Some availableIndex =>
        match pages s !! availableIndex with
        | Some pageState =>
            (setPages (alter (setBusy true) availableIndex (pages s)) s,
             Granted availableIndex (page pageState),
             [BringToFront (page pageState)])
        | None => (s, AllBusy, [])
        end
    | None => (s, AllBusy, [])
    end.

(** The capability returned by [acquirePage]; [release] is the closure of
    lines 145-155, determined by the index and the task promise it captured. *)
Record AcquiredPage : Type := {
  acqPage : Page;
  index : nat;
  task : nat;
}.

#[global] Instance AcquiredPage_eq_dec : EqDecision AcquiredPage.
Proof. solve_decision. Defined.

(** Lines 134-158, after [bringToFront] resolved: the captured slot object
    is stamped (it is still [pages[i]] unless [cleanup] emptied the array) and
    a fresh task promise is registered. *)
Definition acquireFinish (now : Z) (i : nat) (p : Page) (s : Scheduler)
    : Scheduler * AcquiredPage :=
  let s1 := setPages (alter (stamp now) i (pages s)) s in
  (setTasks ({[nextTask s]} ∪ activeTasks s) (S (nextTask s)) s1,
   {| acqPage := p; index := i; task := nextTask s |}).

(** Lines 145-155: the [release] closure. *)
Definition release (a : AcquiredPage) (s : Scheduler) : Scheduler :=
  let s1 :=
    match pages s !! index a with
    | Some _ => setPages (alter (setBusy false) (index a) (pages s)) s
    | None => s
    end in
  setTasks (activeTasks s1 ∖ {[task a]}) (nextTask s1) s1.

(** Lines 175-177. *)
Definition getBusyCount (s : Scheduler) : nat :=
  length (List.filter busy (pages s)).

(** Lines 197-213: [cleanup] up to its first [await]. *)
Definition cleanupBegin (s : Scheduler) : Scheduler :=
  stopRotation (beginShutdown s).

(** Lines 239-243, when [closePages] is set: [close] is called on the page
    of every slot, in one segment; the method then awaits the calls. *)
Definition cleanupClose (s : Scheduler) : list Effect :=
  List.map (fun ps => ClosePage (page ps)) (pages s).

(** Line 245, after that await or, without [closePages], straight on: the
    slots are dropped. *)
Definition cleanupEnd (s : Scheduler) : Scheduler := setPages [] s.

(** *** Callers

    The callers of the pool as a transition system over its segments.  An
    acquisition is pending between the segment that took its slot and the
    return of [acquirePage]; it is in flight from that return until its
    [release] is first called.  A released capability still holds the closure
    and may call it again. *)

Record Sys : Type := {
  sched : Scheduler;
  pending : list (nat * Page);
  inflight : list AcquiredPage;
  released : list AcquiredPage;
}.

Inductive Event : Type :=
| EvStartRotation
| EvStopRotation
| EvRotate (now : Z)
| EvAttempt
| EvFinish (k : nat) (now : Z) (resolved : bool)   (* [bringToFront] of the k-th pending settles *)
| EvRelease (a : AcquiredPage)
| EvCleanupBegin
| EvCleanupClose    (* a [cleanup] with [closePages] calls [close] on the pages *)
| EvCleanupEnd.     (* a [cleanup] empties the slot array *)

Definition withSched (s : Scheduler) (y : Sys) : Sys :=
  {| sched := s; pending := pending y; inflight := inflight y; released := released y |}.

Definition step (y : Sys) (e : Event) : option (Sys * list Effect) :=
  match e with
  | EvStartRotation => Some (withSched (startRotation (sched y)) y, [])
  | EvStopRotation => Some (withSched (stopRotation (sched y)) y, [])
  | EvRotate now =>
      let '(s, fx) := rotateActivePage now (sched y) in Some (withSched s y, fx)
  | EvAttempt =>
      let '(s, a, fx) := acquireAttempt (sched y) in
      match a with
      | Granted i p =>
          Some ({| sched := s; pending := pending y ++ [(i, p)];
                   inflight := inflight y; released := released y |}, fx)
      | _ => Some (withSched s y, fx)
      end
  | EvFinish k now resolved =>
      match pending y !! k with
      | Some (i, p) =>
          if resolved then
            let '(s, a) := acquireFinish now i p (sched y) in
            Some ({| sched := s; pending := delete k (pending y);
                     inflight := a :: inflight y; released := released y |}, [])
          else
            Some ({| sched := sched y; pending := delete k (pending y);
                     inflight := inflight y; released := released y |}, [])
      | None => None
      end
  | EvRelease a =>
      if bool_decide (a ∈ inflight y) then
        Some ({| sched := release a (sched y); pending := pending y;
                 inflight := List.filter (fun b => negb (bool_decide (b = a))) (inflight y);
                 released := a :: released y |}, [])
      else if bool_decide (a ∈ released y) then
        Some (withSched (release a (sched y)) y, [])
      else None
  | EvCleanupBegin => Some (withSched (cleanupBegin (sched y)) y, [])
  | EvCleanupClose =>
      if shuttingDown (sched y) then Some (y, cleanupClose (sched y)) else None
  | EvCleanupEnd =>
      if shuttingDown (sched y) then Some (withSched (cleanupEnd (sched y)) y, []) else None
  end.

(** A caller that calls each [release] at most once. *)
Definition releasesOnce (y : Sys) (e : Event) : bool :=
  match e with
  | EvRelease a => bool_decide (a ∈ inflight y)
  | _ => true
  end.

Fixpoint runEvents (y : Sys) (es : list Event) : option Sys :=
  match es with
  | e :: es' =>
      match step y e with
      | Some (y', _) => runEvents y' es'
      | None => None
      end
  | [] => Some y
  end.

Fixpoint allOnce (y : Sys) (es : list Event) : bool :=
  match es with
  | e :: es' =>
      releasesOnce y e &&
      match step y e with
      | Some (y', _) => allOnce y' es'
      | None => true
      end
  | [] => true
  end.

Definition start (ps : list Page) (interval : option Z) : Sys :=
  {| sched := create ps interval; pending := []; inflight := []; released := [] |}.

(** The effects of a run, in order. *)
Fixpoint effects (y : Sys) (es : list Event) : list Effect :=
  match es with
  | e :: es' =>
      match step y e with
      | Some (y', fx) => fx ++ effects y' es'
      | None => []
      end
  | [] => []
  end.

(** The slots with an owner: those of the pending and of the in-flight
    acquisitions. *)
Definition holders (y : Sys) : list nat :=
  (fst <$> pending y) ++ (index <$> inflight y).

(** The slot array is the one built by the constructor over [ps], or the
    empty one [cleanup] leaves. *)
Definition slotsOf (ps : list Page) (s : Scheduler) : Prop :=
  page <$> pages s = ps \/ (pages s = [] /\ shuttingDown s = true).

(** What every state reached by callers that release once satisfies. *)
Record consistent (ps : list Page) (y : Sys) : Prop := {
  c_slots : slotsOf ps (sched y);
  c_nodup : NoDup (holders y);
  c_busy : forall i st, i ∈ holders y -> pages (sched y) !! i = Some st -> busy st = true;
  c_pending : forall i p, (i, p) ∈ pending y -> ps !! i = Some p;
  c_inflight : forall a, a ∈ inflight y -> ps !! index a = Some (acqPage a);
}.

(** Runs used below: one in which every capability is released once, and
    one in which the first owner of the only slot calls [release] again after
    the slot has been granted to a second caller. *)
Definition onceTrace : list Event :=
  [EvStartRotation; EvAttempt; EvFinish 0 10 true; EvRotate 11; EvAttempt;
   EvFinish 0 12 true; EvRelease {| acqPage := 7%nat; index := 0; task := 0 |};
   EvAttempt; EvFinish 0 13 true].

Definition onceState : Sys :=
  match runEvents (start [7; 8]%nat None) onceTrace with
  | Some y => y
  | None => start [7; 8]%nat None
  end.

Definition staleTrace : list Event :=
  [EvAttempt; EvFinish 0 10 true;
   EvRelease {| acqPage := 7%nat; index := 0; task := 0 |};
   EvAttempt; EvFinish 0 20 true;
   EvRelease {| acqPage := 7%nat; index := 0; task := 0 |};
   EvAttempt; EvFinish 0 30 true].

(** Two callers of a pool built over the same handle twice. *)
Definition twinTrace : list Event :=
  [EvAttempt; EvFinish 0 10 true; EvAttempt; EvFinish 0 20 true].

Definition twinState : Sys :=
  match runEvents (start [7; 7]%nat None) twinTrace with
  | Some y => y
  | None => start [7; 7]%nat None
  end.

Definition staleState : Sys :=
  match runEvents (start [7]%nat None) staleTrace with
  | Some y => y
  | None => start [7]%nat None
  end.

End PagePool.

(** ** The extraction pipeline

    [SmartFrameCanvasExtractor.extractCanvasImage] and the tail of
    [embedExifMetadata], canvas-extractor.ts. *)

Module Extractor.
Import Exif.

Abbreviation bytes := (list Byte.byte).

(** What a [throw] or a rejected promise carries. *)
Inductive Error : Type :=
| CanvasTimeoutError (imageId : string) (elapsedMs maxWaitMs : Z)
    (lastKnownError : option string)
| CanvasExtensionError (imageId extensionError : string) (elapsedMs : Z)
| Rejection (why : string).      (* raised by Puppeteer, fs, sharp or spawn *)

(** The [message] the two constructors build, lines 30-33 and 47. *)
Definition message (e : Error) : string :=
  match e with
  | CanvasTimeoutError imageId elapsedMs maxWaitMs lastKnownError =>
      "Canvas extraction timeout for " +:+ imageId +:+ ": exceeded " +:+
      Js.num maxWaitMs +:+ "ms (elapsed: " +:+ Js.num elapsedMs +:+ "ms)" +:+
      match Js.truthy lastKnownError with
      | Some l => " - Last error: " +:+ l
      | None => ""
      end
  | CanvasExtensionError imageId extensionError elapsedMs =>
      "Canvas extension error for " +:+ imageId +:+ " after " +:+
      Js.num elapsedMs +:+ "ms: " +:+ extensionError
  | Rejection why => why
  end.

(** *** The environment *)

Inductive settled (A : Type) : Type :=
| Resolves (a : A)
| Rejects (why : string).
Arguments Resolves {A} a.
Arguments Rejects {A} why.

(** The element [#extension-response-data], by its two attributes. *)
Record Signal : Type := {
  dataUrl : option string;       (* data-url *)
  dataError : option string;     (* data-error *)
}.

Inductive Transcode : Type :=
| JpegWritten (jpg : bytes)
| TranscodeFails (why : string) (partial : option bytes).

Inductive Exiftool : Type :=
| Closed (code : option Z) (rewritten : option bytes)  (* the 'close' event *)
| SpawnError (msg : string)                           (* the 'error' event *)
| SpawnThrows (why : string).                         (* [spawn] itself throws *)

(** Every external step of a run is numbered; the oracles that depend on
    when they are asked take that number. *)
Record World : Type := {
  lag : nat -> N;                          (* milliseconds the k-th step takes *)
  bringToFront : settled unit;
  dom : nat -> settled (option Signal);    (* the signal element seen by step k, if the page answers *)
  mouseMove : nat -> settled unit;
  joinDir : string -> string;              (* the normalized directory part: [path.join(dir, f)] is [joinDir dir +:+ f] for a file name [f] without separator *)
  base64 : string -> bytes;                (* [Buffer.from(s, 'base64')] *)
  writable : string -> bool;
  statable : string -> bool;               (* [fs.statSync] of an existing file succeeds *)
  deletable : string -> bool;              (* [fs.unlinkSync] of an existing file succeeds *)
  transcode : bytes -> Z -> Transcode;     (* sharp, from a buffer at a quality *)
  imageInfo : bytes -> settled (option Z * option Z);   (* sharp's metadata: width, height *)
  exiftool : list string -> Exiftool;
}.

(** The fields of [ScraperConfig] the extractor reads. *)
Record JpgQuality : Type := { full : option Z; thumbnail : option Z }.

Record SmartframeConfig : Type := {
  initialRenderWaitMs : option Z;
  postResizeWaitMs : option Z;
  maxRenderWaitMs : option Z;
  jpgQuality : option JpgQuality;
  minValidFileSize : option Z;
  minValidDimensions : option Z;
}.

Record ScraperConfig : Type := { smartframe : option SmartframeConfig }.

(** [this.config?.smartframe?.f] *)
Definition cfgField {A} (config : option ScraperConfig)
    (f : SmartframeConfig -> option A) : option A :=
  match config with
  | Some c => match smartframe c with Some sf => f sf | None => None end
  | None => None
  end.

(** [v || d] on numbers: the default also replaces 0. *)
Definition orElse (v : option Z) (d : Z) : Z :=
  match v with
  | Some z => if Z.eqb z 0 then d else z
  | None => d
  end.

Inductive ViewportMode : Type := Full | Thumbnail.

Definition modeName (m : ViewportMode) : string :=
  match m with Full => "full" | Thumbnail => "thumbnail" end.

(** *** State and control *)

Record St : Type := {
  now : Z;                       (* the clock behind [Date.now()] *)
  ticks : nat;                   (* external steps so far *)
  fs : gmap string bytes;        (* the files on disk *)
}.

Inductive result (A : Type) : Type :=
| Ok (a : A)
| Throw (e : Error)
| Diverge.                       (* the loop bound of the model ran out *)
Arguments Ok {A} a.
Arguments Throw {A} e.
Arguments Diverge {A}.

Definition M (A : Type) : Type := St -> St * result A.

Definition ret {A} (a : A) : M A := fun st => (st, Ok a).
Definition throw {A} (e : Error) : M A := fun st => (st, Throw e).
Definition diverge {A} : M A := fun st => (st, Diverge).

Definition bind {A B} (c : M A) (k : A -> M B) : M B :=
  fun st =>
    match c st with
    | (st', Ok a) => k a st'
    | (st', Throw e) => (st', Throw e)
    | (st', Diverge) => (st', Diverge)
    end.

(** [try { c } catch (error) { h error }] *)
Definition tryCatch {A} (c : M A) (h : Error -> M A) : M A :=
  fun st =>
    match c st with
    | (st', Throw e) => h e st'
    | r => r
    end.

(** Two ways to describe what a computation does to the state: it relates
    every state to the one it leaves, and it never runs out of loop bound. *)
Definition preserves (R : St -> St -> Prop) {A} (c : M A) : Prop :=
  forall st, R st (c st).1.

Definition returns {A} (c : M A) : Prop :=
  forall st, (c st).2 <> Diverge.

(** The clock does not go back; the files are the same. *)
Definition clock (st st' : St) : Prop := now st <= now st'.
Definition sameFs (st st' : St) : Prop := fs st' = fs st.

Declare Scope js_scope.
Delimit Scope js_scope with js.
Notation "x <~ c ;; k" := (bind c (fun x => k))
  (at level 100, c at next level, right associativity) : js_scope.
Notation "' pat <~ c ;; k" := (bind c (fun x => match x with pat => k end))
  (at level 20, pat pattern, c at level 99, k at level 200) : js_scope.
Notation "c ;;; k" := (bind c (fun _ => k))
  (at level 100, right associativity) : js_scope.
Local Open Scope js_scope.

Definition setFs (f : gmap string bytes) (st : St) : St :=
  {| now := now st; ticks := ticks st; fs := f |}.

(** [Date.now()] *)
Definition dateNow : M Z := fun st => (st, Ok (now st)).

(** One external step: it takes its lag and yields its number. *)
Definition tick (w : World) : M nat :=
  fun st =>
    ({| now := now st + Z.of_N (lag w (ticks st)); ticks := S (ticks st); fs := fs st |},
     Ok (ticks st)).

(** The delay [setTimeout] works with: Node sets one above 2^31-1 or below 1
    to 1. *)
Definition timerDelay (ms : Z) : Z :=
  if Z.leb 1 ms && Z.leb ms 2147483647 then ms else 1.

(** Lines 67-69: the timer fires no earlier than its delay from now. *)
Definition wait (w : World) (ms : Z) : M unit :=
  fun st =>
    let '(st', _) :=
      tick w {| now := now st + timerDelay ms; ticks := ticks st; fs := fs st |} in
    (st', Ok tt).

Definition await {A} (w : World) (o : nat -> settled A) : M A :=
  k <~ tick w ;;
  match o k with
  | Resolves a => ret a
  | Rejects why => throw (Rejection why)
  end.

(** [page.$('#extension-response-data[data-url], #extension-response-data[data-error]')],
    as the truthiness of the handle. *)
Definition hasResponse (w : World) : M bool :=
  el <~ await w (dom w) ;;
  ret match el with
      | Some sig => bool_decide (is_Some (dataUrl sig)) || bool_decide (is_Some (dataError sig))
      | None => false
      end.

(** [page.$eval('#extension-response-data', el => el.getAttribute(a))]:
    rejects when no element matches. *)
Definition evalAttribute (w : World) (a : Signal -> option string) : M (option string) :=
  el <~ await w (dom w) ;;
  match el with
  | Some sig => ret (a sig)
  | None => throw (Rejection "failed to find element matching selector")
  end.

(** [fs.writeFileSync] *)
Definition writeFileSync (w : World) (p : string) (b : bytes) : M unit :=
  tick w ;;;
  if writable w p then (fun st => (setFs (<[p := b]> (fs st)) st, Ok tt))
  else throw (Rejection "EACCES").

(** [fs.unlinkSync]: it may fail on a file that exists (EPERM, EBUSY). *)
Definition unlinkSync (w : World) (p : string) : M unit :=
  tick w ;;;
  fun st =>
    match fs st !! p with
    | Some _ =>
        if deletable w p then (setFs (delete p (fs st)) st, Ok tt)
        else (st, Throw (Rejection "EPERM"))
    | None => (st, Throw (Rejection "ENOENT"))
    end.

(** [fs.statSync(p).size] *)
Definition statSize (w : World) (p : string) : M Z :=
  tick w ;;;
  fun st =>
    match fs st !! p with
    | Some b =>
        if statable w p then (st, Ok (Z.of_nat (length b)))
        else (st, Throw (Rejection "EACCES"))
    | None => (st, Throw (Rejection "ENOENT"))
    end.

(** [sharp(buf).jpeg({quality}).toFile(p)]; a failed run may leave a partial
    file behind. *)
Definition toFile (w : World) (buf : bytes) (quality : Z) (p : string) : M unit :=
  tick w ;;;
  match transcode w buf quality with
  | JpegWritten jpg => fun st => (setFs (<[p := jpg]> (fs st)) st, Ok tt)
  | TranscodeFails why partial =>
      fun st =>
        (match partial with Some b => setFs (<[p := b]> (fs st)) st | None => st end,
         Throw (Rejection why))
  end.

(** [sharp(p).metadata()], with [width || 0] and [height || 0] applied. *)
Definition dimensions (w : World) (p : string) : M (Z * Z) :=
  tick w ;;;
  fun st =>
    match fs st !! p with
    | Some b =>
        match imageInfo w b with
        | Resolves (width, height) => (st, Ok (orElse width 0, orElse height 0))
        | Rejects why => (st, Throw (Rejection why))
        end
    | None => (st, Throw (Rejection "Input file is missing"))
    end.

(** Line 334: [imageId.replace(/[^a-zA-Z0-9.\-_]/g, '-')] *)
Definition safeChar (c : ascii) : bool :=
  Js.in_range "a" "z" c || Js.in_range "A" "Z" c || Js.in_range "0" "9" c
  || Ascii.eqb c "." || Ascii.eqb c "-" || Ascii.eqb c "_".

Definition sanitize (imageId : string) : string :=
  Js.mapChars (fun c => if safeChar c then c else "-"%char) imageId.

Definition dataUrlPrefix : string := "data:image/png;base64,".

Definition sizeMessage (fileSizeBytes minFileSize : Z) : string :=
  "File validation failed: size " +:+ Js.num fileSizeBytes +:+
  " bytes is below minimum " +:+ Js.num minFileSize +:+ " bytes".

Definition dimensionsMessage (width height minDimensions : Z) : string :=
  "File validation failed: dimensions " +:+ Js.num width +:+ "x" +:+ Js.num height +:+
  " are below minimum " +:+ Js.num minDimensions +:+ "px".

(** Line 273: [Math.min(100 * Math.pow(2, attempt), 2000)] *)
Definition backoff (attempt : nat) : Z := Z.min (100 * 2 ^ Z.of_nat attempt) 2000.

(** *** [embedExifMetadata], lines 152-190: the promise around the child
    process.  Both branches of the 'close' handler and the 'error' handler
    resolve; an exception of [spawn] inside the executor rejects. *)
Definition embedExifMetadata (w : World) (jpgPath : string) (md : ImageMetadata) : M unit :=
  tick w ;;;
  match exiftool w (exifArgs jpgPath md) with
  | Closed code rewritten =>
      (fun st =>
         (match rewritten, fs st !! jpgPath with
          | Some b, Some _ => setFs (<[jpgPath := b]> (fs st)) st
          | _, _ => st
          end, Ok tt)) ;;;
      match code with
      | Some 0 => ret tt
      | _ => ret tt
      end
  | SpawnError _ => ret tt
  | SpawnThrows why => throw (Rejection why)
  end.

Section ExtractCanvasImage.

Variable w : World.
Variable config : option ScraperConfig.          (* [this.config] *)
Variables imageId outputDir : string.
Variable viewportMode : ViewportMode.
Variable metadata : option ImageMetadata.

Definition initialStabilizationMs : Z := orElse (cfgField config initialRenderWaitMs) 500.
Definition postResizeStabilizationMs : Z := orElse (cfgField config postResizeWaitMs) 750.
Definition maxWaitMs : Z := orElse (cfgField config maxRenderWaitMs) 30000.
Definition minFileSize : Z := orElse (cfgField config minValidFileSize) 51200.
Definition minDimensions : Z := orElse (cfgField config minValidDimensions) 500.

(** Lines 342-344. *)
Definition jpgQualityFor : Z :=
  match viewportMode with
  | Full => orElse (q ← cfgField config jpgQuality; full q) 95
  | Thumbnail => orElse (q ← cfgField config jpgQuality; thumbnail q) 80
  end.

(** Lines 334-336 and 346-347. *)
Definition sanitizedId : string := sanitize imageId.
Definition pngFilename : string := sanitizedId +:+ "_canvas_" +:+ modeName viewportMode +:+ ".png".
Definition jpgFilename : string := sanitizedId +:+ "_canvas_" +:+ modeName viewportMode +:+ ".jpg".
Definition pngPath : string := joinDir w outputDir +:+ pngFilename.
Definition jpgPath : string := joinDir w outputDir +:+ jpgFilename.

(** Lines 278-286: the pointer move every fifth attempt, its failure
    ignored. *)
Definition keepAlive (attempt : nat) : M unit :=
  if (attempt mod 5 =? 0)%nat
  then tryCatch (await w (mouseMove w)) (fun _ => ret tt)
  else ret tt.

(** Lines 259-287: the polling loop.  It returns [canvasReady].  The flag is
    false whenever the loop test runs, since line 269 leaves the loop after
    setting it, so the test is the one on the clock.  [fuel] bounds the number
    of iterations of the model. *)
Fixpoint pollLoop (startTime : Z) (fuel attempt : nat) : M bool :=
  t <~ dateNow ;;
  if (t - startTime <? maxWaitMs)%Z then
    match fuel with
    | O => diverge
    | S fuel' =>
        found <~ hasResponse w ;;
        if found then ret true
        else
          wait w (backoff attempt) ;;;
          keepAlive (S attempt) ;;;
          pollLoop startTime fuel' (S attempt)
    end
  else ret false.

(** Enough iterations: each one sleeps 100 ms or more. *)
Definition pollFuel : nat := S (Z.to_nat (maxWaitMs / 100)).

(** Lines 230-287: activation, the two stabilization waits, polling. *)
Definition stabilizeAndPoll : M (Z * bool) :=
  await w (fun _ => bringToFront w) ;;;
  wait w initialStabilizationMs ;;;
  wait w postResizeStabilizationMs ;;;
  startTime <~ dateNow ;;
  canvasReady <~ pollLoop startTime pollFuel 0 ;;
  ret (startTime, canvasReady).

(** Lines 289-305: the timeout branch; it always throws. *)
Definition onTimeout (startTime : Z) : M unit :=
  errorState <~ tryCatch (evalAttribute w dataError) (fun _ => ret None) ;;
  t <~ dateNow ;;
  let elapsedMs := t - startTime in
  match Js.truthy errorState with
  | Some e => throw (CanvasTimeoutError imageId elapsedMs maxWaitMs (Some e))
  | None => throw (CanvasTimeoutError imageId elapsedMs maxWaitMs None)
  end.

(** Lines 308-331: reading the two attributes and decoding the payload. *)
Definition readSignal (startTime : Z) : M bytes :=
  imageDataUrl <~ evalAttribute w dataUrl ;;
  errorFromExtension <~ evalAttribute w dataError ;;
  t <~ dateNow ;;
  let elapsedMs := t - startTime in
  match Js.truthy errorFromExtension with
  | Some e => throw (CanvasExtensionError imageId e elapsedMs)
  | None =>
      match Js.truthy imageDataUrl with
      | Some url =>
          if Js.startsWith dataUrlPrefix url then
            match Js.split "," url !! 1%nat with
            | Some base64Data => ret (base64 w base64Data)
            | None => throw (Rejection "TypeError")
            end
          else throw (CanvasExtensionError imageId "No valid canvas data URL received" elapsedMs)
      | None => throw (CanvasExtensionError imageId "No valid canvas data URL received" elapsedMs)
      end
  end.

(** Lines 338-355: the intermediate PNG, the JPEG, the PNG removed. *)
Definition saveAndTranscode (imageBuffer : bytes) : M unit :=
  writeFileSync w pngPath imageBuffer ;;;
  toFile w imageBuffer jpgQualityFor jpgPath ;;;
  unlinkSync w pngPath.

(** Lines 364-394: the two validations. *)
Definition validate (startTime : Z) : M unit :=
  fileSizeBytes <~ statSize w jpgPath ;;
  (if (fileSizeBytes <? minFileSize)%Z then
     unlinkSync w jpgPath ;;;
     t <~ dateNow ;;
     throw (CanvasExtensionError imageId (sizeMessage fileSizeBytes minFileSize) (t - startTime))
   else ret tt) ;;;
  '(width, height) <~ dimensions w jpgPath ;;
  if (width <? minDimensions)%Z || (height <? minDimensions)%Z then
    unlinkSync w jpgPath ;;;
    t <~ dateNow ;;
    throw (CanvasExtensionError imageId (dimensionsMessage width height minDimensions)
             (t - startTime))
  else ret tt.

(** Lines 401-405. *)
Definition embedIfProvided : M unit :=
  match metadata with
  | Some md => embedExifMetadata w jpgPath md
  | None => ret tt
  end.

(** Lines 229-407: the body of the [try]. *)
Definition extractBody : M string :=
  '(startTime, canvasReady) <~ stabilizeAndPoll ;;
  (if negb canvasReady then onTimeout startTime else ret tt) ;;;
  imageBuffer <~ readSignal startTime ;;
  saveAndTranscode imageBuffer ;;;
  validate startTime ;;;
  embedIfProvided ;;;
  ret jpgPath.

(** Lines 219-412: [null] is [None]. *)
Definition extractCanvasImage : M (option string) :=
  tryCatch (p <~ extractBody ;; ret (Some p)) (fun _ => ret None).

(** Two prefixes of the body, to speak of a run that has got so far: up to
    the decoded payload (lines 229-331), and up to the JPEG on disk and the
    PNG removed (lines 229-357).  Both yield [startTime]. *)
Definition decoded : M (Z * bytes) :=
  '(startTime, canvasReady) <~ stabilizeAndPoll ;;
  (if negb canvasReady then onTimeout startTime else ret tt) ;;;
  imageBuffer <~ readSignal startTime ;;
  ret (startTime, imageBuffer).

Definition captured : M Z :=
  '(startTime, imageBuffer) <~ decoded ;;
  saveAndTranscode imageBuffer ;;;
  ret startTime.

End ExtractCanvasImage.

(** A page that answers a query with no signal: no element, or one with
    neither attribute. *)
Definition quiet (o : settled (option Signal)) : bool :=
  match o with
  | Resolves None => true
  | Resolves (Some sig) =>
      negb (bool_decide (is_Some (dataUrl sig))) && negb (bool_decide (is_Some (dataError sig)))
  | Rejects _ => false
  end.

(** The error text a read of the signal element at step [k] yields, as the
    timeout branch sees it: [null] also when the read fails. *)
Definition lastError (w : World) (k : nat) : option string :=
  match dom w k with
  | Resolves (Some sig) => Js.truthy (dataError sig)
  | _ => None
  end.

(** The child process reported its end through the 'close' or the 'error'
    event. *)
Definition reported (o : Exiftool) : bool :=
  match o with
  | Closed _ _ | SpawnError _ => true
  | SpawnThrows _ => false
  end.

(** The state after one external step. *)
Definition after (w : World) (st : St) : St := (tick w st).1.

(** *** Sample runs

    A world whose page shows the signal [sig k] to step [k], where every
    step takes 3 ms, the pointer cannot be moved, the output directory is
    writable and its files can be read and removed, and the transcoder, the
    image reader and exiftool answer as given. *)
Definition sampleWorld (sig : nat -> option Signal) (tr : Transcode)
    (dims : option Z * option Z) (ex : Exiftool) : World :=
  {| lag := fun _ => 3%N;
     bringToFront := Resolves tt;
     dom := fun k => Resolves (sig k);
     mouseMove := fun _ => Rejects "Protocol error";
     joinDir := fun d => d +:+ "/";
     base64 := fun _ => [Byte.x89; Byte.x50; Byte.x4e; Byte.x47];
     writable := fun _ => true;
     statable := fun _ => true;
     deletable := fun _ => true;
     transcode := fun _ _ => tr;
     imageInfo := fun _ => Resolves dims;
     exiftool := fun _ => ex |}.

Definition sampleConfig (maxWait minSize : Z) : option ScraperConfig :=
  Some {| smartframe := Some {|
    initialRenderWaitMs := None; postResizeWaitMs := Some 10;
    maxRenderWaitMs := Some maxWait; jpgQuality := None;
    minValidFileSize := Some minSize; minValidDimensions := None |} |}.

Definition st0 : St := {| now := 1000; ticks := 0; fs := ∅ |}.

Definition jpegOf (n : nat) : bytes := List.repeat Byte.xff n.

Definition payload : option Signal :=
  Some {| dataUrl := Some "data:image/png;base64,iVBORw0KGgo="; dataError := None |}.

Definition failure : option Signal :=
  Some {| dataUrl := Some "data:image/png;base64,iVBORw0KGgo=";
          dataError := Some "canvas tainted" |}.

(** The signal from the sixth step on. *)
Definition later (s : option Signal) (k : nat) : option Signal :=
  if (k <? 6)%nat then None else s.

End Extractor.

(** ** More of the metadata arguments *)

Module ExifRuns.

(** White space only. *)
Fixpoint allWs (s : string) : bool :=
  match s with
  | String c s' => Js.is_ws c && allWs s'
  | EmptyString => true
  end.

End ExifRuns.

(** ** More of the page pool: statistics and lost slots *)

Module PoolRuns.
Import PagePool.

(** Lines 182-190: [getStats].  The four numbers are [total], [busy],
    [available] and [activeTasks] of the source. *)
Record Stats : Type := {
  statTotal : Z;
  statBusy : Z;
  statAvailable : Z;
  statActiveTasks : Z;
}.

Definition getStats (s : Scheduler) : Stats :=
  let busyCount := Z.of_nat (getBusyCount s) in
  {| statTotal := Z.of_nat (length (pages s));
     statBusy := busyCount;
     statAvailable := Z.of_nat (length (pages s)) - busyCount;
     statActiveTasks := Z.of_nat (size (activeTasks s)) |}.

(** A slot nobody owns although its busy flag is set. *)
Definition orphaned (i : nat) (y : Sys) : Prop :=
  (i ∉ holders y) /\ forall st, pages (sched y) !! i = Some st -> busy st = true.

(** The handle of slot [k]. *)
(** Every busy slot has an owner. *)
Definition allHeld (y : Sys) : Prop :=
  forall i st, pages (sched y) !! i = Some st -> busy st = true -> i ∈ holders y.

(** The events other than a rejection of [bringToFront]. *)
Definition activated (e : Event) : bool :=
  match e with
  | EvFinish _ _ false => false
  | _ => true
  end.

(** Ticks of the rotation timer in a run, and the pointer moves among its
    effects. *)
Definition isTick (e : Event) : bool :=
  match e with
  | EvRotate _ => true
  | _ => false
  end.

Definition ticks (es : list Event) : nat := length (List.filter isTick es).

Definition moves (fx : list Effect) : list Effect :=
  List.filter (fun x => match x with MouseMove _ => true | _ => false end) fx.

Definition noCleanup (e : Event) : bool :=
  match e with
  | EvCleanupBegin | EvCleanupClose | EvCleanupEnd => false
  | _ => true
  end.

Definition tickTrace : list Event :=
  [EvRotate 1; EvAttempt; EvRotate 2; EvFinish 0 3 true; EvRotate 4].

Definition tickState : Sys :=
  match runEvents (start [7; 8]%nat None) tickTrace with
  | Some y => y
  | None => start [7; 8]%nat None
  end.

Definition handleAt (s : Scheduler) (k : nat) : option Page :=
  page <$> (pages s !! k).

(** What the task promises of a state are made of: every capability handed
    out carries its own promise, older than the next one, and the promises
    still registered are those of the acquisitions in flight. *)
Record tasksTracked (y : Sys) : Prop := {
  t_nodup : NoDup (task <$> (inflight y ++ released y)%list);
  t_old : forall a, a ∈ (inflight y ++ released y)%list -> (task a < nextTask (sched y))%nat;
  t_active : activeTasks (sched y) = list_to_set (task <$> inflight y);
}.

(** A pool whose first page is taken when [cleanup] begins, and what a
    caller and the timer may try afterwards. *)
Definition closingState : Sys :=
  match runEvents (start [7; 8]%nat None) [EvStartRotation; EvAttempt; EvCleanupBegin] with
  | Some y => y
  | None => start [7; 8]%nat None
  end.

Definition closingTrace : list Event :=
  [EvAttempt; EvStartRotation; EvRotate 5; EvFinish 0 6 true; EvAttempt;
   EvCleanupClose; EvCleanupEnd; EvRotate 7;
   EvRelease {| acqPage := 7%nat; index := 0; task := 0 |}].

Definition closedState : Sys :=
  withSched (cleanupEnd (sched closingState)) closingState.

Definition afterClose : list Event :=
  [EvRotate 9; EvAttempt; EvFinish 0 11 true;
   EvRelease {| acqPage := 7%nat; index := 0; task := 0 |};
   EvCleanupBegin; EvCleanupClose; EvCleanupEnd; EvStartRotation; EvRotate 10].

(** A pool of one page whose activation was rejected, and callers that
    come afterwards. *)
Definition leakTrace : list Event := [EvAttempt; EvRotate 6; EvAttempt].

Definition leakedState : Sys :=
  match runEvents (start [7]%nat None) ([EvAttempt; EvFinish 0 5 false] ++ leakTrace) with
  | Some y => y
  | None => start [7]%nat None
  end.

End PoolRuns.

(** ** More of the extraction pipeline: what a run leaves alone *)

Module ExtractorRuns.
Import Exif Extractor.

(** Only characters of the class [a-zA-Z0-9.\-_]. *)
Fixpoint allSafe (s : string) : bool :=
  match s with
  | String c s' => safeChar c && allSafe s'
  | EmptyString => true
  end.

(** Line 330: [imageDataUrl.split(',')[1]], [undefined] as the empty text. *)
Definition base64Data (url : string) : string :=
  default "" (Js.split "," url !! 1%nat).

(** An option of exiftool that assigns: [-TAG=value] or [-TAG+=value]. *)
Definition isAssignment (a : string) : bool :=
  Js.startsWith "-" a && Js.includes "=" a.

(** The same world with another answer to the pointer moves. *)
Definition withMouse (m : nat -> settled unit) (w : World) : World :=
  {| lag := lag w; bringToFront := bringToFront w; dom := dom w; mouseMove := m;
     joinDir := joinDir w; base64 := base64 w; writable := writable w;
     statable := statable w; deletable := deletable w;
     transcode := transcode w; imageInfo := imageInfo w; exiftool := exiftool w |}.

(** The same world with other answers to deletions, and to [spawn]. *)
Definition withDeletable (d : string -> bool) (w : World) : World :=
  {| lag := lag w; bringToFront := bringToFront w; dom := dom w; mouseMove := mouseMove w;
     joinDir := joinDir w; base64 := base64 w; writable := writable w;
     statable := statable w; deletable := d;
     transcode := transcode w; imageInfo := imageInfo w; exiftool := exiftool w |}.

Definition withExiftool (f : list string -> Exiftool) (w : World) : World :=
  {| lag := lag w; bringToFront := bringToFront w; dom := dom w; mouseMove := mouseMove w;
     joinDir := joinDir w; base64 := base64 w; writable := writable w;
     statable := statable w; deletable := deletable w;
     transcode := transcode w; imageInfo := imageInfo w; exiftool := f |}.

(** A capture of 100 by 100 pixels whose JPEG, once written, cannot be
    removed: the file is locked (EBUSY) or protected (EPERM). *)
Definition lockedWorld : World :=
  withDeletable (fun p => negb (String.eqb p "/out/img_canvas_full.jpg"))
    (sampleWorld (later payload) (JpegWritten (jpegOf 8)) (Some 100, Some 100)
       (SpawnError "")).

(** [spawn] as Node has it: an argument that holds a NUL character makes the
    call throw, before any process is started; here exiftool succeeds
    otherwise. *)
Definition nulChecked (args : list string) : Exiftool :=
  if existsb (Js.includes Ascii.zero) args
  then SpawnThrows "ERR_INVALID_ARG_VALUE"
  else Closed (Some 0) None.

Definition spawnWorld : World :=
  withExiftool nulChecked
    (sampleWorld (later payload) (JpegWritten (jpegOf 8)) (Some 600, Some 600)
       (SpawnError "")).

(** Metadata whose title holds a NUL character. *)
Definition nulTitle : ImageMetadata :=
  {| titleField := Some (String "a" (String Ascii.zero "b")); subjectField := None;
     tags := None; comments := None; authors := None; dateTaken := None;
     copyright := None |}.

(** Every file but the two named ones is as it was. *)
Definition untouched (png jpg : string) (st st' : St) : Prop :=
  forall p, p <> png -> p <> jpg -> fs st' !! p = fs st !! p.

(** Metadata with a subject and one tag. *)
Definition subjectAndTag : ImageMetadata :=
  {| titleField := None; subjectField := Some "Lee"; tags := Some "x"; comments := None;
     authors := None; dateTaken := None; copyright := None |}.

(** A disk that holds another image already. *)
Definition stKeep : St :=
  {| now := 1000; ticks := 0; fs := {[ "/out/keep.jpg" := jpegOf 3 ]} |}.

End ExtractorRuns.

(** * Facts about the page pool *)

Module PoolFacts.
Import PagePool.

Lemma findIndex_Some {A} (f : A -> bool) l i :
  findIndex f l = Some i -> exists x, l !! i = Some x /\ f x = true.
Proof.
  revert i. induction l as [|a l IH]; intros i H; simpl in H; [discriminate|].
  destruct (f a) eqn:Ha.
  - injection H as <-. exists a. split; [reflexivity|exact Ha].
  - destruct (findIndex f l) as [j|]; simpl in H; [|discriminate].
    injection H as <-. destruct (IH j eq_refl) as (x & Hx & Hfx).
    exists x. split; [exact Hx|exact Hfx].
Qed.

Lemma NoDup_bounded_length (l : list nat) n :
  NoDup l -> (forall x, x ∈ l -> (x < n)%nat) -> (length l <= n)%nat.
Proof.
  intros Hnd Hb.
  assert (l ⊆+ seq 0 n) as Hs.
  { apply NoDup_submseteq; [exact Hnd|].
    intros x Hx. apply elem_of_seq. specialize (Hb x Hx). lia. }
  apply submseteq_length in Hs. rewrite length_seq in Hs. exact Hs.
Qed.

Lemma NoDup_fmap_rel {A B C} (f : A -> B) (g : A -> C) (l : list A) :
  (forall a b, a ∈ l -> b ∈ l -> f a = f b -> g a = g b) ->
  NoDup (g <$> l) -> NoDup (f <$> l).
Proof.
  induction l as [|a l IH]; intros Hfg Hnd; simpl; [constructor|].
  simpl in Hnd. apply NoDup_cons in Hnd as [Hni Hnd].
  apply NoDup_cons. split.
  - intros Hin. apply list_elem_of_fmap in Hin as (b & Hab & Hb).
    apply Hni. apply list_elem_of_fmap. exists b. split; [|exact Hb].
    apply Hfg; [left|right; exact Hb|exact Hab].
  - apply IH; [|exact Hnd]. intros x y Hx Hy. apply Hfg; right; assumption.
Qed.

(** Slot updates that keep the handle. *)
Lemma pages_alter_page (f : PageState -> PageState) i (l : list PageState) :
  (forall x, page (f x) = page x) -> page <$> alter f i l = page <$> l.
Proof.
  intros Hf. apply list_eq. intros j. rewrite !list_lookup_fmap.
  destruct (decide (i = j)) as [->|Hne].
  - rewrite list_lookup_alter_eq. destruct (l !! j); simpl; [|reflexivity].
    rewrite Hf. reflexivity.
  - rewrite list_lookup_alter_ne by exact Hne. reflexivity.
Qed.

Lemma alter_busy_kept (f : PageState -> PageState) i j (l : list PageState) st :
  (forall x, busy (f x) = busy x) ->
  alter f i l !! j = Some st -> exists st0, l !! j = Some st0 /\ busy st0 = busy st.
Proof.
  intros Hf H. destruct (decide (i = j)) as [->|Hne].
  - rewrite list_lookup_alter_eq in H. destruct (l !! j) as [x|]; simpl in H; [|discriminate].
    injection H as <-. exists x. split; [reflexivity|]. symmetry. apply Hf.
  - rewrite list_lookup_alter_ne in H by exact Hne. exists st. split; [exact H|reflexivity].
Qed.

Lemma slotsOf_alter ps s f i :
  (forall x, page (f x) = page x) ->
  slotsOf ps s -> slotsOf ps (setPages (alter f i (pages s)) s).
Proof.
  intros Hf [H|[H1 H2]]; [left|right]; simpl.
  - rewrite pages_alter_page by exact Hf. exact H.
  - rewrite H1. split; [reflexivity|exact H2].
Qed.

Lemma consistent_start ps interval : consistent ps (start ps interval).
Proof.
  split; simpl.
  - left. induction ps as [|p ps IH]; simpl; [reflexivity|]. f_equal. exact IH.
  - constructor.
  - intros i st Hi. inversion Hi.
  - intros i p Hi. inversion Hi.
  - intros a Ha. inversion Ha.
Qed.

Lemma holders_perm_finish y k i p a :
  pending y !! k = Some (i, p) -> index a = i ->
  holders {| sched := sched y; pending := delete k (pending y);
             inflight := a :: inflight y; released := released y |} ≡ₚ holders y.
Proof.
  intros Hk Ha. unfold holders; simpl.
  rewrite (delete_Permutation (pending y) k (i, p) Hk) at 2. simpl.
  rewrite Ha. symmetry. apply Permutation_middle.
Qed.

(** A stamp on some slot keeps a state consistent. *)
Lemma consistent_stamp ps y now i :
  consistent ps y ->
  consistent ps (withSched (setPages (alter (stamp now) i (pages (sched y))) (sched y)) y).
Proof.
  intros [Hs Hnd Hb Hp Hi]. split; simpl; try assumption.
  - apply slotsOf_alter; [reflexivity|exact Hs].
  - intros j st Hj Hl. apply alter_busy_kept in Hl as (st0 & Hl0 & <-); [|reflexivity].
    apply (Hb j st0); assumption.
Qed.

Lemma consistent_sched ps y s :
  pages s = pages (sched y) -> (shuttingDown (sched y) = true -> shuttingDown s = true) ->
  consistent ps y -> consistent ps (withSched s y).
Proof.
  intros Hpg Hsd [Hs Hnd Hb Hp Hi]. split; simpl; try assumption.
  - destruct Hs as [H|[H1 H2]]; [left|right]; rewrite Hpg; auto.
  - rewrite Hpg. exact Hb.
Qed.


Lemma filter_sublist {A} (f : A -> bool) (l : list A) : List.filter f l `sublist_of` l.
Proof.
  induction l as [|x l IH]; simpl; [constructor|].
  destruct (f x); [apply sublist_skip|apply sublist_cons]; exact IH.
Qed.

Lemma NoDup_fmap_eq {A B} (f : A -> B) (l : list A) a b :
  NoDup (f <$> l) -> a ∈ l -> b ∈ l -> f a = f b -> a = b.
Proof.
  induction l as [|x l IH]; intros Hnd Ha Hb Hab; [inversion Ha|].
  simpl in Hnd. apply NoDup_cons in Hnd as [Hni Hnd].
  apply elem_of_cons in Ha as [->|Ha]; apply elem_of_cons in Hb as [->|Hb].
  - reflexivity.
  - exfalso. apply Hni. rewrite Hab. apply list_elem_of_fmap. exists b. auto.
  - exfalso. apply Hni. rewrite <- Hab. apply list_elem_of_fmap. exists a. auto.
  - apply IH; assumption.
Qed.

Lemma release_pages a s :
  pages (release a s) = alter (setBusy false) (index a) (pages s).
Proof.
  unfold release. destruct (pages s !! index a) eqn:Hl; simpl; [reflexivity|].
  apply list_eq. intros j. destruct (decide (index a = j)) as [<-|Hne].
  - rewrite list_lookup_alter_eq, Hl. reflexivity.
  - rewrite list_lookup_alter_ne by exact Hne. reflexivity.
Qed.

Lemma release_shuttingDown a s : shuttingDown (release a s) = shuttingDown s.
Proof. unfold release. destruct (pages s !! index a); reflexivity. Qed.

Lemma holders_sublist ps (y y' : Sys) :
  consistent ps y ->
  slotsOf ps (sched y') ->
  holders y' `sublist_of` holders y ->
  (forall i st, i ∈ holders y' -> pages (sched y') !! i = Some st -> busy st = true) ->
  (forall x, x ∈ pending y' -> x ∈ pending y) ->
  (forall a, a ∈ inflight y' -> a ∈ inflight y) ->
  consistent ps y'.
Proof.
  intros [Hs Hnd Hb Hp Hi] Hs' Hsub Hb' Hp' Hi'. split.
  - exact Hs'.
  - eapply sublist_NoDup; [exact Hnd|exact Hsub].
  - exact Hb'.
  - intros i p H. apply Hp, Hp', H.
  - intros a H. apply Hi, Hi', H.
Qed.

Lemma consistent_step ps y e y' fx :
  consistent ps y -> releasesOnce y e = true -> step y e = Some (y', fx) ->
  consistent ps y'.
Proof.
  intros Hc Honce Hstep.
  destruct e as [| |now| |k now resolved|a| | |]; simpl in Hstep.
  - (* startRotation *)
    injection Hstep as <- <-. apply consistent_sched; [| |exact Hc];
      unfold startRotation; destruct (rotationTimerId (sched y)); auto.
  - injection Hstep as <- <-. apply consistent_sched; [| |exact Hc];
      unfold stopRotation; destruct (rotationTimerId (sched y)); auto.
  - (* rotate *)
    destruct (rotateActivePage now (sched y)) as [s fx'] eqn:Hr.
    injection Hstep as <- <-. unfold rotateActivePage in Hr.
    destruct (shuttingDown (sched y)) eqn:Hsd.
    { injection Hr as <- <-. destruct y; exact Hc. }
    simpl in Hr.
    destruct (nextIndex (currentActiveIndex (sched y)) (length (pages (sched y)))) as [i|];
      [|injection Hr as <- <-; apply consistent_sched; auto].
    destruct (pages (sched y) !! i) as [st|] eqn:Hst;
      [|injection Hr as <- <-; apply consistent_sched; auto].
    rewrite Hsd in Hr. simpl in Hr. injection Hr as <- <-.
    apply (consistent_stamp ps y now i) in Hc.
    apply (consistent_sched ps _ (setPages (alter (stamp now) i (pages (sched y)))
             (setCursor (Some i) (sched y)))) in Hc; [exact Hc|reflexivity|auto].
  - (* attempt *)
    unfold acquireAttempt in Hstep.
    destruct (shuttingDown (sched y)) eqn:Hsd.
    { injection Hstep as <- <-. destruct y; exact Hc. }
    destruct (findIndex (fun p => negb (busy p)) (pages (sched y))) as [i|] eqn:Hf;
      [|injection Hstep as <- <-; destruct y; exact Hc].
    destruct (pages (sched y) !! i) as [st|] eqn:Hst;
      [|injection Hstep as <- <-; destruct y; exact Hc].
    injection Hstep as <- <-.
    apply findIndex_Some in Hf as (st' & Hst' & Hfree).
    rewrite Hst in Hst'. injection Hst' as <-.
    destruct Hc as [Hs Hnd Hb Hp Hi].
    assert (i ∉ holders y) as Hfresh.
    { intros Hin. specialize (Hb i st Hin Hst). rewrite Hb in Hfree. discriminate. }
    assert (holders {| sched := setPages (alter (setBusy true) i (pages (sched y))) (sched y);
                       pending := pending y ++ [(i, page st)];
                       inflight := inflight y; released := released y |}
            ≡ₚ i :: holders y) as Hperm.
    { unfold holders; simpl. rewrite fmap_app. simpl.
      rewrite <- app_assoc. simpl. symmetry. apply Permutation_middle. }
    split; simpl.
    + apply slotsOf_alter; [reflexivity|exact Hs].
    + rewrite Hperm. apply NoDup_cons. split; assumption.
    + intros j st' Hj Hl. rewrite Hperm in Hj.
      destruct (decide (i = j)) as [<-|Hne].
      * rewrite list_lookup_alter_eq, Hst in Hl. injection Hl as <-. reflexivity.
      * rewrite list_lookup_alter_ne in Hl by exact Hne.
        apply elem_of_cons in Hj as [->|Hj]; [congruence|]. apply (Hb j); assumption.
    + intros j q Hj. apply elem_of_app in Hj as [Hj|Hj]; [apply Hp, Hj|].
      apply list_elem_of_singleton in Hj. injection Hj as -> ->.
      destruct Hs as [Hs|[Hs _]]; [|rewrite Hs in Hst; discriminate].
      rewrite <- Hs, list_lookup_fmap, Hst. reflexivity.
    + exact Hi.
  - (* finish *)
    destruct (pending y !! k) as [[i p]|] eqn:Hk; [|discriminate].
    assert ((i, p) ∈ pending y) as Hin by (apply list_elem_of_lookup; eauto).
    destruct resolved.
    + simpl in Hstep. injection Hstep as <- <-.
      pose proof (holders_perm_finish y k i p
        {| acqPage := p; index := i; task := nextTask (sched y) |} Hk eq_refl) as Hperm.
      destruct Hc as [Hs Hnd Hb Hp Hi]. split; simpl.
      * apply (slotsOf_alter ps (sched y) (stamp now) i); [reflexivity|exact Hs].
      * unfold holders in *; simpl in *. rewrite Hperm. exact Hnd.
      * intros j st Hj Hl. unfold holders in *; simpl in *. rewrite Hperm in Hj.
        apply alter_busy_kept in Hl as (st0 & Hl0 & <-); [|reflexivity].
        apply (Hb j); assumption.
      * intros j q Hj. apply Hp. eapply list_elem_of_delete_inv, Hj.
      * intros a Ha. apply elem_of_cons in Ha as [->|Ha]; [simpl; apply Hp, Hin|apply Hi, Ha].
    + injection Hstep as <- <-.
      apply (holders_sublist ps y); simpl; try (destruct Hc; assumption).
      * exact Hc.
      * unfold holders; simpl. apply sublist_app; [|reflexivity].
        apply fmap_sublist, sublist_delete.
      * intros j st Hj Hl. destruct Hc as [_ _ Hb _ _]. apply (Hb j); [|exact Hl].
        unfold holders in *; simpl in *.
        apply elem_of_app in Hj as [Hj|Hj]; apply elem_of_app; [left|right; exact Hj].
        apply list_elem_of_fmap in Hj as (x & -> & Hx). apply list_elem_of_fmap.
        exists x. split; [reflexivity|]. eapply list_elem_of_delete_inv, Hx.
      * intros x Hx. eapply list_elem_of_delete_inv, Hx.
      * auto.
  - (* release *)
    simpl in Honce. rewrite Honce in Hstep. injection Hstep as <- <-.
    apply bool_decide_eq_true in Honce.
    assert (forall b, b ∈ List.filter (fun b => negb (bool_decide (b = a))) (inflight y) ->
                      b ∈ inflight y /\ b <> a) as Hflt.
    { intros b Hb. apply list_elem_of_In, filter_In in Hb as [Hb1 Hb2].
      split; [apply list_elem_of_In, Hb1|].
      apply negb_true_iff, bool_decide_eq_false in Hb2. exact Hb2. }
    apply (holders_sublist ps y); cbn [sched pending inflight released].
    + exact Hc.
    + destruct Hc as [Hs _ _ _ _]. destruct Hs as [Hs|[Hs1 Hs2]]; [left|right].
      * rewrite release_pages, pages_alter_page by reflexivity. exact Hs.
      * rewrite release_pages, release_shuttingDown, Hs1. auto.
    + unfold holders; cbn [sched pending inflight released].
      apply sublist_app; [reflexivity|]. apply fmap_sublist, filter_sublist.
    + intros j st Hj Hl. destruct Hc as [_ Hnd Hb _ _].
      rewrite release_pages in Hl.
      unfold holders in Hj, Hnd; cbn [sched pending inflight released] in Hj.
      assert (index a ≠ j) as Hne.
      { apply NoDup_app in Hnd as (_ & Hdisj & Hnd2).
        intros <-. apply elem_of_app in Hj as [Hj|Hj].
        - apply (Hdisj _ Hj). apply list_elem_of_fmap. exists a. auto.
        - apply list_elem_of_fmap in Hj as (b & Hidx & Hb').
          apply Hflt in Hb' as [Hb1 Hb2]. apply Hb2. symmetry.
          apply (NoDup_fmap_eq index (inflight y)); auto. }
      rewrite list_lookup_alter_ne in Hl by exact Hne.
      apply (Hb j); [|exact Hl]. unfold holders.
      apply elem_of_app in Hj as [Hj|Hj]; apply elem_of_app; [left; exact Hj|right].
      apply list_elem_of_fmap in Hj as (b & -> & Hb'). apply list_elem_of_fmap.
      exists b. split; [reflexivity|]. apply Hflt, Hb'.
    + auto.
    + intros b Hb. apply Hflt, Hb.
  - (* cleanupBegin *)
    injection Hstep as <- <-. apply consistent_sched; [| |exact Hc].
    + unfold cleanupBegin, stopRotation. simpl. destruct (rotationTimerId (sched y)); reflexivity.
    + intros _. unfold cleanupBegin, stopRotation. simpl.
      destruct (rotationTimerId (sched y)); reflexivity.
  - (* cleanupClose *)
    destruct (shuttingDown (sched y)); [|discriminate]. injection Hstep as <- <-. exact Hc.
  - (* cleanupEnd *)
    destruct (shuttingDown (sched y)) eqn:Hsd; [|discriminate].
    simpl in Hstep. injection Hstep as <- <-.
    destruct Hc as [Hs Hnd Hb Hp Hi]. split; simpl; try assumption.
    + right. auto.
    + intros i st _ Hl. rewrite lookup_nil in Hl. discriminate.
Qed.

Lemma consistent_run ps es : forall y y',
  consistent ps y -> allOnce y es = true -> runEvents y es = Some y' -> consistent ps y'.
Proof.
  induction es as [|e es IH]; intros y y' Hc Hall Hrun; simpl in *.
  - injection Hrun as <-. exact Hc.
  - apply andb_true_iff in Hall as [Ho Hall].
    destruct (step y e) as [[y1 fx]|] eqn:Hst; [|discriminate].
    apply (IH y1); [|exact Hall|exact Hrun].
    eapply consistent_step; eauto.
Qed.

(** Only [release] clears a busy flag of a slot that stays in the array. *)
Lemma busy_cleared_by_release y e y' fx i st st' :
  step y e = Some (y', fx) ->
  pages (sched y) !! i = Some st -> busy st = true ->
  pages (sched y') !! i = Some st' -> busy st' = false ->
  exists a, e = EvRelease a /\ index a = i /\ (a ∈ inflight y \/ a ∈ released y).
Proof.
  intros Hstep Hl Hb Hl' Hb'.
  assert (forall f, (forall x, busy (f x) = busy x) -> forall k,
            alter f k (pages (sched y)) !! i = Some st' -> False) as Hkeep.
  { intros f Hf k H. apply alter_busy_kept in H as (st0 & H0 & Hbb); [|exact Hf].
    rewrite Hl in H0. injection H0 as <-. congruence. }
  assert (pages (sched y) !! i = Some st' -> False) as Hsame by (intros H; congruence).
  destruct e as [| |now| |k now resolved|a| | |]; simpl in Hstep.
  - injection Hstep as <- <-. exfalso. apply Hsame. rewrite <- Hl'.
    unfold startRotation. simpl. destruct (rotationTimerId (sched y)); reflexivity.
  - injection Hstep as <- <-. exfalso. apply Hsame. rewrite <- Hl'.
    unfold stopRotation. simpl. destruct (rotationTimerId (sched y)); reflexivity.
  - exfalso. unfold rotateActivePage in Hstep.
    destruct (shuttingDown (sched y)) eqn:Hsd.
    { injection Hstep as <- <-. auto. }
    simpl in Hstep.
    destruct (nextIndex (currentActiveIndex (sched y)) (length (pages (sched y)))) as [j|];
      [|injection Hstep as <- <-; auto].
    destruct (pages (sched y) !! j); [|injection Hstep as <- <-; auto].
    rewrite Hsd in Hstep. simpl in Hstep. injection Hstep as <- <-.
    simpl in Hl'. eapply (Hkeep (stamp now)); [reflexivity|exact Hl'].
  - exfalso. unfold acquireAttempt in Hstep.
    destruct (shuttingDown (sched y)); [injection Hstep as <- <-; auto|].
    destruct (findIndex (fun p => negb (busy p)) (pages (sched y))) as [j|];
      [|injection Hstep as <- <-; auto].
    destruct (pages (sched y) !! j) as [sj|] eqn:Hj; [|injection Hstep as <- <-; auto].
    injection Hstep as <- <-. simpl in Hl'.
    destruct (decide (j = i)) as [->|Hne].
    + rewrite list_lookup_alter_eq, Hj in Hl'. injection Hl' as <-. discriminate.
    + rewrite list_lookup_alter_ne in Hl' by exact Hne. auto.
  - exfalso. destruct (pending y !! k) as [[j p]|]; [|discriminate].
    destruct resolved; simpl in Hstep; injection Hstep as <- <-; simpl in Hl'; [|auto].
    eapply (Hkeep (stamp now)); [reflexivity|exact Hl'].
  - assert (sched y' = release a (sched y) /\ (a ∈ inflight y \/ a ∈ released y)) as [Hs Hin].
    { destruct (bool_decide (a ∈ inflight y)) eqn:H1.
      - injection Hstep as <- <-. apply bool_decide_eq_true in H1. auto.
      - destruct (bool_decide (a ∈ released y)) eqn:H2; [|discriminate].
        injection Hstep as <- <-. apply bool_decide_eq_true in H2. auto. }
    exists a. split; [reflexivity|]. split; [|exact Hin].
    rewrite Hs, release_pages in Hl'.
    destruct (decide (index a = i)) as [He|Hne]; [exact He|].
    rewrite list_lookup_alter_ne in Hl' by exact Hne. exfalso. auto.
  - injection Hstep as <- <-. exfalso. apply Hsame. rewrite <- Hl'.
    unfold cleanupBegin, stopRotation. simpl. destruct (rotationTimerId (sched y)); reflexivity.
  - destruct (shuttingDown (sched y)); [|discriminate].
    injection Hstep as <- <-. exfalso. auto.
  - destruct (shuttingDown (sched y)); [|discriminate]. simpl in Hstep.
    injection Hstep as <- <-. simpl in Hl'. rewrite lookup_nil in Hl'. discriminate.
Qed.

(** [acquirePage] takes a free slot and marks it in the same segment. *)
Lemma attempt_grants_free_slot s s' i p fx :
  acquireAttempt s = (s', Granted i p, fx) ->
  (exists st, pages s !! i = Some st /\ busy st = false /\ page st = p) /\
  (exists st', pages s' !! i = Some st' /\ busy st' = true).
Proof.
  unfold acquireAttempt. intros H.
  destruct (shuttingDown s); [discriminate|].
  destruct (findIndex (fun p => negb (busy p)) (pages s)) as [j|] eqn:Hf; [|discriminate].
  destruct (pages s !! j) as [st|] eqn:Hj; [|discriminate].
  injection H as <- <- <- <-.
  apply findIndex_Some in Hf as (st0 & H0 & Hfree). rewrite Hj in H0. injection H0 as <-.
  apply negb_true_iff in Hfree. split.
  - exists st. auto.
  - exists (setBusy true st). simpl. rewrite list_lookup_alter_eq, Hj. auto.
Qed.

(** C1, as amended.  For callers that call each [release] callback at most
    once, in every state the pool reaches from its construction over the pages
    [ps]: the acquisitions in flight are at most as many as the pages; no two
    of them hold the same slot, nor, when the handles in [ps] are distinct, the
    same page handle.  Without condition on the callers: [acquirePage] grants
    only a slot whose busy flag is false and has set the flag by the time it
    suspends, and only the [release] callback of an acquisition of a slot
    clears the busy flag of that slot. *)
Theorem pool_release_once_exclusive (ps : list Page) (interval : option Z)
    (es : list Event) (y : Sys) :
  allOnce (start ps interval) es = true ->
  runEvents (start ps interval) es = Some y ->
  (length (inflight y) <= length ps)%nat
  /\ NoDup (index <$> inflight y)
  /\ (NoDup ps -> NoDup (acqPage <$> inflight y))
  /\ (forall s s' i p fx,
        acquireAttempt s = (s', Granted i p, fx) ->
        (exists st, pages s !! i = Some st /\ busy st = false /\ page st = p) /\
        (exists st', pages s' !! i = Some st' /\ busy st' = true))
  /\ (forall y0 e y1 fx i st st',
        step y0 e = Some (y1, fx) ->
        pages (sched y0) !! i = Some st -> busy st = true ->
        pages (sched y1) !! i = Some st' -> busy st' = false ->
        exists a, e = EvRelease a /\ index a = i /\ (a ∈ inflight y0 \/ a ∈ released y0)).
Proof.
  intros Hall Hrun.
  pose proof (consistent_run ps es _ _ (consistent_start ps interval) Hall Hrun)
    as [Hs Hnd Hb Hp Hi].
  unfold holders in Hnd. apply NoDup_app in Hnd as (_ & _ & Hnd).
  split; [|split; [exact Hnd|split]].
  - rewrite <- (length_fmap index). apply NoDup_bounded_length; [exact Hnd|].
    intros i Hin. apply list_elem_of_fmap in Hin as (a & -> & Ha).
    eapply lookup_lt_Some, Hi, Ha.
  - intros Hps. apply (NoDup_fmap_rel acqPage index); [|exact Hnd].
    intros a b Ha Hb' Hab. apply (NoDup_lookup ps _ _ (acqPage a)); [exact Hps|apply Hi, Ha|].
    rewrite Hab. apply Hi, Hb'.
  - split.
    + apply attempt_grants_free_slot.
    + apply busy_cleared_by_release.
Qed.

(** A concrete run for [pool_release_once_exclusive]: two pages, two
    acquisitions, one release. *)
Lemma pool_release_once_exclusive_witness :
  (length (inflight onceState) <= 2)%nat /\ NoDup (index <$> inflight onceState).
Proof.
  destruct (pool_release_once_exclusive [7; 8]%nat None onceTrace onceState)
    as (H1 & H2 & _).
  - vm_compute. reflexivity.
  - vm_compute. reflexivity.
  - split; [exact H1|exact H2].
Defined.

(** C1, as stated, fails.  A [release] called a second time, after the slot
    has been granted again, frees it under its new owner, and a third
    acquisition then shares the only page of the pool with the second: two
    acquisitions in flight over one page.  And in a pool built over the same
    handle twice, two callers that release nothing twice hold that handle
    together. *)
Lemma stale_release_shares_the_slot :
  ~ (forall y, runEvents (start [7]%nat None) staleTrace = Some y ->
       (length (inflight y) <= length [7%nat])%nat /\ NoDup (acqPage <$> inflight y))
  /\ ~ (forall y, runEvents (start [7; 7]%nat None) twinTrace = Some y ->
         allOnce (start [7; 7]%nat None) twinTrace = true ->
         NoDup (acqPage <$> inflight y)).
Proof.
  split.
  - intros H.
    assert (runEvents (start [7]%nat None) staleTrace = Some staleState) as Hrun
      by (vm_compute; reflexivity).
    destruct (H _ Hrun) as [Hlen _].
    assert (length (inflight staleState) = 2%nat) as Hlen2 by (vm_compute; reflexivity).
    rewrite Hlen2 in Hlen. simpl in Hlen. lia.
  - intros H.
    assert (runEvents (start [7; 7]%nat None) twinTrace = Some twinState) as Hrun
      by (vm_compute; reflexivity).
    specialize (H _ Hrun eq_refl).
    assert (acqPage <$> inflight twinState = [7; 7]%nat) as Hp by (vm_compute; reflexivity).
    rewrite Hp in H. apply NoDup_cons in H as [Hin _]. apply Hin. left.
Qed.

(** C6.  A tick of the rotation timer asks nothing of a page but a pointer
    move, changes nothing of the pool but the cursor and the stamp of the
    slot under it, and does nothing at all once shutdown has begun; of all
    the segments of the pool only the one of [acquirePage] brings a page to
    the front. *)
Theorem rotation_never_activates :
  (forall now s,
     (forall e, e ∈ (rotateActivePage now s).2 -> exists p, e = MouseMove p) /\
     (exists c ts, (rotateActivePage now s).1 = setPages ts (setCursor c s) /\
        page <$> ts = page <$> pages s /\ busy <$> ts = busy <$> pages s /\
        (forall j, c <> Some j -> ts !! j = pages s !! j)))
  /\ (forall y e y' fx p, step y e = Some (y', fx) -> BringToFront p ∈ fx -> e = EvAttempt)
  /\ (forall now s, shuttingDown s = true -> rotateActivePage now s = (s, [])).
Proof.
  assert (forall now s, shuttingDown s = true -> rotateActivePage now s = (s, [])) as Hoff.
  { intros now s H. unfold rotateActivePage. rewrite H. reflexivity. }
  assert (forall now s,
     (forall e, e ∈ (rotateActivePage now s).2 -> exists p, e = MouseMove p) /\
     (exists c ts, (rotateActivePage now s).1 = setPages ts (setCursor c s) /\
        page <$> ts = page <$> pages s /\ busy <$> ts = busy <$> pages s /\
        (forall j, c <> Some j -> ts !! j = pages s !! j))) as Hrot.
  { intros now s. unfold rotateActivePage.
    destruct (shuttingDown s) eqn:Hsd; simpl.
    { split; [intros e He; inversion He|].
      exists (currentActiveIndex s), (pages s). destruct s; auto. }
    destruct (nextIndex (currentActiveIndex s) (length (pages s))) as [i|] eqn:Hn.
    2:{ split; [intros e He; inversion He|]. exists None, (pages s). destruct s; auto. }
    destruct (pages s !! i) as [st|] eqn:Hst.
    2:{ split; [intros e He; inversion He|]. exists (Some i), (pages s). destruct s; auto. }
    rewrite Hsd. simpl. split.
    - intros e He. apply list_elem_of_singleton in He. eauto.
    - exists (Some i), (alter (stamp now) i (pages s)).
      split; [reflexivity|]. split; [apply pages_alter_page; reflexivity|]. split.
      + apply list_eq. intros j. rewrite !list_lookup_fmap.
        destruct (decide (i = j)) as [->|Hne].
        * rewrite list_lookup_alter_eq. destruct (pages s !! j); reflexivity.
        * rewrite list_lookup_alter_ne by exact Hne. reflexivity.
      + intros j Hj. apply list_lookup_alter_ne. congruence. }
  split; [exact Hrot|split; [|exact Hoff]].
  intros y e y' fx p Hstep Hin.
  destruct e as [| |now| |k now resolved|a| | |]; simpl in Hstep;
    try reflexivity; exfalso.
  - injection Hstep as <- <-. inversion Hin.
  - injection Hstep as <- <-. inversion Hin.
  - destruct (rotateActivePage now (sched y)) as [s fx'] eqn:Hr.
    injection Hstep as <- <-. destruct (Hrot now (sched y)) as [Hfx _].
    rewrite Hr in Hfx. destruct (Hfx _ Hin) as [q Hq]. discriminate.
  - destruct (pending y !! k) as [[j q]|]; [|discriminate].
    destruct resolved; simpl in Hstep; injection Hstep as <- <-; inversion Hin.
  - destruct (bool_decide (a ∈ inflight y)); [injection Hstep as <- <-; inversion Hin|].
    destruct (bool_decide (a ∈ released y)); [injection Hstep as <- <-; inversion Hin|].
    discriminate.
  - injection Hstep as <- <-. inversion Hin.
  - destruct (shuttingDown (sched y)); [|discriminate].
    injection Hstep as <- <-. unfold cleanupClose in Hin.
    apply list_elem_of_In, in_map_iff in Hin as (x & Hx & _). discriminate.
  - destruct (shuttingDown (sched y)); [|discriminate].
    injection Hstep as <- <-. inversion Hin.
Qed.

(** A concrete tick and a concrete run for [rotation_never_activates]. *)
Lemma rotation_never_activates_witness :
  rotateActivePage 9 (cleanupBegin (create [7; 8]%nat None))
  = (cleanupBegin (create [7; 8]%nat None), []).
Proof.
  destruct rotation_never_activates as (_ & _ & H).
  apply H. reflexivity.
Defined.

End PoolFacts.

(** * Facts about the regular expression and the exiftool arguments *)

Module ExifFacts.
Import Regex Exif ExifRuns.

Section Engine.
Variables (cs : caps) (res : caps).



End Engine.





















(** *** Splitting and trimming *)

Lemma split_nonempty sep s : Js.split sep s <> [].
Proof.
  destruct s as [|c s]; simpl; [discriminate|].
  destruct (Ascii.eqb c sep); [discriminate|].
  destruct (Js.split sep s); discriminate.
Qed.

Lemma split_join sep s : Js.join sep (Js.split sep s) = s.
Proof.
  induction s as [|c s IH]; simpl; [reflexivity|].
  destruct (Ascii.eqb c sep) eqn:E.
  - apply Ascii.eqb_eq in E. subst c.
    destruct (Js.split sep s) as [|h t] eqn:Hs; [exfalso; eapply split_nonempty, Hs|].
    rewrite <- IH. reflexivity.
  - destruct (Js.split sep s) as [|h t] eqn:Hs; [exfalso; eapply split_nonempty, Hs|].
    rewrite <- IH. destruct t; reflexivity.
Qed.

Lemma split_pieces sep s x : In x (Js.split sep s) -> Js.includes sep x = false.
Proof.
  revert x. induction s as [|c s IH]; simpl; intros x Hx.
  - destruct Hx as [<-|[]]. reflexivity.
  - destruct (Ascii.eqb c sep) eqn:E.
    + destruct Hx as [<-|Hx]; [reflexivity|apply IH, Hx].
    + destruct (Js.split sep s) as [|h t] eqn:Hs.
      * destruct Hx as [<-|[]]. simpl. rewrite E. reflexivity.
      * destruct Hx as [<-|Hx].
        -- simpl. rewrite E. apply IH. left. reflexivity.
        -- apply IH. right. exact Hx.
Qed.

Lemma includes_trimStart c s : Js.includes c s = false -> Js.includes c (Js.trimStart s) = false.
Proof.
  induction s as [|a s IH]; simpl; [auto|]. intros H.
  apply orb_false_iff in H as [H1 H2].
  destruct (Js.is_ws a); [apply IH, H2|]. simpl. rewrite H1, H2. reflexivity.
Qed.

Lemma includes_trimEnd c s : Js.includes c s = false -> Js.includes c (Js.trimEnd s) = false.
Proof.
  induction s as [|a s IH]; simpl; [auto|]. intros H.
  apply orb_false_iff in H as [H1 H2]. specialize (IH H2).
  destruct (Js.trimEnd s) as [|b t].
  - destruct (Js.is_ws a); simpl; [reflexivity|]. rewrite H1. reflexivity.
  - cbn [Js.includes]. cbn [Js.includes] in IH. rewrite H1, IH. reflexivity.
Qed.

Lemma headWs_trimStart s : Js.headWs (Js.trimStart s) = false.
Proof.
  induction s as [|a s IH]; simpl; [reflexivity|].
  destruct (Js.is_ws a) eqn:E; [exact IH|]. simpl. exact E.
Qed.

Lemma headWs_trimEnd s : Js.headWs s = false -> Js.headWs (Js.trimEnd s) = false.
Proof.
  destruct s as [|a s]; simpl; [auto|]. intros H.
  destruct (Js.trimEnd s); [rewrite H|]; simpl; exact H.
Qed.

Lemma lastWs_trimEnd s : Js.lastWs (Js.trimEnd s) = false.
Proof.
  induction s as [|a s IH]; simpl; [reflexivity|].
  destruct (Js.trimEnd s) as [|b t].
  - destruct (Js.is_ws a) eqn:E; simpl; [reflexivity|exact E].
  - exact IH.
Qed.

(** Every token is non-empty, trimmed and free of commas. *)
Lemma tagList_tokens t tok :
  In tok (tagList t) ->
  tok <> "" /\ Js.headWs tok = false /\ Js.lastWs tok = false /\ Js.includes "," tok = false.
Proof.
  unfold tagList. intros H. apply filter_In in H as [H Hne].
  apply in_map_iff in H as (x & <- & Hx). split; [|split; [|split]].
  - intros E. rewrite E in Hne. discriminate.
  - apply headWs_trimEnd, headWs_trimStart.
  - apply lastWs_trimEnd.
  - apply includes_trimEnd, includes_trimStart, (split_pieces _ _ _ Hx).
Qed.

(** Each token is appended as often as it occurs. *)
Lemma append_inj_r (p a b : string) : p +:+ a = p +:+ b -> a = b.
Proof. induction p as [|c p IH]; simpl; [auto|]. intros H. injection H as H. auto. Qed.

Lemma tagArgs_count (l : list string) tok :
  count_occ string_dec (List.flat_map (fun tag => [keywordArg tag; subjectArg tag]) l)
    (keywordArg tok) = count_occ string_dec l tok /\
  count_occ string_dec (List.flat_map (fun tag => [keywordArg tag; subjectArg tag]) l)
    (subjectArg tok) = count_occ string_dec l tok.
Proof.
  induction l as [|x l [IH1 IH2]]; [split; reflexivity|].
  cbn [List.flat_map app count_occ].
  assert (subjectArg x <> keywordArg tok) as N1 by discriminate.
  assert (keywordArg x <> subjectArg tok) as N2 by discriminate.
  destruct (string_dec x tok) as [->|Hne].
  - destruct (string_dec (keywordArg tok) (keywordArg tok)); [|contradiction].
    destruct (string_dec (subjectArg tok) (keywordArg tok)); [contradiction|].
    destruct (string_dec (keywordArg tok) (subjectArg tok)); [contradiction|].
    destruct (string_dec (subjectArg tok) (subjectArg tok)); [|contradiction].
    rewrite IH1, IH2. split; reflexivity.
  - destruct (string_dec (keywordArg x) (keywordArg tok)) as [E|_];
      [apply append_inj_r in E; contradiction|].
    destruct (string_dec (subjectArg x) (keywordArg tok)); [contradiction|].
    destruct (string_dec (keywordArg x) (subjectArg tok)); [contradiction|].
    destruct (string_dec (subjectArg x) (subjectArg tok)) as [E|_];
      [apply append_inj_r in E; contradiction|].
    split; assumption.
Qed.

Lemma trimStart_cut s : exists l, s = l +:+ Js.trimStart s /\ allWs l = true.
Proof.
  induction s as [|c s IH]; [exists ""; auto|]. simpl.
  destruct (Js.is_ws c) eqn:E; [|exists ""; auto].
  destruct IH as (l & Hl & Hw). exists (String c l). split.
  - change (String c s = String c (l +:+ Js.trimStart s)). f_equal. exact Hl.
  - simpl. rewrite E, Hw. reflexivity.
Qed.

Lemma trimEnd_cut s : exists r, s = Js.trimEnd s +:+ r /\ allWs r = true.
Proof.
  induction s as [|c s IH]; [exists ""; auto|]. simpl.
  destruct IH as (r & Hr & Hw). destruct (Js.trimEnd s) as [|d t] eqn:E.
  - destruct (Js.is_ws c) eqn:Ec.
    + exists (String c r). change ("" +:+ r) with r in Hr. subst s. split; [reflexivity|].
      simpl. rewrite Ec, Hw. reflexivity.
    + exists r. split; [|exact Hw]. change ("" +:+ r) with r in Hr. subst s. reflexivity.
  - exists r. split; [|exact Hw].
    change (String c s = String c (String d t +:+ r)). f_equal. exact Hr.
Qed.

Lemma trim_cut s :
  exists l r, s = l +:+ Js.trim s +:+ r /\ allWs l = true /\ allWs r = true.
Proof.
  destruct (trimStart_cut s) as (l & Hl & Hwl).
  destruct (trimEnd_cut (Js.trimStart s)) as (r & Hr & Hwr).
  exists l, r. unfold Js.trim. rewrite <- Hr. auto.
Qed.

Lemma trim_ends s : Js.headWs (Js.trim s) = false /\ Js.lastWs (Js.trim s) = false.
Proof.
  unfold Js.trim. split; [|apply lastWs_trimEnd].
  apply headWs_trimEnd, headWs_trimStart.
Qed.

(** C7, as amended.  The tags string is split on commas, at every comma and
    nowhere else; every piece is trimmed of the white space at its two ends
    and of nothing else, and the pieces that are empty then are dropped: the
    tokens are the trimmed non-empty pieces, all of them, in their order.  A
    token is never empty, never starts or ends with white space and holds no
    comma.  Each token is appended to the keyword list and to the subject
    list once for each of its occurrences, duplicates included, and these
    arguments come last before the file path.  For ["a, b ,b,"] the tokens
    are [a], [b] and [b]: two distinct keywords, [b] appended twice. *)
Theorem tags_appended_individually :
  (forall t, Js.join "," (Js.split "," t) = t)
  /\ (forall t piece, In piece (Js.split "," t) -> Js.includes "," piece = false)
  /\ (forall s, exists l r,
        s = l +:+ Js.trim s +:+ r /\ allWs l = true /\ allWs r = true
        /\ Js.headWs (Js.trim s) = false /\ Js.lastWs (Js.trim s) = false)
  /\ (forall t, tagList t
                = List.filter (fun tok => negb (String.eqb tok ""))
                    (List.map Js.trim (Js.split "," t)))
  /\ (forall t piece, In piece (Js.split "," t) -> Js.trim piece <> "" ->
        In (Js.trim piece) (tagList t))
  /\ (forall t tok, In tok (tagList t) ->
        tok <> "" /\ Js.headWs tok = false /\ Js.lastWs tok = false /\
        Js.includes "," tok = false)
  /\ (forall t, tagArgs t
                = List.flat_map (fun tok => ["-IPTC:Keywords+=" +:+ tok; "-XMP:Subject+=" +:+ tok])
                    (tagList t))
  /\ (forall t tok,
        count_occ string_dec (tagArgs t) (keywordArg tok) = count_occ string_dec (tagList t) tok /\
        count_occ string_dec (tagArgs t) (subjectArg tok) = count_occ string_dec (tagList t) tok)
  /\ (forall p t, exifArgs p (tagsOnly t) = (["-overwrite_original"] ++ tagArgs t ++ [p])%list)
  /\ tagList "a, b ,b," = ["a"; "b"; "b"]
  /\ tagArgs "a, b ,b," =
       ["-IPTC:Keywords+=a"; "-XMP:Subject+=a"; "-IPTC:Keywords+=b"; "-XMP:Subject+=b";
        "-IPTC:Keywords+=b"; "-XMP:Subject+=b"].
Proof.
  split; [apply split_join|]. split; [intros t piece; apply split_pieces|].
  split.
  { intros s. destruct (trim_cut s) as (l & r & H1 & H2 & H3).
    destruct (trim_ends s) as [H4 H5]. exists l, r. auto. }
  split; [reflexivity|]. split.
  { intros t piece Hin Hne. unfold tagList. apply filter_In. split.
    - apply in_map, Hin.
    - apply negb_true_iff, String.eqb_neq, Hne. }
  split; [apply tagList_tokens|]. split; [reflexivity|].
  split; [intros t tok; apply tagArgs_count|]. split; [|split; reflexivity].
  intros p t. unfold exifArgs, whenTruthy. cbn [tagsOnly titleField subjectField comments
    authors copyright dateTaken tags Js.truthy].
  destruct (String.eqb t "") eqn:E; [|reflexivity].
  apply String.eqb_eq in E. subst t. reflexivity.
Qed.

(** [tags_appended_individually] at the piece [" b"] of [" x ,, b"]. *)
Lemma tags_appended_individually_witness :
  In "b" (tagList " x ,, b")
  /\ "b" <> "" /\ Js.headWs "b" = false /\ Js.lastWs "b" = false /\ Js.includes "," "b" = false.
Proof.
  destruct tags_appended_individually as (_ & _ & _ & _ & Hall & H & _).
  assert (In "b" (tagList " x ,, b")) as Hin.
  { apply (Hall " x ,, b" " b"); [simpl; auto|discriminate]. }
  split; [exact Hin|]. exact (H " x ,, b" "b" Hin).
Defined.

(** C7, as stated, fails: for ["a, b ,b,"] the keyword [b] is not added
    once but twice. *)
Lemma duplicate_tag_added_twice :
  ~ (forall tok, In tok ["a"; "b"] ->
       count_occ string_dec (exifArgs "/out/x.jpg" (tagsOnly "a, b ,b,")) (keywordArg tok) = 1%nat).
Proof.
  intros H. specialize (H "b" (or_intror (or_introl eq_refl))).
  vm_compute in H. discriminate.
Qed.

End ExifFacts.

(** * Facts about the extraction pipeline *)

Module ExtractorFacts.
Import Exif Extractor ExtractorRuns.
Local Open Scope Z_scope.
Local Open Scope js_scope.

(** *** Control *)

Lemma bind_ok {A B} (c : M A) (k : A -> M B) st st1 a :
  c st = (st1, Ok a) -> bind c k st = k a st1.
Proof. intros H. unfold bind. rewrite H. reflexivity. Qed.

Lemma bind_throw {A B} (c : M A) (k : A -> M B) st st1 e :
  c st = (st1, Throw e) -> bind c k st = (st1, Throw e).
Proof. intros H. unfold bind. rewrite H. reflexivity. Qed.

Lemma bind_assoc {A B C} (c : M A) (k : A -> M B) (h : B -> M C) st :
  bind (bind c k) h st = bind c (fun a => bind (k a) h) st.
Proof. unfold bind. destruct (c st) as [st1 [a|e|]]; reflexivity. Qed.

Lemma bind_Ok_inv {A B} (c : M A) (k : A -> M B) st st' b :
  bind c k st = (st', Ok b) ->
  exists st1 a, c st = (st1, Ok a) /\ k a st1 = (st', Ok b).
Proof.
  unfold bind. destruct (c st) as [st1 [a|e|]]; intros H; [eauto|discriminate|discriminate].
Qed.

Lemma returns_ret {A} (a : A) : returns (ret a).
Proof. intros st. discriminate. Qed.

Lemma returns_throw {A} e : returns (@throw A e).
Proof. intros st. discriminate. Qed.

Lemma returns_bind_at {A B} (c : M A) (k : A -> M B) st :
  (c st).2 <> Diverge ->
  (forall st1 a, c st = (st1, Ok a) -> (k a st1).2 <> Diverge) ->
  (bind c k st).2 <> Diverge.
Proof.
  unfold bind. intros Hc Hk. destruct (c st) as [st1 [a|e|]]; simpl in *.
  - apply Hk. reflexivity.
  - discriminate.
  - contradiction.
Qed.

Lemma returns_bind {A B} (c : M A) (k : A -> M B) :
  returns c -> (forall a, returns (k a)) -> returns (bind c k).
Proof. intros Hc Hk st. apply returns_bind_at; [apply Hc|]. intros st1 a _. apply Hk. Qed.

Lemma returns_tryCatch {A} (c : M A) h :
  returns c -> (forall e, returns (h e)) -> returns (tryCatch c h).
Proof.
  intros Hc Hh st. unfold tryCatch. specialize (Hc st).
  destruct (c st) as [st1 [a|e|]]; simpl in *; [discriminate|apply Hh|contradiction].
Qed.

Section Preserved.

Variable R : St -> St -> Prop.
Hypothesis R_refl : forall st, R st st.
Hypothesis R_trans : forall a b c, R a b -> R b c -> R a c.

Lemma preserves_ret {A} (a : A) : preserves R (ret a).
Proof. intros st. apply R_refl. Qed.

Lemma preserves_throw {A} e : preserves R (@throw A e).
Proof. intros st. apply R_refl. Qed.

Lemma preserves_diverge {A} : preserves R (@diverge A).
Proof. intros st. apply R_refl. Qed.

Lemma preserves_dateNow : preserves R dateNow.
Proof. intros st. apply R_refl. Qed.

Lemma preserves_bind {A B} (c : M A) (k : A -> M B) :
  preserves R c -> (forall a, preserves R (k a)) -> preserves R (bind c k).
Proof.
  intros Hc Hk st. unfold bind. specialize (Hc st).
  destruct (c st) as [st1 [a|e|]]; simpl in *; [|exact Hc|exact Hc].
  eapply R_trans; [exact Hc|apply Hk].
Qed.

Lemma preserves_tryCatch {A} (c : M A) h :
  preserves R c -> (forall e, preserves R (h e)) -> preserves R (tryCatch c h).
Proof.
  intros Hc Hh st. unfold tryCatch. specialize (Hc st).
  destruct (c st) as [st1 [a|e|]]; simpl in *; [exact Hc| |exact Hc].
  eapply R_trans; [exact Hc|apply Hh].
Qed.

(** What follows from the steps that only read the page. *)
Variable w : World.
Hypothesis R_tick : preserves R (tick w).
Hypothesis R_wait : forall ms, preserves R (wait w ms).

Lemma preserves_await {A} (o : nat -> settled A) : preserves R (await w o).
Proof.
  apply preserves_bind; [exact R_tick|]. intros k.
  destruct (o k); [apply preserves_ret|apply preserves_throw].
Qed.

Lemma preserves_hasResponse : preserves R (hasResponse w).
Proof. apply preserves_bind; [apply preserves_await|]. intros el. apply preserves_ret. Qed.

Lemma preserves_evalAttribute a : preserves R (evalAttribute w a).
Proof.
  apply preserves_bind; [apply preserves_await|].
  intros [sig|]; [apply preserves_ret|apply preserves_throw].
Qed.

Lemma preserves_keepAlive n : preserves R (keepAlive w n).
Proof.
  unfold keepAlive. destruct (n mod 5 =? 0)%nat; [|apply preserves_ret].
  apply preserves_tryCatch; [apply preserves_await|]. intros e. apply preserves_ret.
Qed.

Lemma preserves_pollLoop config t0 fuel : forall attempt,
  preserves R (pollLoop w config t0 fuel attempt).
Proof.
  induction fuel as [|fuel IH]; intros attempt; simpl;
    (apply preserves_bind; [apply preserves_dateNow|]); intros t;
    destruct (t - t0 <? maxWaitMs config); try apply preserves_ret.
  - apply preserves_diverge.
  - apply preserves_bind; [apply preserves_hasResponse|]. intros [|]; [apply preserves_ret|].
    apply preserves_bind; [apply R_wait|]. intros _.
    apply preserves_bind; [apply preserves_keepAlive|]. intros _. apply IH.
Qed.

Lemma preserves_stabilizeAndPoll config : preserves R (stabilizeAndPoll w config).
Proof.
  unfold stabilizeAndPoll.
  apply preserves_bind; [apply preserves_await|]. intros _.
  apply preserves_bind; [apply R_wait|]. intros _.
  apply preserves_bind; [apply R_wait|]. intros _.
  apply preserves_bind; [apply preserves_dateNow|]. intros t0.
  apply preserves_bind; [apply preserves_pollLoop|]. intros ready. apply preserves_ret.
Qed.

End Preserved.

Lemma clock_refl st : clock st st.
Proof. unfold clock. lia. Qed.

Lemma clock_trans a b c : clock a b -> clock b c -> clock a c.
Proof. unfold clock. lia. Qed.

Lemma sameFs_refl st : sameFs st st.
Proof. reflexivity. Qed.

Lemma sameFs_trans a b c : sameFs a b -> sameFs b c -> sameFs a c.
Proof. unfold sameFs. congruence. Qed.

Lemma timerDelay_set ms : 1 <= ms <= 2147483647 -> timerDelay ms = ms.
Proof.
  intros [H1 H2]. unfold timerDelay.
  apply Z.leb_le in H1, H2. rewrite H1, H2. reflexivity.
Qed.

Lemma timerDelay_ge ms : 1 <= timerDelay ms.
Proof.
  unfold timerDelay. destruct (Z.leb 1 ms) eqn:E; simpl; [|lia].
  apply Z.leb_le in E. destruct (Z.leb ms 2147483647); lia.
Qed.

Lemma clock_tick w : preserves clock (tick w).
Proof. intros st. unfold clock. simpl. lia. Qed.

Lemma clock_wait w ms : preserves clock (wait w ms).
Proof. intros st. unfold clock. simpl. pose proof (timerDelay_ge ms). lia. Qed.

Lemma sameFs_tick w : preserves sameFs (tick w).
Proof. intros st. reflexivity. Qed.

Lemma sameFs_wait w ms : preserves sameFs (wait w ms).
Proof. intros st. reflexivity. Qed.

Lemma returns_tick w : returns (tick w).
Proof. intros st. discriminate. Qed.

Lemma returns_wait w ms : returns (wait w ms).
Proof. intros st. discriminate. Qed.

Lemma returns_await {A} w (o : nat -> settled A) : returns (await w o).
Proof.
  apply returns_bind; [apply returns_tick|]. intros k.
  destruct (o k); [apply returns_ret|apply returns_throw].
Qed.

Lemma returns_hasResponse w : returns (hasResponse w).
Proof. apply returns_bind; [apply returns_await|]. intros el. apply returns_ret. Qed.

Lemma returns_evalAttribute w a : returns (evalAttribute w a).
Proof.
  apply returns_bind; [apply returns_await|]. intros [sig|]; [apply returns_ret|apply returns_throw].
Qed.

Lemma returns_keepAlive w n : returns (keepAlive w n).
Proof.
  unfold keepAlive. destruct (n mod 5 =? 0)%nat; [|apply returns_ret].
  apply returns_tryCatch; [apply returns_await|]. intros e. apply returns_ret.
Qed.

(** *** The polling loop *)

Lemma backoff_ge attempt : 100 <= backoff attempt.
Proof.
  unfold backoff. apply Z.min_glb; [|lia].
  assert (1 <= 2 ^ Z.of_nat attempt) by (apply Z.pow_le_mono_r with (b := 0); lia).
  lia.
Qed.

Lemma timerDelay_backoff attempt : timerDelay (backoff attempt) = backoff attempt.
Proof.
  apply timerDelay_set. pose proof (backoff_ge attempt). unfold backoff in *. lia.
Qed.

Lemma pollLoop_eq w config t0 fuel attempt st :
  pollLoop w config t0 fuel attempt st =
  if now st - t0 <? maxWaitMs config then
    match fuel with
    | O => (st, Diverge)
    | S fuel' =>
        bind (hasResponse w) (fun found =>
          if found then ret true
          else wait w (backoff attempt) ;;; keepAlive w (S attempt) ;;;
               pollLoop w config t0 fuel' (S attempt)) st
    end
  else (st, Ok false).
Proof.
  destruct fuel; simpl; unfold bind at 1, dateNow; simpl;
    destruct (now st - t0 <? maxWaitMs config); reflexivity.
Qed.

Lemma wait_eq w ms st :
  wait w ms st =
  ({| now := now st + timerDelay ms + Z.of_N (lag w (ticks st)); ticks := S (ticks st);
      fs := fs st |}, Ok tt).
Proof. reflexivity. Qed.

(** With a bound of one iteration per 100 ms left on the clock, the loop
    ends. *)
Lemma pollLoop_returns w config t0 fuel : forall attempt st,
  maxWaitMs config - (now st - t0) <= 100 * Z.of_nat fuel ->
  (pollLoop w config t0 fuel attempt st).2 <> Diverge.
Proof.
  induction fuel as [|fuel IH]; intros attempt st Hfuel; rewrite pollLoop_eq;
    destruct (now st - t0 <? maxWaitMs config) eqn:Hlt; try discriminate.
  - apply Z.ltb_lt in Hlt. lia.
  - apply returns_bind_at; [apply returns_hasResponse|].
    intros st1 found H1. destruct found; [discriminate|].
    pose proof (preserves_hasResponse clock clock_refl clock_trans w (clock_tick w) st) as Hc1.
    rewrite H1 in Hc1. unfold clock in Hc1. simpl in Hc1.
    apply returns_bind_at; [apply returns_wait|]. intros st2 [] H2.
    rewrite wait_eq in H2. injection H2 as <-.
    apply returns_bind_at; [apply returns_keepAlive|]. intros st3 [] H3.
    pose proof (preserves_keepAlive clock clock_refl clock_trans w (clock_tick w) (S attempt)
                  {| now := now st1 + timerDelay (backoff attempt) + Z.of_N (lag w (ticks st1));
                     ticks := S (ticks st1); fs := fs st1 |}) as Hc3.
    rewrite H3 in Hc3. unfold clock in Hc3. simpl in Hc3.
    apply IH. pose proof (backoff_ge attempt). rewrite timerDelay_backoff in Hc3. lia.
Qed.

Lemma pollFuel_enough config : maxWaitMs config <= 100 * Z.of_nat (pollFuel config).
Proof.
  unfold pollFuel. destruct (Z_le_gt_dec (maxWaitMs config) 0) as [Hle|Hgt]; [lia|].
  rewrite Nat2Z.inj_succ, Z2Nat.id by (apply Z.div_pos; lia).
  pose proof (Z.mod_pos_bound (maxWaitMs config) 100 ltac:(lia)).
  pose proof (Z.div_mod (maxWaitMs config) 100 ltac:(lia)). lia.
Qed.

Lemma stabilizeAndPoll_returns w config : returns (stabilizeAndPoll w config).
Proof.
  intros st. unfold stabilizeAndPoll.
  apply returns_bind_at; [apply returns_await|]. intros st1 _ _.
  apply returns_bind_at; [apply returns_wait|]. intros st2 _ _.
  apply returns_bind_at; [apply returns_wait|]. intros st3 _ _.
  apply returns_bind_at; [discriminate|]. intros st4 t0 H4. injection H4 as <- <-.
  apply returns_bind_at; [|intros; discriminate].
  apply pollLoop_returns. pose proof (pollFuel_enough config). lia.
Qed.

(** The loop gives up only when the time is up. *)
Lemma pollLoop_gives_up w config t0 fuel : forall attempt st st1,
  pollLoop w config t0 fuel attempt st = (st1, Ok false) ->
  maxWaitMs config <= now st1 - t0.
Proof.
  induction fuel as [|fuel IH]; intros attempt st st1; rewrite pollLoop_eq;
    destruct (now st - t0 <? maxWaitMs config) eqn:Hlt; intros H;
    try (injection H as <-; apply Z.ltb_ge in Hlt; exact Hlt); try discriminate.
  apply bind_Ok_inv in H as (sa & found & _ & H). destruct found; [discriminate|].
  apply bind_Ok_inv in H as (sb & [] & _ & H).
  apply bind_Ok_inv in H as (sc & [] & _ & H).
  eapply IH, H.
Qed.

(** The loop reports a signal only after a query found one. *)
Lemma pollLoop_found w config t0 fuel : forall attempt st st1,
  pollLoop w config t0 fuel attempt st = (st1, Ok true) ->
  exists st0, hasResponse w st0 = (st1, Ok true).
Proof.
  induction fuel as [|fuel IH]; intros attempt st st1; rewrite pollLoop_eq;
    destruct (now st - t0 <? maxWaitMs config) eqn:Hlt; intros H; try discriminate.
  apply bind_Ok_inv in H as (sa & found & Ha & H). destruct found.
  - injection H as <-. eauto.
  - apply bind_Ok_inv in H as (sb & [] & _ & H).
    apply bind_Ok_inv in H as (sc & [] & _ & H).
    eapply IH, H.
Qed.

(** *** The steps, one by one *)

Lemma await_eq {A} w (o : nat -> settled A) st :
  await w o st =
  (after w st, match o (ticks st) with Resolves a => Ok a | Rejects why => Throw (Rejection why) end).
Proof. unfold await, bind, after. simpl. destruct (o (ticks st)); reflexivity. Qed.

Lemma hasResponse_eq w st :
  hasResponse w st =
  (after w st,
   match dom w (ticks st) with
   | Resolves (Some sig) =>
       Ok (bool_decide (is_Some (dataUrl sig)) || bool_decide (is_Some (dataError sig)))
   | Resolves None => Ok false
   | Rejects why => Throw (Rejection why)
   end).
Proof.
  unfold hasResponse, bind. rewrite await_eq.
  destruct (dom w (ticks st)) as [[sig|]|why]; reflexivity.
Qed.

Lemma evalAttribute_eq w a st :
  evalAttribute w a st =
  (after w st,
   match dom w (ticks st) with
   | Resolves (Some sig) => Ok (a sig)
   | Resolves None => Throw (Rejection "failed to find element matching selector")
   | Rejects why => Throw (Rejection why)
   end).
Proof.
  unfold evalAttribute, bind. rewrite await_eq.
  destruct (dom w (ticks st)) as [[sig|]|why]; reflexivity.
Qed.

Lemma keepAlive_ok w n st : exists st', keepAlive w n st = (st', Ok tt).
Proof.
  unfold keepAlive. destruct (n mod 5 =? 0)%nat; [|eexists; reflexivity].
  unfold tryCatch. rewrite await_eq. destruct (mouseMove w (ticks st)) as [[]|why];
    eexists; reflexivity.
Qed.

(** *** The timeout branch *)

Lemma onTimeout_eq w config imageId t0 st :
  onTimeout w config imageId t0 st =
  (after w st,
   Throw (CanvasTimeoutError imageId (now (after w st) - t0) (maxWaitMs config)
            (lastError w (ticks st)))).
Proof.
  unfold onTimeout, bind at 1, tryCatch, lastError. rewrite evalAttribute_eq.
  destruct (dom w (ticks st)) as [[sig|]|why]; simpl;
    try destruct (Js.truthy (dataError sig)); reflexivity.
Qed.

(** In a quiet world the loop gives up. *)
Lemma pollLoop_quiet w config t0 fuel : forall attempt st,
  (forall k, quiet (dom w k) = true) ->
  maxWaitMs config - (now st - t0) <= 100 * Z.of_nat fuel ->
  exists st1, pollLoop w config t0 fuel attempt st = (st1, Ok false).
Proof.
  induction fuel as [|fuel IH]; intros attempt st Hq Hfuel; rewrite pollLoop_eq;
    destruct (now st - t0 <? maxWaitMs config) eqn:Hlt; try (eexists; reflexivity).
  - apply Z.ltb_lt in Hlt. lia.
  - unfold bind at 1. rewrite hasResponse_eq. specialize (Hq (ticks st)) as Hk.
    assert (match dom w (ticks st) with
            | Resolves (Some sig) =>
                Ok (bool_decide (is_Some (dataUrl sig)) || bool_decide (is_Some (dataError sig)))
            | Resolves None => Ok false
            | Rejects why => Throw (Rejection why)
            end = Ok false) as ->.
    { destruct (dom w (ticks st)) as [[sig|]|why]; simpl in Hk; [|reflexivity|discriminate].
      apply andb_true_iff in Hk as [H1 H2].
      apply negb_true_iff in H1, H2. rewrite H1, H2. reflexivity. }
    unfold bind at 1. rewrite wait_eq. unfold bind at 1.
    match goal with |- context [keepAlive w (S attempt) ?s] =>
      destruct (keepAlive_ok w (S attempt) s) as [st3 H3];
      pose proof (preserves_keepAlive clock clock_refl clock_trans w (clock_tick w)
                    (S attempt) s) as Hc3
    end.
    rewrite H3. rewrite H3 in Hc3. unfold clock in Hc3. simpl in Hc3.
    apply IH; [exact Hq|].
    pose proof (backoff_ge attempt). unfold after in Hc3. simpl in Hc3.
    rewrite timerDelay_backoff in Hc3. lia.
Qed.

(** The state in which polling starts: activation and the two waits done. *)
Lemma stabilizeAndPoll_eq w config st :
  bringToFront w = Resolves tt ->
  let s3 := (wait w (postResizeStabilizationMs config)
               (wait w (initialStabilizationMs config) (after w st)).1).1 in
  stabilizeAndPoll w config st =
  match pollLoop w config (now s3) (pollFuel config) 0 s3 with
  | (s4, Ok ready) => (s4, Ok (now s3, ready))
  | (s4, Throw e) => (s4, Throw e)
  | (s4, Diverge) => (s4, Diverge)
  end.
Proof.
  intros Hb s3. subst s3. unfold stabilizeAndPoll, bind, await, bind, dateNow, ret.
  cbn [tick wait fst snd now ticks fs after]. rewrite Hb.
  cbn [tick wait fst snd now ticks fs after].
  match goal with |- context [pollLoop ?a ?b ?c ?d ?n ?s] =>
    destruct (pollLoop a b c d n s) as [s4 [r|err|]]
  end; reflexivity.
Qed.

Lemma stabilizeAndPoll_quiet w config st :
  bringToFront w = Resolves tt -> (forall k, quiet (dom w k) = true) ->
  exists st1 t0, stabilizeAndPoll w config st = (st1, Ok (t0, false)).
Proof.
  intros Hb Hq. rewrite stabilizeAndPoll_eq by exact Hb. cbv zeta.
  match goal with |- context [pollLoop w config ?t ?f 0%nat ?s] =>
    destruct (pollLoop_quiet w config t f 0%nat s Hq) as [s4 H4]
  end.
  { pose proof (pollFuel_enough config). lia. }
  rewrite H4. eexists _, _. reflexivity.
Qed.

Lemma stabilizeAndPoll_inv w config st st1 t0 ready :
  stabilizeAndPoll w config st = (st1, Ok (t0, ready)) ->
  exists s3, pollLoop w config t0 (pollFuel config) 0 s3 = (st1, Ok ready) /\ t0 = now s3.
Proof.
  unfold stabilizeAndPoll. intros H.
  apply bind_Ok_inv in H as (s1 & [] & _ & H).
  apply bind_Ok_inv in H as (s2 & [] & _ & H).
  apply bind_Ok_inv in H as (s3 & [] & _ & H).
  apply bind_Ok_inv in H as (s3' & t & Ht & H). injection Ht as <- <-.
  apply bind_Ok_inv in H as (s4 & r & Hp & H). injection H as <- <- <-.
  exists s3. split; [exact Hp|reflexivity].
Qed.

(** [extractCanvasImage] is the body with its outcome folded. *)
Lemma extractCanvasImage_eq w config imageId outputDir mode metadata st :
  extractCanvasImage w config imageId outputDir mode metadata st =
  match extractBody w config imageId outputDir mode metadata st with
  | (s, Ok p) => (s, Ok (Some p))
  | (s, Throw _) => (s, Ok None)
  | (s, Diverge) => (s, Diverge)
  end.
Proof.
  unfold extractCanvasImage, tryCatch, bind.
  destruct (extractBody w config imageId outputDir mode metadata st) as [s [p|e|]]; reflexivity.
Qed.

(** *** Timeout *)

Lemma lastError_quiet w k : quiet (dom w k) = true -> lastError w k = None.
Proof.
  unfold quiet, lastError. destruct (dom w k) as [[sig|]|why]; try reflexivity.
  intros H. apply andb_true_iff in H as [_ H]. apply negb_true_iff, bool_decide_eq_false in H.
  destruct (dataError sig); [exfalso; apply H; eauto|reflexivity].
Qed.

(** C4.  When polling ends without a signal, the error attribute is read
    once more and the body of the [try] throws a [CanvasTimeoutError] with the
    elapsed time, which is at least the maximal wait, the maximal wait itself,
    and the error text just read when there is a non-empty one, [null]
    otherwise (also when the read fails); the files are untouched and the
    method returns [null].  In a world where the page never shows a signal
    polling does end so, and the error carries [null]. *)
Theorem poll_timeout_raises_TimeoutError w config imageId outputDir mode metadata st :
  (forall st1 t0,
     stabilizeAndPoll w config st = (st1, Ok (t0, false)) ->
     extractBody w config imageId outputDir mode metadata st =
       (after w st1,
        Throw (CanvasTimeoutError imageId (now (after w st1) - t0) (maxWaitMs config)
                 (lastError w (ticks st1))))
     /\ maxWaitMs config <= now (after w st1) - t0
     /\ ticks (after w st1) = S (ticks st1)
     /\ fs (after w st1) = fs st
     /\ extractCanvasImage w config imageId outputDir mode metadata st = (after w st1, Ok None))
  /\ (bringToFront w = Resolves tt ->
      (forall k, quiet (dom w k) = true) ->
      exists st2 elapsedMs,
        extractBody w config imageId outputDir mode metadata st =
          (st2, Throw (CanvasTimeoutError imageId elapsedMs (maxWaitMs config) None))
        /\ maxWaitMs config <= elapsedMs).
Proof.
  assert (forall st1 t0,
     stabilizeAndPoll w config st = (st1, Ok (t0, false)) ->
     extractBody w config imageId outputDir mode metadata st =
       (after w st1,
        Throw (CanvasTimeoutError imageId (now (after w st1) - t0) (maxWaitMs config)
                 (lastError w (ticks st1))))
     /\ maxWaitMs config <= now (after w st1) - t0) as Hmain.
  { intros st1 t0 H. split.
    - unfold extractBody. rewrite (bind_ok _ _ _ _ _ H). cbn [negb].
      apply bind_throw. apply onTimeout_eq.
    - apply stabilizeAndPoll_inv in H as (s3 & Hp & ->).
      apply pollLoop_gives_up in Hp. unfold after. simpl. lia. }
  split.
  - intros st1 t0 H. destruct (Hmain st1 t0 H) as [Hb Hel].
    split; [exact Hb|]. split; [exact Hel|]. split; [reflexivity|]. split.
    + pose proof (preserves_stabilizeAndPoll sameFs sameFs_refl sameFs_trans w
                    (sameFs_tick w) (sameFs_wait w) config st) as Hfs.
      rewrite H in Hfs. exact Hfs.
    + rewrite extractCanvasImage_eq, Hb. reflexivity.
  - intros Hfront Hq.
    destruct (stabilizeAndPoll_quiet w config st Hfront Hq) as (st1 & t0 & H).
    destruct (Hmain st1 t0 H) as [Hb Hel].
    rewrite (lastError_quiet w (ticks st1) (Hq _)) in Hb. eauto.
Qed.

(** [poll_timeout_raises_TimeoutError] in a world without a signal and a
    maximal wait of 2000 ms. *)
Lemma poll_timeout_raises_TimeoutError_witness :
  exists st2 elapsedMs,
    extractBody (sampleWorld (fun _ => None) (JpegWritten []) (None, None) (SpawnError ""))
      (sampleConfig 2000 5) "img" "/out" Thumbnail None st0 =
      (st2, Throw (CanvasTimeoutError "img" elapsedMs 2000 None))
    /\ 2000 <= elapsedMs.
Proof.
  destruct (poll_timeout_raises_TimeoutError
              (sampleWorld (fun _ => None) (JpegWritten []) (None, None) (SpawnError ""))
              (sampleConfig 2000 5) "img" "/out" Thumbnail None st0) as [_ H].
  apply H.
  - reflexivity.
  - intros k. reflexivity.
Defined.

(** *** Reading the signal *)

Lemma readSignal_eq w imageId t0 st1 sig1 sig2 :
  dom w (ticks st1) = Resolves (Some sig1) ->
  dom w (S (ticks st1)) = Resolves (Some sig2) ->
  let st3 := after w (after w st1) in
  let invalid := Throw (CanvasExtensionError imageId "No valid canvas data URL received"
                          (now st3 - t0)) in
  readSignal w imageId t0 st1 =
  (st3,
   match Js.truthy (dataError sig2) with
   | Some e => Throw (CanvasExtensionError imageId e (now st3 - t0))
   | None =>
       match Js.truthy (dataUrl sig1) with
       | Some url =>
           if Js.startsWith dataUrlPrefix url then
             match Js.split "," url !! 1%nat with
             | Some base64Data => Ok (base64 w base64Data)
             | None => Throw (Rejection "TypeError")
             end
           else invalid
       | None => invalid
       end
   end).
Proof.
  intros H1 H2 st3 invalid. unfold readSignal.
  unfold bind at 1. rewrite evalAttribute_eq, H1.
  unfold bind at 1. rewrite evalAttribute_eq.
  change (ticks (after w st1)) with (S (ticks st1)). rewrite H2.
  unfold bind, dateNow. fold st3.
  destruct (Js.truthy (dataError sig2)); [reflexivity|].
  destruct (Js.truthy (dataUrl sig1)) as [url|]; [|reflexivity].
  destruct (Js.startsWith dataUrlPrefix url); [|reflexivity].
  destruct (Js.split "," url !! 1%nat); reflexivity.
Qed.

Lemma truthy_Some s : s <> "" -> Js.truthy (Some s) = Some s.
Proof.
  intros H. unfold Js.truthy. destruct (String.eqb s "") eqn:E; [|reflexivity].
  apply String.eqb_eq in E. contradiction.
Qed.

Lemma stabilizeAndPoll_fs w config st st1 r :
  stabilizeAndPoll w config st = (st1, r) -> fs st1 = fs st.
Proof.
  intros H.
  pose proof (preserves_stabilizeAndPoll sameFs sameFs_refl sameFs_trans w
                (sameFs_tick w) (sameFs_wait w) config st) as Hfs.
  rewrite H in Hfs. exact Hfs.
Qed.

(** C3.  Polling has found the signal element and the two attribute reads
    see it.  A non-empty error attribute makes the body of the [try] throw a
    [CanvasExtensionError] with exactly that text, whatever the data
    attribute holds, and no file is written.  With no error text, a data
    attribute that is absent or does not start with
    ["data:image/png;base64,"] makes it throw a [CanvasExtensionError] with
    the message ["No valid canvas data URL received"], again with no file
    written.  In both cases the method returns [null]. *)
Theorem extension_error_wins w config imageId outputDir mode metadata st st1 t0 sig1 sig2 :
  stabilizeAndPoll w config st = (st1, Ok (t0, true)) ->
  dom w (ticks st1) = Resolves (Some sig1) ->
  dom w (S (ticks st1)) = Resolves (Some sig2) ->
  let st3 := after w (after w st1) in
  (forall e, dataError sig2 = Some e -> e <> "" ->
     extractBody w config imageId outputDir mode metadata st =
       (st3, Throw (CanvasExtensionError imageId e (now st3 - t0)))
     /\ fs st3 = fs st
     /\ extractCanvasImage w config imageId outputDir mode metadata st = (st3, Ok None))
  /\ (Js.truthy (dataError sig2) = None ->
      (dataUrl sig1 = None \/
       exists url, dataUrl sig1 = Some url /\ Js.startsWith dataUrlPrefix url = false) ->
      extractBody w config imageId outputDir mode metadata st =
        (st3, Throw (CanvasExtensionError imageId "No valid canvas data URL received"
                       (now st3 - t0)))
      /\ fs st3 = fs st
      /\ extractCanvasImage w config imageId outputDir mode metadata st = (st3, Ok None)).
Proof.
  intros Hpoll H1 H2 st3.
  assert (fs st3 = fs st) as Hfs by (apply (stabilizeAndPoll_fs _ _ _ _ _ Hpoll)).
  assert (forall err,
    readSignal w imageId t0 st1 = (st3, Throw err) ->
    extractBody w config imageId outputDir mode metadata st = (st3, Throw err)
    /\ fs st3 = fs st
    /\ extractCanvasImage w config imageId outputDir mode metadata st = (st3, Ok None)) as Hthrow.
  { intros err Hr.
    assert (extractBody w config imageId outputDir mode metadata st = (st3, Throw err)) as Hb.
    { unfold extractBody. rewrite (bind_ok _ _ _ _ _ Hpoll). cbn [negb].
      rewrite (bind_ok _ _ st1 st1 tt eq_refl). apply bind_throw. exact Hr. }
    split; [exact Hb|]. split; [exact Hfs|].
    rewrite extractCanvasImage_eq, Hb. reflexivity. }
  split.
  - intros e He Hne. apply Hthrow.
    rewrite (readSignal_eq w imageId t0 st1 sig1 sig2 H1 H2). cbv zeta. fold st3.
    rewrite He, (truthy_Some e Hne). reflexivity.
  - intros Hnoerr Hdata. apply Hthrow.
    rewrite (readSignal_eq w imageId t0 st1 sig1 sig2 H1 H2). cbv zeta. fold st3.
    rewrite Hnoerr. destruct Hdata as [Hnone|(url & Hurl & Hpre)].
    + rewrite Hnone. reflexivity.
    + rewrite Hurl. unfold Js.truthy. destruct (String.eqb url ""); [reflexivity|].
      rewrite Hpre. reflexivity.
Qed.

(** [extension_error_wins] where the signal carries both a payload and the
    error text ["canvas tainted"]. *)
Lemma extension_error_wins_witness :
  extractCanvasImage (sampleWorld (later failure) (JpegWritten []) (None, None) (SpawnError ""))
    (sampleConfig 2000 5) "img" "/out" Full None st0
  = ({| now := 1840; ticks := 10; fs := ∅ |}, Ok None)
  /\ extractBody (sampleWorld (later failure) (JpegWritten []) (None, None) (SpawnError ""))
       (sampleConfig 2000 5) "img" "/out" Full None st0
     = ({| now := 1840; ticks := 10; fs := ∅ |},
        Throw (CanvasExtensionError "img" "canvas tainted" 321)).
Proof.
  destruct (extension_error_wins
              (sampleWorld (later failure) (JpegWritten []) (None, None) (SpawnError ""))
              (sampleConfig 2000 5) "img" "/out" Full None st0
              {| now := 1834; ticks := 8; fs := ∅ |} 1519
              {| dataUrl := Some "data:image/png;base64,iVBORw0KGgo=";
                 dataError := Some "canvas tainted" |}
              {| dataUrl := Some "data:image/png;base64,iVBORw0KGgo=";
                 dataError := Some "canvas tainted" |}) as [H _].
  - vm_compute. reflexivity.
  - reflexivity.
  - reflexivity.
  - destruct (H "canvas tainted" eq_refl) as (Hb & _ & Hc); [discriminate|].
    split; [exact Hc|exact Hb].
Defined.

(** *** No step runs for ever *)

Lemma returns_state {A} (f : St -> St * result A) :
  (forall st, (f st).2 <> Diverge) -> returns f.
Proof. intros H st. apply H. Qed.

Lemma returns_writeFileSync w p b : returns (writeFileSync w p b).
Proof.
  apply returns_bind; [apply returns_tick|]. intros _.
  destruct (writable w p); [|apply returns_throw]. intros st. discriminate.
Qed.

Lemma returns_unlinkSync w p : returns (unlinkSync w p).
Proof.
  apply returns_bind; [apply returns_tick|]. intros _ st.
  destruct (fs st !! p); [|discriminate]. destruct (deletable w p); discriminate.
Qed.

Lemma returns_statSize w p : returns (statSize w p).
Proof.
  apply returns_bind; [apply returns_tick|]. intros _ st.
  destruct (fs st !! p); [|discriminate]. destruct (statable w p); discriminate.
Qed.

Lemma returns_toFile w buf q p : returns (toFile w buf q p).
Proof.
  apply returns_bind; [apply returns_tick|]. intros _.
  destruct (transcode w buf q) as [jpg|why partial]; intros st; discriminate.
Qed.

Lemma returns_dimensions w p : returns (dimensions w p).
Proof.
  apply returns_bind; [apply returns_tick|]. intros _ st.
  destruct (fs st !! p) as [b|]; [|discriminate].
  destruct (imageInfo w b) as [[wd ht]|why]; discriminate.
Qed.

Lemma returns_embedExifMetadata w p md : returns (embedExifMetadata w p md).
Proof.
  apply returns_bind; [apply returns_tick|]. intros _.
  destruct (exiftool w (exifArgs p md)) as [code rw|msg|why];
    [|apply returns_ret|apply returns_throw].
  apply returns_bind; [intros st; discriminate|].
  intros _. destruct code as [[| |]|]; apply returns_ret.
Qed.

Lemma returns_onTimeout w config imageId t0 : returns (onTimeout w config imageId t0).
Proof. intros st. rewrite onTimeout_eq. discriminate. Qed.

Lemma returns_readSignal w imageId t0 : returns (readSignal w imageId t0).
Proof.
  unfold readSignal.
  apply returns_bind; [apply returns_evalAttribute|]. intros url.
  apply returns_bind; [apply returns_evalAttribute|]. intros err.
  apply returns_bind; [intros st; discriminate|]. intros t.
  destruct (Js.truthy err); [apply returns_throw|].
  destruct (Js.truthy url) as [u|]; [|apply returns_throw].
  destruct (Js.startsWith dataUrlPrefix u); [|apply returns_throw].
  destruct (Js.split "," u !! 1%nat); [apply returns_ret|apply returns_throw].
Qed.

Lemma returns_saveAndTranscode w config outputDir imageId mode buf :
  returns (saveAndTranscode w config imageId outputDir mode buf).
Proof.
  unfold saveAndTranscode.
  apply returns_bind; [apply returns_writeFileSync|]. intros _.
  apply returns_bind; [apply returns_toFile|]. intros _. apply returns_unlinkSync.
Qed.

Lemma returns_validate w config imageId outputDir mode t0 :
  returns (validate w config imageId outputDir mode t0).
Proof.
  unfold validate.
  apply returns_bind; [apply returns_statSize|]. intros size.
  apply returns_bind.
  - destruct (size <? minFileSize config); [|apply returns_ret].
    apply returns_bind; [apply returns_unlinkSync|]. intros _.
    apply returns_bind; [intros st; discriminate|]. intros t. apply returns_throw.
  - intros _. apply returns_bind; [apply returns_dimensions|]. intros [width height].
    destruct ((width <? minDimensions config) || (height <? minDimensions config));
      [|apply returns_ret].
    apply returns_bind; [apply returns_unlinkSync|]. intros _.
    apply returns_bind; [intros st; discriminate|]. intros t. apply returns_throw.
Qed.

Lemma returns_extractBody w config imageId outputDir mode metadata :
  returns (extractBody w config imageId outputDir mode metadata).
Proof.
  unfold extractBody.
  apply returns_bind; [apply stabilizeAndPoll_returns|]. intros [t0 ready].
  apply returns_bind; [destruct ready; [apply returns_ret|apply returns_onTimeout]|]. intros _.
  apply returns_bind; [apply returns_readSignal|]. intros buf.
  apply returns_bind; [apply returns_saveAndTranscode|]. intros _.
  apply returns_bind; [apply returns_validate|]. intros _.
  apply returns_bind; [|intros _; apply returns_ret].
  unfold embedIfProvided. destruct metadata; [apply returns_embedExifMetadata|apply returns_ret].
Qed.

Lemma extractBody_path w config imageId outputDir mode metadata st st' p :
  extractBody w config imageId outputDir mode metadata st = (st', Ok p) ->
  p = jpgPath w imageId outputDir mode.
Proof.
  unfold extractBody. intros H.
  apply bind_Ok_inv in H as (s1 & [t0 ready] & _ & H).
  apply bind_Ok_inv in H as (s2 & [] & _ & H).
  apply bind_Ok_inv in H as (s3 & buf & _ & H).
  apply bind_Ok_inv in H as (s4 & [] & _ & H).
  apply bind_Ok_inv in H as (s5 & [] & _ & H).
  apply bind_Ok_inv in H as (s6 & [] & _ & H).
  injection H as _ <-. reflexivity.
Qed.

(** C2.  Whatever the page, the file system, sharp and exiftool do, and
    whatever the arguments and the configuration are, [extractCanvasImage]
    returns: when the body of its [try] throws, whichever failure it is, the
    method returns [null] in the state the failure left; when the body runs to
    its end the method returns the path of the JPEG.  The polling loop never
    exhausts the bound of the model. *)
Theorem extractCanvasImage_never_throws w config imageId outputDir mode metadata st :
  match extractBody w config imageId outputDir mode metadata st with
  | (st', Ok p) =>
      p = jpgPath w imageId outputDir mode /\
      extractCanvasImage w config imageId outputDir mode metadata st = (st', Ok (Some p))
  | (st', Throw _) =>
      extractCanvasImage w config imageId outputDir mode metadata st = (st', Ok None)
  | (_, Diverge) => False
  end.
Proof.
  rewrite extractCanvasImage_eq.
  pose proof (returns_extractBody w config imageId outputDir mode metadata st) as Hr.
  pose proof (extractBody_path w config imageId outputDir mode metadata st) as Hp.
  destruct (extractBody w config imageId outputDir mode metadata st) as [st' [p|e|]].
  - split; [eapply Hp; reflexivity|reflexivity].
  - reflexivity.
  - apply Hr. reflexivity.
Qed.

(** *** The files *)

Lemma append_inj_l (p a b : string) : p +:+ a = p +:+ b -> a = b.
Proof. induction p as [|c p IH]; simpl; [auto|]. intros H. injection H as H. auto. Qed.

Lemma png_not_jpg w imageId outputDir mode :
  pngPath w imageId outputDir mode <> jpgPath w imageId outputDir mode.
Proof.
  unfold pngPath, jpgPath, pngFilename, jpgFilename. intros H.
  do 3 apply append_inj_l in H. destruct mode; apply append_inj_l in H; discriminate.
Qed.

Lemma writeFileSync_eq w p b st :
  writeFileSync w p b st =
  if writable w p then (setFs (<[p := b]> (fs st)) (after w st), Ok tt)
  else (after w st, Throw (Rejection "EACCES")).
Proof. unfold writeFileSync, bind. simpl. destruct (writable w p); reflexivity. Qed.

Lemma toFile_eq w buf q p st :
  toFile w buf q p st =
  match transcode w buf q with
  | JpegWritten jpg => (setFs (<[p := jpg]> (fs st)) (after w st), Ok tt)
  | TranscodeFails why partial =>
      (match partial with
       | Some b => setFs (<[p := b]> (fs st)) (after w st)
       | None => after w st
       end, Throw (Rejection why))
  end.
Proof.
  unfold toFile, bind. simpl. destruct (transcode w buf q) as [jpg|why [b|]]; reflexivity.
Qed.

Lemma unlinkSync_eq w p st :
  unlinkSync w p st =
  match fs st !! p with
  | Some _ =>
      if deletable w p then (setFs (delete p (fs st)) (after w st), Ok tt)
      else (after w st, Throw (Rejection "EPERM"))
  | None => (after w st, Throw (Rejection "ENOENT"))
  end.
Proof.
  unfold unlinkSync, bind. simpl. destruct (fs st !! p); [|reflexivity].
  destruct (deletable w p); reflexivity.
Qed.

Lemma statSize_eq w p st :
  statSize w p st =
  match fs st !! p with
  | Some b =>
      if statable w p then (after w st, Ok (Z.of_nat (length b)))
      else (after w st, Throw (Rejection "EACCES"))
  | None => (after w st, Throw (Rejection "ENOENT"))
  end.
Proof.
  unfold statSize, bind. simpl. destruct (fs st !! p); [|reflexivity].
  destruct (statable w p); reflexivity.
Qed.

Lemma dimensions_eq w p st :
  dimensions w p st =
  match fs st !! p with
  | Some b =>
      match imageInfo w b with
      | Resolves (width, height) => (after w st, Ok (orElse width 0, orElse height 0))
      | Rejects why => (after w st, Throw (Rejection why))
      end
  | None => (after w st, Throw (Rejection "Input file is missing"))
  end.
Proof.
  unfold dimensions, bind. simpl. destruct (fs st !! p) as [b|]; [|reflexivity].
  destruct (imageInfo w b) as [[wd ht]|why]; reflexivity.
Qed.

(** The body of the [try], cut after the payload and after the JPEG. *)
Lemma extractBody_decoded w config imageId outputDir mode metadata st :
  extractBody w config imageId outputDir mode metadata st =
  bind (decoded w config imageId)
    (fun '(t0, buf) =>
       saveAndTranscode w config imageId outputDir mode buf ;;;
       validate w config imageId outputDir mode t0 ;;;
       embedIfProvided w imageId outputDir mode metadata ;;;
       ret (jpgPath w imageId outputDir mode)) st.
Proof.
  unfold extractBody, decoded, bind.
  destruct (stabilizeAndPoll w config st) as [s1 [[t0 ready]|e|]]; try reflexivity.
  destruct ((if negb ready then onTimeout w config imageId t0 else ret ()) s1)
    as [s2 [[]|e|]]; try reflexivity.
  destruct (readSignal w imageId t0 s2) as [s3 [buf|e|]]; reflexivity.
Qed.

Lemma extractBody_captured w config imageId outputDir mode metadata st :
  extractBody w config imageId outputDir mode metadata st =
  bind (captured w config imageId outputDir mode)
    (fun t0 =>
       validate w config imageId outputDir mode t0 ;;;
       embedIfProvided w imageId outputDir mode metadata ;;;
       ret (jpgPath w imageId outputDir mode)) st.
Proof.
  rewrite extractBody_decoded. unfold captured, bind.
  destruct (decoded w config imageId st) as [s1 [[t0 buf]|e|]]; try reflexivity.
  destruct (saveAndTranscode w config imageId outputDir mode buf s1) as [s2 [[]|e|]];
    reflexivity.
Qed.

(** What [saveAndTranscode] leaves on disk. *)
Lemma saveAndTranscode_eq w config imageId outputDir mode buf st :
  writable w (pngPath w imageId outputDir mode) = true ->
  let png := pngPath w imageId outputDir mode in
  let jpg := jpgPath w imageId outputDir mode in
  let s1 := setFs (<[png := buf]> (fs st)) (after w st) in
  saveAndTranscode w config imageId outputDir mode buf st =
  match transcode w buf (jpgQualityFor config mode) with
  | JpegWritten j =>
      if deletable w png then
        (setFs (delete png (<[jpg := j]> (<[png := buf]> (fs st)))) (after w (after w s1)),
         Ok tt)
      else
        (setFs (<[jpg := j]> (<[png := buf]> (fs st))) (after w (after w s1)),
         Throw (Rejection "EPERM"))
  | TranscodeFails why partial =>
      (match partial with
       | Some b => setFs (<[jpg := b]> (<[png := buf]> (fs st))) (after w s1)
       | None => after w s1
       end, Throw (Rejection why))
  end.
Proof.
  intros Hw png jpg s1. subst png jpg s1. unfold saveAndTranscode.
  unfold bind at 1. rewrite writeFileSync_eq, Hw.
  unfold bind at 1. rewrite toFile_eq.
  destruct (transcode w buf (jpgQualityFor config mode)) as [j|why [b|]]; try reflexivity.
  rewrite unlinkSync_eq. cbn [fs setFs after tick fst].
  rewrite lookup_insert_ne by (apply not_eq_sym, png_not_jpg).
  rewrite lookup_insert_eq.
  destruct (deletable w (pngPath w imageId outputDir mode)); reflexivity.
Qed.

Lemma saveAndTranscode_ok w config imageId outputDir mode buf st st1 :
  saveAndTranscode w config imageId outputDir mode buf st = (st1, Ok tt) ->
  exists j, transcode w buf (jpgQualityFor config mode) = JpegWritten j /\
            fs st1 !! jpgPath w imageId outputDir mode = Some j /\
            fs st1 !! pngPath w imageId outputDir mode = None.
Proof.
  intros H.
  destruct (writable w (pngPath w imageId outputDir mode)) eqn:Hw.
  - rewrite (saveAndTranscode_eq _ _ _ _ _ _ _ Hw) in H. cbv zeta in H.
    destruct (transcode w buf (jpgQualityFor config mode)) as [j|why partial];
      [|discriminate].
    destruct (deletable w (pngPath w imageId outputDir mode)); [|discriminate].
    injection H as <-. exists j. split; [reflexivity|]. cbn [fs setFs]. split.
    + rewrite lookup_delete_ne by apply png_not_jpg. apply lookup_insert_eq.
    + apply lookup_delete_eq.
  - unfold saveAndTranscode in H. unfold bind at 1 in H.
    rewrite writeFileSync_eq, Hw in H. discriminate.
Qed.

Lemma captured_jpeg w config imageId outputDir mode st st1 t0 :
  captured w config imageId outputDir mode st = (st1, Ok t0) ->
  exists j, fs st1 !! jpgPath w imageId outputDir mode = Some j /\
            fs st1 !! pngPath w imageId outputDir mode = None.
Proof.
  unfold captured. intros H.
  apply bind_Ok_inv in H as (s1 & [t buf] & _ & H).
  apply bind_Ok_inv in H as (s2 & [] & Hs & H). injection H as <- <-.
  apply saveAndTranscode_ok in Hs as (j & _ & Hj & Hp). eauto.
Qed.

(** *** Validation *)

Section Validate.

Variables (w : World) (config : option ScraperConfig) (imageId outputDir : string).
Variables (mode : ViewportMode) (t0 : Z) (st1 : St) (j : bytes).

Hypothesis on_disk : fs st1 !! jpgPath w imageId outputDir mode = Some j.
Hypothesis can_stat : statable w (jpgPath w imageId outputDir mode) = true.

Lemma validate_size :
  Z.of_nat (length j) < minFileSize config ->
  deletable w (jpgPath w imageId outputDir mode) = true ->
  let st2 := setFs (delete (jpgPath w imageId outputDir mode) (fs st1)) (after w (after w st1)) in
  validate w config imageId outputDir mode t0 st1 =
  (st2, Throw (CanvasExtensionError imageId
                 (sizeMessage (Z.of_nat (length j)) (minFileSize config)) (now st2 - t0))).
Proof.
  intros Hsmall Hdel st2. unfold validate.
  unfold bind at 1. rewrite statSize_eq, on_disk, can_stat.
  apply Z.ltb_lt in Hsmall. rewrite Hsmall.
  unfold bind at 1. unfold bind at 1. rewrite unlinkSync_eq.
  cbn [fs after tick fst]. rewrite on_disk, Hdel. reflexivity.
Qed.

Lemma validate_size_kept :
  Z.of_nat (length j) < minFileSize config ->
  deletable w (jpgPath w imageId outputDir mode) = false ->
  validate w config imageId outputDir mode t0 st1 =
  (after w (after w st1), Throw (Rejection "EPERM")).
Proof.
  intros Hsmall Hdel. unfold validate.
  unfold bind at 1. rewrite statSize_eq, on_disk, can_stat.
  apply Z.ltb_lt in Hsmall. rewrite Hsmall.
  unfold bind at 1. unfold bind at 1. rewrite unlinkSync_eq.
  cbn [fs after tick fst]. rewrite on_disk, Hdel. reflexivity.
Qed.

Lemma validate_dimensions ow oh :
  minFileSize config <= Z.of_nat (length j) ->
  imageInfo w j = Resolves (ow, oh) ->
  orElse ow 0 < minDimensions config \/ orElse oh 0 < minDimensions config ->
  deletable w (jpgPath w imageId outputDir mode) = true ->
  let st2 := setFs (delete (jpgPath w imageId outputDir mode) (fs st1)) (after w (after w (after w st1))) in
  validate w config imageId outputDir mode t0 st1 =
  (st2, Throw (CanvasExtensionError imageId
                 (dimensionsMessage (orElse ow 0) (orElse oh 0) (minDimensions config))
                 (now st2 - t0))).
Proof.
  intros Hsize Hinfo Hdim Hdel st2. unfold validate.
  unfold bind at 1. rewrite statSize_eq, on_disk, can_stat.
  apply Z.ltb_ge in Hsize. rewrite Hsize.
  unfold bind at 1. cbn [ret]. unfold bind at 1. rewrite dimensions_eq.
  cbn [fs after tick fst]. rewrite on_disk, Hinfo.
  assert ((orElse ow 0 <? minDimensions config) || (orElse oh 0 <? minDimensions config) = true)
    as ->.
  { apply orb_true_iff. destruct Hdim as [H|H]; [left|right]; apply Z.ltb_lt, H. }
  unfold bind at 1. rewrite unlinkSync_eq. cbn [fs after tick fst]. rewrite on_disk, Hdel.
  reflexivity.
Qed.

Lemma validate_dimensions_kept ow oh :
  minFileSize config <= Z.of_nat (length j) ->
  imageInfo w j = Resolves (ow, oh) ->
  orElse ow 0 < minDimensions config \/ orElse oh 0 < minDimensions config ->
  deletable w (jpgPath w imageId outputDir mode) = false ->
  validate w config imageId outputDir mode t0 st1 =
  (after w (after w (after w st1)), Throw (Rejection "EPERM")).
Proof.
  intros Hsize Hinfo Hdim Hdel. unfold validate.
  unfold bind at 1. rewrite statSize_eq, on_disk, can_stat.
  apply Z.ltb_ge in Hsize. rewrite Hsize.
  unfold bind at 1. cbn [ret]. unfold bind at 1. rewrite dimensions_eq.
  cbn [fs after tick fst]. rewrite on_disk, Hinfo.
  assert ((orElse ow 0 <? minDimensions config) || (orElse oh 0 <? minDimensions config) = true)
    as ->.
  { apply orb_true_iff. destruct Hdim as [H|H]; [left|right]; apply Z.ltb_lt, H. }
  unfold bind at 1. rewrite unlinkSync_eq. cbn [fs after tick fst]. rewrite on_disk, Hdel.
  reflexivity.
Qed.

End Validate.

Lemma validate_ok_fs w config imageId outputDir mode t0 st1 st2 :
  validate w config imageId outputDir mode t0 st1 = (st2, Ok tt) -> fs st2 = fs st1.
Proof.
  unfold validate. intros H.
  apply bind_Ok_inv in H as (s1 & size & Hs & H).
  rewrite statSize_eq in Hs.
  destruct (fs st1 !! jpgPath w imageId outputDir mode) as [b|]; [|discriminate].
  destruct (statable w (jpgPath w imageId outputDir mode)); [|discriminate].
  injection Hs as <- <-.
  apply bind_Ok_inv in H as (s2 & [] & Hc & H).
  destruct (Z.of_nat (length b) <? minFileSize config).
  { apply bind_Ok_inv in Hc as (s3 & [] & _ & Hc).
    apply bind_Ok_inv in Hc as (s4 & t & _ & Hc). discriminate. }
  injection Hc as <-.
  apply bind_Ok_inv in H as (s3 & [width height] & Hd & H).
  rewrite dimensions_eq in Hd. cbn [fs after tick fst] in Hd.
  destruct (fs st1 !! jpgPath w imageId outputDir mode) as [b'|]; [|discriminate].
  destruct (imageInfo w b') as [[ow oh]|why]; [|discriminate].
  injection Hd as <- <- <-.
  destruct ((orElse ow 0 <? minDimensions config) || (orElse oh 0 <? minDimensions config)).
  { apply bind_Ok_inv in H as (s4 & [] & _ & H).
    apply bind_Ok_inv in H as (s5 & t & _ & H). discriminate. }
  injection H as <-. reflexivity.
Qed.

Lemma orElse_set z d : z <> 0 -> orElse (Some z) d = z.
Proof. intros Hz. unfold orElse. apply Z.eqb_neq in Hz. rewrite Hz. reflexivity. Qed.

(** C5, as amended.  A run that has written the JPEG, on a file system that
    lets the file be read: the file is on disk.  When its size is below the
    minimal size, [unlinkSync] is called on it and, where the deletion is
    carried out, the file is absent and the body of the [try] throws a
    [CanvasExtensionError] whose message reads [File validation failed: size
    N bytes is below minimum M bytes]; when the size passes and the width or
    the height that sharp reports (0 for a missing one) is below the minimal
    dimension, the same with the message [File validation failed:
    dimensions WxH are below minimum Dpx].  Where the deletion fails, the
    file stays and the error of the deletion is thrown in place of the
    [CanvasExtensionError].  The method returns [null] in every case.  The
    thresholds are the configured numbers, or 51200 bytes and 500 pixels when
    they are not configured or configured as 0. *)
Theorem invalid_file_is_deleted w config imageId outputDir mode metadata st st1 t0 :
  captured w config imageId outputDir mode st = (st1, Ok t0) ->
  let jpg := jpgPath w imageId outputDir mode in
  statable w jpg = true ->
  exists j, fs st1 !! jpg = Some j /\
  let size := Z.of_nat (length j) in
  (size < minFileSize config ->
     (deletable w jpg = true ->
        let st2 := setFs (delete jpg (fs st1)) (after w (after w st1)) in
        extractBody w config imageId outputDir mode metadata st =
          (st2, Throw (CanvasExtensionError imageId
                         ("File validation failed: size " +:+ Js.num size +:+
                          " bytes is below minimum " +:+ Js.num (minFileSize config) +:+
                          " bytes")
                         (now st2 - t0)))
        /\ fs st2 !! jpg = None
        /\ extractCanvasImage w config imageId outputDir mode metadata st = (st2, Ok None))
     /\ (deletable w jpg = false ->
         let st2 := after w (after w st1) in
         extractBody w config imageId outputDir mode metadata st
           = (st2, Throw (Rejection "EPERM"))
         /\ fs st2 !! jpg = Some j
         /\ extractCanvasImage w config imageId outputDir mode metadata st = (st2, Ok None)))
  /\ (forall ow oh,
       minFileSize config <= size ->
       imageInfo w j = Resolves (ow, oh) ->
       orElse ow 0 < minDimensions config \/ orElse oh 0 < minDimensions config ->
       (deletable w jpg = true ->
          let st2 := setFs (delete jpg (fs st1)) (after w (after w (after w st1))) in
          extractBody w config imageId outputDir mode metadata st =
            (st2, Throw (CanvasExtensionError imageId
                           ("File validation failed: dimensions " +:+ Js.num (orElse ow 0) +:+
                            "x" +:+ Js.num (orElse oh 0) +:+ " are below minimum " +:+
                            Js.num (minDimensions config) +:+ "px")
                           (now st2 - t0)))
          /\ fs st2 !! jpg = None
          /\ extractCanvasImage w config imageId outputDir mode metadata st = (st2, Ok None))
       /\ (deletable w jpg = false ->
           let st2 := after w (after w (after w st1)) in
           extractBody w config imageId outputDir mode metadata st
             = (st2, Throw (Rejection "EPERM"))
           /\ fs st2 !! jpg = Some j
           /\ extractCanvasImage w config imageId outputDir mode metadata st = (st2, Ok None)))
  /\ (forall z, z <> 0 -> cfgField config minValidFileSize = Some z -> minFileSize config = z)
  /\ (cfgField config minValidFileSize = None \/ cfgField config minValidFileSize = Some 0 ->
      minFileSize config = 51200)
  /\ (forall z, z <> 0 -> cfgField config minValidDimensions = Some z ->
        minDimensions config = z)
  /\ (cfgField config minValidDimensions = None \/ cfgField config minValidDimensions = Some 0 ->
      minDimensions config = 500).
Proof.
  intros Hcap jpg Hstat. destruct (captured_jpeg _ _ _ _ _ _ _ _ Hcap) as (j & Hj & _).
  exists j. split; [exact Hj|]. intros size.
  assert (forall st2 err,
    validate w config imageId outputDir mode t0 st1 = (st2, Throw err) ->
    extractBody w config imageId outputDir mode metadata st = (st2, Throw err) /\
    extractCanvasImage w config imageId outputDir mode metadata st = (st2, Ok None)) as Hthrow.
  { intros st2 err Hv.
    assert (extractBody w config imageId outputDir mode metadata st = (st2, Throw err)) as Hb.
    { rewrite extractBody_captured, (bind_ok _ _ _ _ _ Hcap). apply bind_throw, Hv. }
    split; [exact Hb|]. rewrite extractCanvasImage_eq, Hb. reflexivity. }
  split; [|split; [|split; [|split; [|split]]]].
  - intros Hsmall. split.
    + intros Hdel st2.
      destruct (Hthrow _ _ (validate_size w config imageId outputDir mode t0 st1 j Hj Hstat
                              Hsmall Hdel)) as [Hb Hc].
      split; [exact Hb|]. split; [apply lookup_delete_eq|exact Hc].
    + intros Hdel st2.
      destruct (Hthrow _ _ (validate_size_kept w config imageId outputDir mode t0 st1 j Hj
                              Hstat Hsmall Hdel)) as [Hb Hc].
      split; [exact Hb|]. split; [exact Hj|exact Hc].
  - intros ow oh Hsize Hinfo Hdim. split.
    + intros Hdel st2.
      destruct (Hthrow _ _ (validate_dimensions w config imageId outputDir mode t0 st1 j Hj
                              Hstat ow oh Hsize Hinfo Hdim Hdel)) as [Hb Hc].
      split; [exact Hb|]. split; [apply lookup_delete_eq|exact Hc].
    + intros Hdel st2.
      destruct (Hthrow _ _ (validate_dimensions_kept w config imageId outputDir mode t0 st1 j
                              Hj Hstat ow oh Hsize Hinfo Hdim Hdel)) as [Hb Hc].
      split; [exact Hb|]. split; [exact Hj|exact Hc].
  - intros z Hz H. unfold minFileSize. rewrite H. apply orElse_set, Hz.
  - intros [H|H]; unfold minFileSize; rewrite H; reflexivity.
  - intros z Hz H. unfold minDimensions. rewrite H. apply orElse_set, Hz.
  - intros [H|H]; unfold minDimensions; rewrite H; reflexivity.
Qed.

(** [invalid_file_is_deleted] for a JPEG of 4 bytes under a minimal size of
    5. *)
Lemma invalid_file_is_deleted_witness :
  exists st2 elapsedMs,
    extractBody
      (sampleWorld (later payload) (JpegWritten (jpegOf 4)) (Some 600, Some 600) (SpawnError ""))
      (sampleConfig 2000 5) "img" "/out" Full None st0
    = (st2, Throw (CanvasExtensionError "img"
                     "File validation failed: size 4 bytes is below minimum 5 bytes"
                     elapsedMs))
    /\ fs st2 !! "/out/img_canvas_full.jpg" = None
    /\ extractCanvasImage
         (sampleWorld (later payload) (JpegWritten (jpegOf 4)) (Some 600, Some 600)
            (SpawnError ""))
         (sampleConfig 2000 5) "img" "/out" Full None st0 = (st2, Ok None).
Proof.
  destruct (invalid_file_is_deleted
              (sampleWorld (later payload) (JpegWritten (jpegOf 4)) (Some 600, Some 600)
                 (SpawnError ""))
              (sampleConfig 2000 5) "img" "/out" Full None st0
              {| now := 1849; ticks := 13;
                 fs := {[ "/out/img_canvas_full.jpg" := jpegOf 4 ]} |} 1519)
    as (j & Hj & Hsize & _).
  - vm_compute. reflexivity.
  - reflexivity.
  - vm_compute in Hj. injection Hj as <-.
    destruct Hsize as ((Hb & Hgone & Hnull) & _).
    + vm_compute. reflexivity.
    + reflexivity.
    + do 2 eexists. split; [exact Hb|]. split; [exact Hgone|exact Hnull].
Defined.

(** C5, as stated, fails where the file system refuses the deletion: the
    JPEG of [lockedWorld] has 100 by 100 pixels against a minimum of 500, and
    it is on disk when the call returns; what was thrown is the error of
    [unlinkSync]. *)
Lemma undeletable_invalid_file_stays :
  ~ (forall (w : World) st1 t0 j ow oh,
       captured w (sampleConfig 2000 5) "img" "/out" Full st0 = (st1, Ok t0) ->
       fs st1 !! jpgPath w "img" "/out" Full = Some j ->
       imageInfo w j = Resolves (ow, oh) ->
       orElse ow 0 < minDimensions (sampleConfig 2000 5) ->
       fs (extractBody w (sampleConfig 2000 5) "img" "/out" Full None st0).1
         !! jpgPath w "img" "/out" Full = None
       /\ exists text elapsedMs,
            (extractBody w (sampleConfig 2000 5) "img" "/out" Full None st0).2
            = Throw (CanvasExtensionError "img" text elapsedMs)).
Proof.
  intros H.
  destruct (H lockedWorld
              {| now := 1849; ticks := 13;
                 fs := {[ "/out/img_canvas_full.jpg" := jpegOf 8 ]} |} 1519
              (jpegOf 8) (Some 100) (Some 100)) as [Hgone _].
  - vm_compute. reflexivity.
  - vm_compute. reflexivity.
  - reflexivity.
  - vm_compute. reflexivity.
  - vm_compute in Hgone. discriminate.
Qed.

(** *** Metadata *)

Lemma embedExifMetadata_resolves w p md st :
  reported (exiftool w (exifArgs p md)) = true ->
  exists st', embedExifMetadata w p md st = (st', Ok tt) /\
              (is_Some (fs st !! p) -> is_Some (fs st' !! p)).
Proof.
  intros H. unfold embedExifMetadata, bind. cbn [tick].
  destruct (exiftool w (exifArgs p md)) as [code rw|msg|why]; [| |discriminate].
  - cbn [fs]. destruct rw as [b|].
    + destruct (fs st !! p) as [old|] eqn:Hp.
      * exists (setFs (<[p := b]> (fs st)) (after w st)).
        split; [destruct code as [[| |]|]; reflexivity|].
        intros _. cbn [fs setFs]. rewrite lookup_insert_eq. eauto.
      * exists (after w st). split; [destruct code as [[| |]|]; reflexivity|].
        intros [x Hx]. discriminate.
    + exists (after w st). split; [destruct code as [[| |]|]; reflexivity|]. auto.
  - exists (after w st). split; [reflexivity|]. auto.
Qed.

(** When exiftool ends with an exit code, zero or not, or reports through
    the 'error' event that it cannot be started, [embedExifMetadata]
    resolves.  So a run that has written the JPEG and validated it returns
    the path of the JPEG, and the file is on disk when it returns. *)
Lemma reported_end_is_not_fatal w config imageId outputDir mode md st st1 st2 t0 :
  captured w config imageId outputDir mode st = (st1, Ok t0) ->
  validate w config imageId outputDir mode t0 st1 = (st2, Ok tt) ->
  let jpg := jpgPath w imageId outputDir mode in
  reported (exiftool w (exifArgs jpg md)) = true ->
  (forall s, exists s', embedExifMetadata w jpg md s = (s', Ok tt))
  /\ exists st3,
       extractCanvasImage w config imageId outputDir mode (Some md) st = (st3, Ok (Some jpg))
       /\ is_Some (fs st3 !! jpg).
Proof.
  intros Hcap Hval jpg Hrep. split.
  - intros s. destruct (embedExifMetadata_resolves w jpg md s Hrep) as (s' & H & _). eauto.
  - destruct (embedExifMetadata_resolves w jpg md st2 Hrep) as (st3 & Hemb & Hkeep).
    exists st3.
    assert (extractBody w config imageId outputDir mode (Some md) st = (st3, Ok jpg)) as Hb.
    { rewrite extractBody_captured, (bind_ok _ _ _ _ _ Hcap), (bind_ok _ _ _ _ _ Hval).
      unfold embedIfProvided. rewrite (bind_ok _ _ _ _ _ Hemb). reflexivity. }
    split; [rewrite extractCanvasImage_eq, Hb; reflexivity|].
    apply Hkeep. destruct (captured_jpeg _ _ _ _ _ _ _ _ Hcap) as (j & Hj & _).
    rewrite (validate_ok_fs _ _ _ _ _ _ _ _ Hval). fold jpg in Hj. rewrite Hj. eauto.
Qed.

(** C9.  The code at the failing input.  A non-zero exit code and the
    'error' event are not propagated: after a validated JPEG the path is
    returned.  But a failure of [spawn] that is thrown by the call itself
    (line 158, inside the executor of the promise) rejects the promise of
    [embedExifMetadata], and the extraction fails: for a title that holds a
    NUL character, which [spawn] refuses, [extractCanvasImage] returns
    [null], with the validated JPEG on disk; the same capture with a title
    without NUL returns the path. *)
Theorem spawn_exception_fails_the_extraction :
  (forall w config imageId outputDir mode md st st1 st2 t0,
     captured w config imageId outputDir mode st = (st1, Ok t0) ->
     validate w config imageId outputDir mode t0 st1 = (st2, Ok tt) ->
     reported (exiftool w (exifArgs (jpgPath w imageId outputDir mode) md)) = true ->
     exists st3,
       extractCanvasImage w config imageId outputDir mode (Some md) st
       = (st3, Ok (Some (jpgPath w imageId outputDir mode)))
       /\ is_Some (fs st3 !! jpgPath w imageId outputDir mode))
  /\ (forall w p md st why,
        exiftool w (exifArgs p md) = SpawnThrows why ->
        embedExifMetadata w p md st = (after w st, Throw (Rejection why)))
  /\ exiftool spawnWorld (exifArgs "/out/img_canvas_full.jpg" nulTitle)
     = SpawnThrows "ERR_INVALID_ARG_VALUE"
  /\ (extractCanvasImage spawnWorld (sampleConfig 2000 5) "img" "/out" Full (Some nulTitle)
        st0).2 = Ok None
  /\ fs (extractCanvasImage spawnWorld (sampleConfig 2000 5) "img" "/out" Full (Some nulTitle)
          st0).1 !! "/out/img_canvas_full.jpg" = Some (jpegOf 8)
  /\ (extractCanvasImage spawnWorld (sampleConfig 2000 5) "img" "/out" Full
        (Some (tagsOnly "a, b")) st0).2 = Ok (Some "/out/img_canvas_full.jpg").
Proof.
  split; [|split; [|split; [|split; [|split]]]].
  - intros w config imageId outputDir mode md st st1 st2 t0 Hcap Hval Hrep.
    exact (proj2 (reported_end_is_not_fatal w config imageId outputDir mode md st st1 st2 t0
                    Hcap Hval Hrep)).
  - intros w p md st why H. unfold embedExifMetadata, bind. cbn [tick]. rewrite H.
    reflexivity.
  - vm_compute. reflexivity.
  - vm_compute. reflexivity.
  - vm_compute. reflexivity.
  - vm_compute. reflexivity.
Qed.

(** *** A failed transcode *)

(** C10.  A run that has decoded the payload and can write the PNG.  When
    sharp then fails, the body of the [try] throws that failure, the method
    returns [null], and the PNG is on disk with the decoded payload as its
    content.  Conversely, whenever the PNG is absent at the end of the body,
    sharp has written the JPEG. *)
Theorem failed_transcode_leaves_png w config imageId outputDir mode metadata st st1 t0 buf :
  decoded w config imageId st = (st1, Ok (t0, buf)) ->
  let png := pngPath w imageId outputDir mode in
  writable w png = true ->
  (forall why partial,
     transcode w buf (jpgQualityFor config mode) = TranscodeFails why partial ->
     exists st2,
       extractBody w config imageId outputDir mode metadata st = (st2, Throw (Rejection why))
       /\ extractCanvasImage w config imageId outputDir mode metadata st = (st2, Ok None)
       /\ fs st2 !! png = Some buf)
  /\ (forall st2 r,
       extractBody w config imageId outputDir mode metadata st = (st2, r) ->
       fs st2 !! png = None ->
       exists j, transcode w buf (jpgQualityFor config mode) = JpegWritten j).
Proof.
  intros Hdec png Hw.
  assert (forall why partial,
     transcode w buf (jpgQualityFor config mode) = TranscodeFails why partial ->
     exists st2,
       extractBody w config imageId outputDir mode metadata st = (st2, Throw (Rejection why))
       /\ extractCanvasImage w config imageId outputDir mode metadata st = (st2, Ok None)
       /\ fs st2 !! png = Some buf) as Hfail.
  { intros why partial Ht.
    pose proof (saveAndTranscode_eq w config imageId outputDir mode buf st1 Hw) as Hs.
    cbv zeta in Hs. rewrite Ht in Hs.
    eexists. split; [|split].
    - rewrite extractBody_decoded, (bind_ok _ _ _ _ _ Hdec). apply bind_throw, Hs.
    - rewrite extractCanvasImage_eq, extractBody_decoded, (bind_ok _ _ _ _ _ Hdec).
      rewrite (bind_throw _ _ _ _ _ Hs). reflexivity.
    - destruct partial as [b|]; cbn [fs setFs after tick fst].
      + rewrite lookup_insert_ne by (apply not_eq_sym, png_not_jpg). apply lookup_insert_eq.
      + apply lookup_insert_eq. }
  split; [exact Hfail|].
  intros st2 r Hb Hgone.
  destruct (transcode w buf (jpgQualityFor config mode)) as [j|why partial] eqn:Ht; [eauto|].
  destruct (Hfail why partial eq_refl) as (st2' & Hb' & _ & Hpng).
  rewrite Hb in Hb'. injection Hb' as -> _. rewrite Hgone in Hpng. discriminate.
Qed.

(** [failed_transcode_leaves_png] where sharp rejects the payload. *)
Lemma failed_transcode_leaves_png_witness :
  exists st2,
    extractCanvasImage
      (sampleWorld (later payload) (TranscodeFails "unsupported image format" None)
         (None, None) (SpawnError ""))
      (sampleConfig 2000 5) "img" "/out" Thumbnail None st0 = (st2, Ok None)
    /\ fs st2 !! "/out/img_canvas_thumbnail.png" = Some [Byte.x89; Byte.x50; Byte.x4e; Byte.x47].
Proof.
  destruct (failed_transcode_leaves_png
              (sampleWorld (later payload) (TranscodeFails "unsupported image format" None)
                 (None, None) (SpawnError ""))
              (sampleConfig 2000 5) "img" "/out" Thumbnail None st0
              {| now := 1840; ticks := 10; fs := ∅ |} 1519
              [Byte.x89; Byte.x50; Byte.x4e; Byte.x47]) as [H _].
  - vm_compute. reflexivity.
  - reflexivity.
  - destruct (H "unsupported image format" None eq_refl) as (st2 & _ & Hnull & Hpng).
    exists st2. split; [exact Hnull|exact Hpng].
Defined.

End ExtractorFacts.

(** * More facts about the page pool *)

Module PoolLaws.
Import PagePool PoolRuns PoolFacts.
Local Open Scope Z_scope.
Local Open Scope list_scope.

(** *** Which slot an attempt takes *)

Lemma findIndex_first {A} (f : A -> bool) l i j x :
  findIndex f l = Some i -> (j < i)%nat -> l !! j = Some x -> f x = false.
Proof.
  revert i j. induction l as [|a l IH]; intros i j H Hj Hx; simpl in H; [discriminate|].
  destruct (f a) eqn:Ha.
  - injection H as <-. lia.
  - destruct (findIndex f l) as [i'|]; simpl in H; [|discriminate].
    injection H as <-. destruct j as [|j]; simpl in Hx.
    + injection Hx as <-. exact Ha.
    + eapply IH; [reflexivity| |exact Hx]. lia.
Qed.

Lemma findIndex_None {A} (f : A -> bool) l j x :
  findIndex f l = None -> l !! j = Some x -> f x = false.
Proof.
  revert j. induction l as [|a l IH]; intros j H Hx; [rewrite lookup_nil in Hx; discriminate|].
  simpl in H. destruct (f a) eqn:Ha; [discriminate|].
  destruct (findIndex f l) eqn:Hf; [discriminate|].
  destruct j as [|j]; simpl in Hx; [injection Hx as <-; exact Ha|].
  eapply IH; [reflexivity|exact Hx].
Qed.

(** X1.  While the pool is not shutting down, an attempt of [acquirePage]
    takes the free slot of the lowest index: every slot before it is busy,
    no other slot changes, and of the taken slot only the busy flag does.  It
    finds the pool all busy exactly when every slot is busy, and then leaves
    the pool as it is and asks nothing of a page. *)
Theorem attempt_takes_first_free s :
  shuttingDown s = false ->
  match acquireAttempt s with
  | (s', Granted i p, fx) =>
      (forall j st, (j < i)%nat -> pages s !! j = Some st -> busy st = true)
      /\ (exists st, pages s !! i = Some st /\ busy st = false /\ page st = p /\
                     pages s' !! i = Some (setBusy true st))
      /\ (forall j, j <> i -> pages s' !! j = pages s !! j)
      /\ fx = [BringToFront p]
  | (s', AllBusy, fx) =>
      (forall j st, pages s !! j = Some st -> busy st = true) /\ s' = s /\ fx = []
  | (_, ShutdownNull, _) => False
  end.
Proof.
  intros Hsd. unfold acquireAttempt. rewrite Hsd.
  destruct (findIndex (fun p => negb (busy p)) (pages s)) as [i|] eqn:Hf.
  - destruct (findIndex_Some _ _ _ Hf) as (st & Hst & Hfree). rewrite Hst.
    apply negb_true_iff in Hfree. split; [|split; [|split]].
    + intros j sj Hj Hl. apply negb_false_iff.
      exact (findIndex_first (fun p => negb (busy p)) (pages s) i j sj Hf Hj Hl).
    + exists st. simpl. rewrite list_lookup_alter_eq, Hst. repeat split; auto.
    + intros j Hj. simpl. apply list_lookup_alter_ne. congruence.
    + reflexivity.
  - split; [|split; reflexivity].
    intros j st Hl. apply negb_false_iff.
    exact (findIndex_None (fun p => negb (busy p)) (pages s) j st Hf Hl).
Qed.

(** [attempt_takes_first_free] on a fresh pool of two pages. *)
Lemma attempt_takes_first_free_witness :
  match acquireAttempt (create [7; 8]%nat None) with
  | (s', Granted i p, fx) => i = 0%nat /\ p = 7%nat /\ fx = [BringToFront 7%nat]
  | _ => False
  end.
Proof.
  pose proof (attempt_takes_first_free (create [7; 8]%nat None) eq_refl) as H.
  simpl in H. destruct H as (_ & (st & Hst & _ & Hp & _) & _ & Hfx).
  simpl. split; [reflexivity|]. split; [reflexivity|exact Hfx].
Defined.

(** *** Shutdown *)

Lemma stopRotation_pages s : pages (stopRotation s) = pages s.
Proof. unfold stopRotation. destruct (rotationTimerId s); reflexivity. Qed.

Lemma stopRotation_shuttingDown s : shuttingDown (stopRotation s) = shuttingDown s.
Proof. unfold stopRotation. destruct (rotationTimerId s); reflexivity. Qed.

Lemma startRotation_pages s : pages (startRotation s) = pages s.
Proof. unfold startRotation. destruct (rotationTimerId s); reflexivity. Qed.

Lemma startRotation_shuttingDown s : shuttingDown (startRotation s) = shuttingDown s.
Proof. unfold startRotation. destruct (rotationTimerId s); reflexivity. Qed.

Lemma holders_delete_pending y k i :
  i ∈ (fst <$> delete k (pending y)) ++ (index <$> inflight y) -> i ∈ holders y.
Proof.
  unfold holders. intros H. apply elem_of_app in H as [H|H]; apply elem_of_app; [left|right; exact H].
  apply list_elem_of_fmap in H as (x & -> & Hx). apply list_elem_of_fmap.
  exists x. split; [reflexivity|]. eapply list_elem_of_delete_inv, Hx.
Qed.

Lemma holders_finish y s k i p a j :
  pending y !! k = Some (i, p) -> index a = i ->
  j ∈ holders {| sched := s; pending := delete k (pending y);
                 inflight := a :: inflight y; released := released y |} ->
  j ∈ holders y.
Proof.
  intros Hk Ha Hj.
  assert (holders {| sched := s; pending := delete k (pending y);
                     inflight := a :: inflight y; released := released y |}
          = holders {| sched := sched y; pending := delete k (pending y);
                       inflight := a :: inflight y; released := released y |}) as E
    by reflexivity.
  rewrite E, (holders_perm_finish y k i p a Hk Ha) in Hj. exact Hj.
Qed.

Lemma holders_release y a i :
  i ∈ (fst <$> pending y) ++
      (index <$> List.filter (fun b => negb (bool_decide (b = a))) (inflight y)) ->
  i ∈ holders y.
Proof.
  unfold holders. intros H. apply elem_of_app in H as [H|H]; apply elem_of_app; [left; exact H|right].
  apply list_elem_of_fmap in H as (x & -> & Hx). apply list_elem_of_fmap.
  exists x. split; [reflexivity|]. apply list_elem_of_In, filter_In in Hx as [Hx _].
  apply list_elem_of_In, Hx.
Qed.

Lemma step_after_shutdown y e y' fx :
  shuttingDown (sched y) = true -> step y e = Some (y', fx) ->
  shuttingDown (sched y') = true
  /\ (forall i, i ∈ holders y' -> i ∈ holders y)
  /\ (forall x, x ∈ fx -> exists p, x = ClosePage p).
Proof.
  intros Hsd Hstep.
  destruct e as [| |now| |k now resolved|a| | |]; simpl in Hstep.
  - injection Hstep as <- <-. simpl. rewrite startRotation_shuttingDown.
    split; [exact Hsd|]. split; [auto|]. intros x Hx. inversion Hx.
  - injection Hstep as <- <-. simpl. rewrite stopRotation_shuttingDown.
    split; [exact Hsd|]. split; [auto|]. intros x Hx. inversion Hx.
  - unfold rotateActivePage in Hstep. rewrite Hsd in Hstep. injection Hstep as <- <-.
    split; [exact Hsd|]. split; [auto|]. intros x Hx. inversion Hx.
  - unfold acquireAttempt in Hstep. rewrite Hsd in Hstep. injection Hstep as <- <-.
    split; [exact Hsd|]. split; [auto|]. intros x Hx. inversion Hx.
  - destruct (pending y !! k) as [[i p]|] eqn:Hk; [|discriminate].
    destruct resolved; simpl in Hstep; injection Hstep as <- <-.
    + split; [exact Hsd|]. split; [|intros x Hx; inversion Hx].
      intros j Hj. eapply holders_finish; [exact Hk| |exact Hj]. reflexivity.
    + split; [exact Hsd|]. split; [|intros x Hx; inversion Hx].
      intros j Hj. apply (holders_delete_pending y k), Hj.
  - destruct (bool_decide (a ∈ inflight y)).
    + injection Hstep as <- <-. cbn [sched]. rewrite release_shuttingDown.
      split; [exact Hsd|]. split; [|intros x Hx; inversion Hx].
      intros j Hj. apply (holders_release y a), Hj.
    + destruct (bool_decide (a ∈ released y)); [|discriminate].
      injection Hstep as <- <-. cbn [sched withSched]. rewrite release_shuttingDown.
      split; [exact Hsd|]. split; [auto|]. intros x Hx. inversion Hx.
  - injection Hstep as <- <-. cbn [sched withSched]. unfold cleanupBegin.
    rewrite stopRotation_shuttingDown. split; [reflexivity|]. split; [auto|].
    intros x Hx. inversion Hx.
  - rewrite Hsd in Hstep. injection Hstep as <- <-.
    split; [exact Hsd|]. split; [auto|].
    intros x Hx. unfold cleanupClose in Hx.
    apply list_elem_of_In, in_map_iff in Hx as (ps & <- & _). eauto.
  - rewrite Hsd in Hstep. injection Hstep as <- <-.
    split; [exact Hsd|]. split; [auto|]. intros x Hx. inversion Hx.
Qed.

Lemma cleanupBegin_flags s :
  shuttingDown (cleanupBegin s) = true /\ rotationTimerId (cleanupBegin s) = false.
Proof.
  unfold cleanupBegin, stopRotation.
  destruct (rotationTimerId (beginShutdown s)) eqn:E; split; try reflexivity; exact E.
Qed.

(** X2.  The shutdown flag that [cleanup] sets is never reset: in every state
    that follows one in which it is set, whatever the callers and the timer
    do, the pool is still shutting down, no slot gets an owner it did not
    have, and nothing is asked of any page but to close. *)
Theorem shutdown_is_permanent es : forall y y',
  shuttingDown (sched y) = true -> runEvents y es = Some y' ->
  shuttingDown (sched y') = true
  /\ (forall i, i ∈ holders y' -> i ∈ holders y)
  /\ (forall x, x ∈ effects y es -> exists p, x = ClosePage p).
Proof.
  induction es as [|e es IH]; intros y y' Hsd Hrun; simpl in *.
  - injection Hrun as <-. split; [exact Hsd|]. split; [auto|]. intros x Hx. inversion Hx.
  - destruct (step y e) as [[y1 fx]|] eqn:Hst; [|discriminate].
    destruct (step_after_shutdown y e y1 fx Hsd Hst) as (Hsd1 & Hh1 & Hfx1).
    destruct (IH y1 y' Hsd1 Hrun) as (Hsd' & Hh' & Hfx').
    split; [exact Hsd'|]. split; [auto|].
    intros x Hx. apply elem_of_app in Hx as [Hx|Hx]; auto.
Qed.

(** [shutdown_is_permanent] for a caller and the timer racing a [cleanup] of
    a pool with one page taken. *)
Lemma shutdown_is_permanent_witness :
  Forall (fun x => exists p, x = ClosePage p) (effects closingState closingTrace).
Proof.
  assert (exists y', runEvents closingState closingTrace = Some y') as [y' Hy]
    by (eexists; vm_compute; reflexivity).
  apply Forall_forall.
  exact (proj2 (proj2 (shutdown_is_permanent closingTrace closingState y' eq_refl Hy))).
Defined.

(** *** After [cleanup] *)

Lemma step_after_cleanup y e y' fx :
  pages (sched y) = [] -> shuttingDown (sched y) = true -> step y e = Some (y', fx) ->
  pages (sched y') = [] /\ fx = [].
Proof.
  intros Hp Hsd Hstep.
  destruct e as [| |now| |k now resolved|a| | |]; simpl in Hstep.
  - injection Hstep as <- <-. simpl. rewrite startRotation_pages. auto.
  - injection Hstep as <- <-. simpl. rewrite stopRotation_pages. auto.
  - unfold rotateActivePage in Hstep. rewrite Hsd in Hstep. injection Hstep as <- <-. auto.
  - unfold acquireAttempt in Hstep. rewrite Hsd in Hstep. injection Hstep as <- <-. auto.
  - destruct (pending y !! k) as [[i p]|] eqn:Hk; [|discriminate].
    destruct resolved; simpl in Hstep; injection Hstep as <- <-; simpl; rewrite ?Hp; auto.
  - destruct (bool_decide (a ∈ inflight y)).
    + injection Hstep as <- <-. cbn [sched]. rewrite release_pages, Hp. auto.
    + destruct (bool_decide (a ∈ released y)); [|discriminate].
      injection Hstep as <- <-. cbn [sched withSched]. rewrite release_pages, Hp. auto.
  - injection Hstep as <- <-. cbn [sched withSched]. unfold cleanupBegin.
    rewrite stopRotation_pages. auto.
  - rewrite Hsd in Hstep. injection Hstep as <- <-. unfold cleanupClose.
    rewrite Hp. auto.
  - rewrite Hsd in Hstep. injection Hstep as <- <-. auto.
Qed.

Lemma run_after_cleanup es : forall y y',
  pages (sched y) = [] -> shuttingDown (sched y) = true -> runEvents y es = Some y' ->
  pages (sched y') = [] /\ effects y es = [].
Proof.
  induction es as [|e es IH]; intros y y' Hp Hsd Hrun; simpl in *.
  - injection Hrun as <-. auto.
  - destruct (step y e) as [[y1 fx]|] eqn:Hst; [|discriminate].
    destruct (step_after_cleanup y e y1 fx Hp Hsd Hst) as [Hp1 ->].
    destruct (step_after_shutdown y e y1 [] Hsd Hst) as (Hsd1 & _).
    exact (IH y1 y' Hp1 Hsd1 Hrun).
Qed.

(** X3.  Once a [cleanup] has emptied the slot array the pool stays empty
    for good: whatever is called afterwards, also another [cleanup], no page
    is touched again and the statistics read zero pages, zero busy, zero
    available.  Before that, the segment of a [cleanup] that closes the pages
    asks every page in the pool to close, once each and in slot order, and
    changes nothing of the pool: a second [cleanup] that gets there before
    the first has emptied the array closes every page again. *)
Theorem cleanup_is_final y y1 fx es y' :
  step y EvCleanupEnd = Some (y1, fx) ->
  runEvents y1 es = Some y' ->
  fx = []
  /\ effects y1 es = []
  /\ pages (sched y') = []
  /\ statTotal (getStats (sched y')) = 0
  /\ statBusy (getStats (sched y')) = 0
  /\ statAvailable (getStats (sched y')) = 0
  /\ (forall y0 y2 fx0, step y0 EvCleanupClose = Some (y2, fx0) ->
        y2 = y0 /\ fx0 = (fun st => ClosePage (page st)) <$> pages (sched y0))
  /\ (forall y0, shuttingDown (sched y0) = true ->
        effects y0 [EvCleanupClose; EvCleanupClose]
        = ((fun st => ClosePage (page st)) <$> pages (sched y0))
          ++ ((fun st => ClosePage (page st)) <$> pages (sched y0))).
Proof.
  intros Hstep Hrun. simpl in Hstep.
  destruct (shuttingDown (sched y)) eqn:Hsd; [|discriminate].
  injection Hstep as <- <-.
  destruct (run_after_cleanup es (withSched (cleanupEnd (sched y)) y) y' eq_refl Hsd Hrun)
    as [Hp Hfx].
  split; [reflexivity|]. split; [exact Hfx|]. split; [exact Hp|].
  split; [unfold getStats, getBusyCount; rewrite Hp; reflexivity|].
  split; [unfold getStats, getBusyCount; rewrite Hp; reflexivity|].
  split; [unfold getStats, getBusyCount; rewrite Hp; reflexivity|].
  split.
  - intros y0 y2 fx0 H0. simpl in H0.
    destruct (shuttingDown (sched y0)); [|discriminate]. injection H0 as <- <-. auto.
  - intros y0 H0. simpl. rewrite H0. simpl. rewrite H0. simpl.
    rewrite app_nil_r. reflexivity.
Qed.

(** [cleanup_is_final] for a [cleanup] that has closed the two pages of a
    pool and emptied it, followed by a tick, a caller, a late return and
    release, and another [cleanup]. *)
Lemma cleanup_is_final_witness :
  effects closedState afterClose = [].
Proof.
  assert (step closingState EvCleanupEnd = Some (closedState, [])) as Hfx
    by (vm_compute; reflexivity).
  assert (exists y', runEvents closedState afterClose = Some y') as [y' Hy]
    by (eexists; vm_compute; reflexivity).
  exact (proj1 (proj2 (cleanup_is_final closingState closedState [] afterClose y' Hfx Hy))).
Defined.

(** *** The set of active tasks *)

Lemma tracked_same y y' :
  inflight y' = inflight y -> released y' = released y ->
  activeTasks (sched y') = activeTasks (sched y) ->
  nextTask (sched y') = nextTask (sched y) ->
  tasksTracked y -> tasksTracked y'.
Proof.
  intros Hi Hr Ha Hn [H1 H2 H3]. split; rewrite ?Hi, ?Hr, ?Ha, ?Hn; assumption.
Qed.

Lemma rotate_tasks now s :
  activeTasks (fst (rotateActivePage now s)) = activeTasks s
  /\ nextTask (fst (rotateActivePage now s)) = nextTask s.
Proof.
  unfold rotateActivePage. destruct (shuttingDown s) eqn:Hsd; [auto|]. simpl.
  destruct (nextIndex (currentActiveIndex s) (length (pages s))) as [i|]; [|auto].
  destruct (pages s !! i); [|auto]. simpl. rewrite Hsd. auto.
Qed.

Lemma attempt_tasks s :
  activeTasks (fst (fst (acquireAttempt s))) = activeTasks s
  /\ nextTask (fst (fst (acquireAttempt s))) = nextTask s.
Proof.
  unfold acquireAttempt. destruct (shuttingDown s); [auto|].
  destruct (findIndex _ (pages s)) as [i|]; [|auto].
  destruct (pages s !! i); auto.
Qed.

Lemma release_tasks a s :
  activeTasks (release a s) = activeTasks s ∖ {[task a]}
  /\ nextTask (release a s) = nextTask s.
Proof. unfold release. destruct (pages s !! index a); auto. Qed.

Lemma tracked_step y e y' fx :
  tasksTracked y -> step y e = Some (y', fx) -> tasksTracked y'.
Proof.
  intros Ht Hstep.
  destruct e as [| |now| |k now resolved|a| | |]; simpl in Hstep.
  - injection Hstep as <- <-. apply (tracked_same y); auto;
      simpl; unfold startRotation; destruct (rotationTimerId (sched y)); reflexivity.
  - injection Hstep as <- <-. apply (tracked_same y); auto;
      simpl; unfold stopRotation; destruct (rotationTimerId (sched y)); reflexivity.
  - destruct (rotate_tasks now (sched y)) as [Ha Hn].
    destruct (rotateActivePage now (sched y)) as [s fx']. injection Hstep as <- <-.
    apply (tracked_same y); auto.
  - destruct (attempt_tasks (sched y)) as [Ha Hn].
    destruct (acquireAttempt (sched y)) as [[s att] fx'].
    destruct att; injection Hstep as <- <-; apply (tracked_same y); auto.
  - destruct (pending y !! k) as [[i p]|] eqn:Hk; [|discriminate].
    destruct resolved; simpl in Hstep; injection Hstep as <- <-;
      [|apply (tracked_same y); auto].
    destruct Ht as [Hnd Hold Hact]. split; simpl.
    + apply NoDup_cons. split; [|exact Hnd].
      intros Hin. apply list_elem_of_fmap in Hin as (b & Hb & Hbin).
      specialize (Hold b Hbin). lia.
    + intros a Ha. apply elem_of_cons in Ha as [->|Ha]; simpl; [lia|].
      specialize (Hold a Ha). lia.
    + rewrite Hact. reflexivity.
  - destruct (release_tasks a (sched y)) as [Ha Hn].
    destruct Ht as [Hnd Hold Hact].
    rewrite fmap_app in Hnd. apply NoDup_app in Hnd as (Hni & Hsep & Hnr).
    destruct (bool_decide (a ∈ inflight y)) eqn:Hin.
    + apply bool_decide_eq_true in Hin. injection Hstep as <- <-. split; cbn [sched inflight released].
      * rewrite fmap_app. apply NoDup_app. split; [|split].
        -- eapply sublist_NoDup; [exact Hni|]. apply fmap_sublist, filter_sublist.
        -- intros t Ht Ht'. apply list_elem_of_fmap in Ht as (b & -> & Hb).
           apply list_elem_of_In, filter_In in Hb as [Hb Hne].
           apply list_elem_of_In in Hb. apply negb_true_iff, bool_decide_eq_false in Hne.
           rewrite fmap_cons in Ht'. apply elem_of_cons in Ht' as [Ht'|Ht'].
           ++ apply Hne. exact (NoDup_fmap_eq task (inflight y) b a Hni Hb Hin Ht').
           ++ apply (Hsep (task b)); [|exact Ht']. apply list_elem_of_fmap. eauto.
        -- rewrite fmap_cons. apply NoDup_cons. split; [|exact Hnr].
           apply Hsep. apply list_elem_of_fmap. eauto.
      * intros b Hb. rewrite Hn. apply Hold.
        apply elem_of_app in Hb as [Hb|Hb]; apply elem_of_app.
        -- left. apply list_elem_of_In, filter_In in Hb as [Hb _]. apply list_elem_of_In, Hb.
        -- apply elem_of_cons in Hb as [->|Hb]; [left; exact Hin|right; exact Hb].
      * rewrite Ha, Hact. apply set_eq. intros t.
        rewrite elem_of_difference, !elem_of_list_to_set, !list_elem_of_fmap, elem_of_singleton.
        split.
        -- intros [(b & -> & Hb) Hne]. exists b. split; [reflexivity|].
           apply list_elem_of_In, filter_In. split; [apply list_elem_of_In, Hb|].
           apply negb_true_iff, bool_decide_eq_false. congruence.
        -- intros (b & -> & Hb). apply list_elem_of_In, filter_In in Hb as [Hb Hne].
           apply list_elem_of_In in Hb. apply negb_true_iff, bool_decide_eq_false in Hne.
           split; [eauto|]. intros E. apply Hne.
           exact (NoDup_fmap_eq task (inflight y) b a Hni Hb Hin E).
    + apply bool_decide_eq_false in Hin.
      destruct (bool_decide (a ∈ released y)) eqn:Hrel; [|discriminate].
      apply bool_decide_eq_true in Hrel. injection Hstep as <- <-.
      split; cbn [sched inflight released withSched].
      * rewrite fmap_app. apply NoDup_app. auto.
      * intros b Hb. rewrite Hn. auto.
      * rewrite Ha, Hact. apply set_eq. intros t.
        rewrite elem_of_difference, !elem_of_list_to_set, elem_of_singleton.
        split; [intros [H _]; exact H|]. intros H. split; [exact H|].
        intros ->. apply (Hsep (task a)); [exact H|]. apply list_elem_of_fmap. eauto.
  - injection Hstep as <- <-. apply (tracked_same y); auto;
      simpl; unfold cleanupBegin, stopRotation;
      destruct (rotationTimerId (beginShutdown (sched y))); reflexivity.
  - destruct (shuttingDown (sched y)); [|discriminate].
    injection Hstep as <- <-. exact Ht.
  - destruct (shuttingDown (sched y)); [|discriminate]. simpl in Hstep.
    injection Hstep as <- <-. apply (tracked_same y); auto.
Qed.

Lemma tracked_run es : forall y y',
  tasksTracked y -> runEvents y es = Some y' -> tasksTracked y'.
Proof.
  induction es as [|e es IH]; intros y y' Ht Hrun; simpl in *.
  - injection Hrun as <-. exact Ht.
  - destruct (step y e) as [[y1 fx]|] eqn:Hst; [|discriminate].
    apply (IH y1); [|exact Hrun]. eapply tracked_step; eauto.
Qed.

Lemma tracked_start ps interval : tasksTracked (start ps interval).
Proof.
  split; simpl.
  - constructor.
  - intros a Ha. inversion Ha.
  - reflexivity.
Qed.

(** X4.  In every state a pool can reach, also when callers call [release]
    again on a capability they gave back, the task set holds exactly the
    tasks of the acquisitions that were returned and not yet released: the
    [activeTasks] of the statistics, which is what [cleanup] waits for, is
    their number, and the tasks of two capabilities are never the same. *)
Theorem active_tasks_are_the_unreleased ps interval es y :
  runEvents (start ps interval) es = Some y ->
  statActiveTasks (getStats (sched y)) = Z.of_nat (length (inflight y))
  /\ (forall t, t ∈ activeTasks (sched y) <-> exists a, a ∈ inflight y /\ task a = t)
  /\ (forall a b, a ∈ inflight y ++ released y -> b ∈ inflight y ++ released y ->
                  task a = task b -> a = b).
Proof.
  intros Hrun.
  destruct (tracked_run es _ y (tracked_start ps interval) Hrun) as [Hnd Hold Hact].
  split; [|split].
  - unfold getStats. cbn [statActiveTasks]. rewrite Hact. f_equal.
    rewrite size_list_to_set.
    + apply length_fmap.
    + rewrite fmap_app in Hnd. apply NoDup_app in Hnd as (H & _). exact H.
  - intros t. rewrite Hact, elem_of_list_to_set, list_elem_of_fmap.
    split; intros (a & H1 & H2); exists a; auto.
  - intros a b Ha Hb E. exact (NoDup_fmap_eq task _ a b Hnd Ha Hb E).
Qed.

(** [active_tasks_are_the_unreleased] on the run in which the only slot is
    released twice by its first owner: two owners of the slot, one active
    task each. *)
Lemma active_tasks_are_the_unreleased_witness :
  statActiveTasks (getStats (sched staleState)) = Z.of_nat (length (inflight staleState)).
Proof.
  assert (runEvents (start [7]%nat None) staleTrace = Some staleState) as H
    by (vm_compute; reflexivity).
  exact (proj1 (active_tasks_are_the_unreleased [7]%nat None staleTrace staleState H)).
Defined.

(** *** Slots without an owner *)

Lemma alter_slot_kept (f : PageState -> PageState) k (l : list PageState) i st' :
  alter f k l !! i = Some st' -> exists st, l !! i = Some st.
Proof.
  intros H. destruct (decide (k = i)) as [->|Hne].
  - rewrite list_lookup_alter_eq in H. destruct (l !! i); [eauto|discriminate].
  - rewrite list_lookup_alter_ne in H by exact Hne. eauto.
Qed.

Lemma rotate_pages now s :
  pages (fst (rotateActivePage now s)) = pages s
  \/ exists k, pages (fst (rotateActivePage now s)) = alter (stamp now) k (pages s).
Proof.
  unfold rotateActivePage. destruct (shuttingDown s) eqn:Hsd; [auto|]. simpl.
  destruct (nextIndex (currentActiveIndex s) (length (pages s))) as [i|]; [|auto].
  destruct (pages s !! i); [|auto]. simpl. rewrite Hsd. simpl. eauto.
Qed.

(** No step brings back a slot that is gone. *)
Lemma step_slot_kept y e y' fx i st' :
  step y e = Some (y', fx) -> pages (sched y') !! i = Some st' ->
  exists st, pages (sched y) !! i = Some st.
Proof.
  intros Hstep Hl.
  destruct e as [| |now| |k now resolved|a| | |]; simpl in Hstep.
  - injection Hstep as <- <-. simpl in Hl. rewrite startRotation_pages in Hl. eauto.
  - injection Hstep as <- <-. simpl in Hl. rewrite stopRotation_pages in Hl. eauto.
  - pose proof (rotate_pages now (sched y)) as Hr.
    destruct (rotateActivePage now (sched y)) as [s fx']. injection Hstep as <- <-.
    simpl in Hl, Hr. destruct Hr as [Hr|[k Hr]]; rewrite Hr in Hl; [eauto|].
    eapply alter_slot_kept, Hl.
  - unfold acquireAttempt in Hstep. destruct (shuttingDown (sched y)).
    { injection Hstep as <- <-. eauto. }
    destruct (findIndex _ (pages (sched y))) as [j|]; [|injection Hstep as <- <-; eauto].
    destruct (pages (sched y) !! j) eqn:Hj; injection Hstep as <- <-; [|eauto].
    simpl in Hl. eapply alter_slot_kept, Hl.
  - destruct (pending y !! k) as [[j p]|]; [|discriminate].
    destruct resolved; simpl in Hstep; injection Hstep as <- <-; simpl in Hl; [|eauto].
    eapply alter_slot_kept, Hl.
  - destruct (bool_decide (a ∈ inflight y)).
    + injection Hstep as <- <-. cbn [sched] in Hl. rewrite release_pages in Hl.
      eapply alter_slot_kept, Hl.
    + destruct (bool_decide (a ∈ released y)); [|discriminate].
      injection Hstep as <- <-. cbn [sched withSched] in Hl. rewrite release_pages in Hl.
      eapply alter_slot_kept, Hl.
  - injection Hstep as <- <-. cbn [sched withSched] in Hl. unfold cleanupBegin in Hl.
    rewrite stopRotation_pages in Hl. eauto.
  - destruct (shuttingDown (sched y)); [|discriminate].
    injection Hstep as <- <-. eauto.
  - destruct (shuttingDown (sched y)); [|discriminate]. simpl in Hstep.
    injection Hstep as <- <-. simpl in Hl. inversion Hl.
Qed.

(** A slot gets an owner only when an attempt finds it free. *)
Lemma step_new_holder y e y' fx i :
  step y e = Some (y', fx) -> i ∈ holders y' ->
  i ∈ holders y \/ exists st, pages (sched y) !! i = Some st /\ busy st = false.
Proof.
  intros Hstep Hi.
  destruct e as [| |now| |k now resolved|a| | |]; simpl in Hstep.
  - injection Hstep as <- <-. auto.
  - injection Hstep as <- <-. auto.
  - destruct (rotateActivePage now (sched y)) as [s fx']. injection Hstep as <- <-. auto.
  - destruct (acquireAttempt (sched y)) as [[s att] fx'] eqn:Ha.
    destruct att as [|j p|]; injection Hstep as <- <-; [auto| |auto].
    unfold holders in Hi. simpl in Hi. rewrite fmap_app in Hi. simpl in Hi.
    apply elem_of_app in Hi as [Hi|Hi].
    + apply elem_of_app in Hi as [Hi|Hi].
      * left. apply elem_of_app. auto.
      * apply list_elem_of_singleton in Hi as ->. right.
        apply attempt_grants_free_slot in Ha as [(st & H1 & H2 & _) _]. eauto.
    + left. apply elem_of_app. auto.
  - destruct (pending y !! k) as [[j p]|] eqn:Hk; [|discriminate].
    destruct resolved; simpl in Hstep; injection Hstep as <- <-; left.
    + eapply holders_finish; [exact Hk| |exact Hi]. reflexivity.
    + apply (holders_delete_pending y k), Hi.
  - destruct (bool_decide (a ∈ inflight y)).
    + injection Hstep as <- <-. left. apply (holders_release y a), Hi.
    + destruct (bool_decide (a ∈ released y)); [|discriminate].
      injection Hstep as <- <-. auto.
  - injection Hstep as <- <-. auto.
  - destruct (shuttingDown (sched y)); [|discriminate].
    injection Hstep as <- <-. auto.
  - destruct (shuttingDown (sched y)); [|discriminate]. simpl in Hstep.
    injection Hstep as <- <-. auto.
Qed.

Lemma orphaned_step ps y e y' fx i :
  consistent ps y -> releasesOnce y e = true -> step y e = Some (y', fx) ->
  orphaned i y -> orphaned i y'.
Proof.
  intros Hc Honce Hstep [Hni Hb]. split.
  - intros Hi. destruct (step_new_holder y e y' fx i Hstep Hi) as [H|(st & H1 & H2)];
      [exact (Hni H)|].
    specialize (Hb st H1). congruence.
  - intros st' Hl'. destruct (busy st') eqn:Hb'; [reflexivity|].
    destruct (step_slot_kept y e y' fx i st' Hstep Hl') as [st Hl].
    destruct (busy_cleared_by_release y e y' fx i st st' Hstep Hl (Hb st Hl) Hl' Hb')
      as (a & -> & Hia & _).
    simpl in Honce. apply bool_decide_eq_true in Honce. exfalso. apply Hni.
    unfold holders. apply elem_of_app. right. apply list_elem_of_fmap. eauto.
Qed.

Lemma orphaned_run ps es : forall y y' i,
  consistent ps y -> allOnce y es = true -> runEvents y es = Some y' ->
  orphaned i y -> orphaned i y'.
Proof.
  induction es as [|e es IH]; intros y y' i Hc Hall Hrun Ho; simpl in *.
  - injection Hrun as <-. exact Ho.
  - apply andb_true_iff in Hall as [Honce Hall].
    destruct (step y e) as [[y1 fx]|] eqn:Hst; [|discriminate].
    apply (IH y1 y' i); [|exact Hall|exact Hrun|].
    + eapply consistent_step; eauto.
    + eapply orphaned_step; eauto.
Qed.

(** X5.  When [bringToFront] rejects, [acquirePage] rejects after it has set
    the busy flag of the slot, and no [release] for the slot exists.  With
    callers that release once, the slot then has no owner and stays busy as
    long as it is in the pool: no later attempt is granted it. *)
Theorem rejected_activation_leaks_the_slot ps interval es0 y k now i p y1 fx es y' :
  allOnce (start ps interval) es0 = true ->
  runEvents (start ps interval) es0 = Some y ->
  pending y !! k = Some (i, p) ->
  step y (EvFinish k now false) = Some (y1, fx) ->
  allOnce y1 es = true ->
  runEvents y1 es = Some y' ->
  orphaned i y'
  /\ (forall s' j q fx', acquireAttempt (sched y') = (s', Granted j q, fx') -> j <> i).
Proof.
  intros Hall0 Hrun0 Hk Hstep Hall Hrun.
  pose proof (consistent_run ps es0 _ _ (consistent_start ps interval) Hall0 Hrun0) as Hc.
  assert (consistent ps y1) as Hc1
    by exact (consistent_step ps y (EvFinish k now false) y1 fx Hc eq_refl Hstep).
  assert (orphaned i y1) as Ho1.
  { simpl in Hstep. rewrite Hk in Hstep. injection Hstep as <- <-.
    destruct Hc as [_ Hnd Hb _ _]. split.
    - unfold holders in *. simpl.
      rewrite (delete_Permutation (pending y) k (i, p) Hk) in Hnd. simpl in Hnd.
      apply NoDup_cons in Hnd as [Hni _]. exact Hni.
    - simpl. intros st Hst. apply (Hb i st); [|exact Hst].
      unfold holders. apply elem_of_app. left. apply list_elem_of_fmap.
      exists (i, p). split; [reflexivity|]. eapply list_elem_of_lookup_2, Hk. }
  pose proof (orphaned_run ps es y1 y' i Hc1 Hall Hrun Ho1) as [Hni Hb].
  split; [split; assumption|].
  intros s' j q fx' Ha ->.
  apply attempt_grants_free_slot in Ha as [(st & H1 & H2 & _) _].
  specialize (Hb st H1). congruence.
Qed.

(** [rejected_activation_leaks_the_slot] on a pool of one page: after the
    rejection the pool grants nothing, though nobody holds the page. *)
Lemma rejected_activation_leaks_the_slot_witness :
  orphaned 0 leakedState
  /\ (forall s' j q fx', acquireAttempt (sched leakedState) = (s', Granted j q, fx') ->
                         j <> 0%nat).
Proof.
  assert (exists y, runEvents (start [7]%nat None) [EvAttempt] = Some y /\
                    pending y !! 0%nat = Some (0%nat, 7%nat) /\
                    exists y1, step y (EvFinish 0 5 false) = Some (y1, []) /\
                      runEvents y1 leakTrace = Some leakedState)
    as (y & H1 & H2 & y1 & H3 & H4).
  { eexists. split; [vm_compute; reflexivity|]. split; [reflexivity|].
    eexists. split; [vm_compute; reflexivity|]. vm_compute. reflexivity. }
  assert (allOnce y1 leakTrace = true) as H5.
  { simpl in H1. injection H1 as <-. simpl in H3. injection H3 as <-. vm_compute. reflexivity. }
  exact (rejected_activation_leaks_the_slot [7]%nat None [EvAttempt] y 0%nat 5 0%nat 7%nat
           y1 [] leakTrace leakedState eq_refl H1 H2 H3 H5 H4).
Defined.

Lemma holders_withSched s y : holders (withSched s y) = holders y.
Proof. reflexivity. Qed.

Lemma alter_busy_origin (f : PageState -> PageState) k (l : list PageState) i st' :
  (forall x, busy (f x) = busy x) ->
  alter f k l !! i = Some st' -> busy st' = true ->
  exists st, l !! i = Some st /\ busy st = true.
Proof.
  intros Hf Hl Hb. apply alter_busy_kept in Hl as (st & H1 & H2); [|exact Hf].
  exists st. split; [exact H1|congruence].
Qed.

Lemma allHeld_step y e y' fx :
  allHeld y -> releasesOnce y e = true -> activated e = true ->
  step y e = Some (y', fx) -> allHeld y'.
Proof.
  intros Hh Honce Hact Hstep i st' Hl Hb.
  destruct e as [| |now| |k now resolved|a| | |]; simpl in Hstep.
  - injection Hstep as <- <-. simpl in Hl. rewrite startRotation_pages in Hl. eauto.
  - injection Hstep as <- <-. simpl in Hl. rewrite stopRotation_pages in Hl. eauto.
  - pose proof (rotate_pages now (sched y)) as Hr.
    destruct (rotateActivePage now (sched y)) as [s fx']. injection Hstep as <- <-.
    simpl in Hl, Hr. rewrite holders_withSched.
    destruct Hr as [Hr|[k Hr]]; rewrite Hr in Hl; [eauto|].
    apply alter_busy_origin in Hl as (st & H1 & H2); eauto.
  - unfold acquireAttempt in Hstep. destruct (shuttingDown (sched y)).
    { injection Hstep as <- <-. eauto. }
    destruct (findIndex _ (pages (sched y))) as [j|]; [|injection Hstep as <- <-; eauto].
    destruct (pages (sched y) !! j) eqn:Hj; injection Hstep as <- <-; [|eauto].
    simpl in Hl. unfold holders. simpl. rewrite fmap_app. simpl.
    destruct (decide (j = i)) as [->|Hne].
    + apply elem_of_app. left. apply elem_of_app. right. left.
    + rewrite list_lookup_alter_ne in Hl by exact Hne.
      specialize (Hh i st' Hl Hb). unfold holders in Hh.
      apply elem_of_app in Hh as [Hh|Hh]; apply elem_of_app; [left|right; exact Hh].
      apply elem_of_app. left. exact Hh.
  - destruct (pending y !! k) as [[j p]|] eqn:Hk; [|discriminate].
    destruct resolved; [|discriminate]. simpl in Hstep. injection Hstep as <- <-.
    simpl in Hl. apply alter_busy_origin in Hl as (st & H1 & H2); [|reflexivity|exact Hb].
    specialize (Hh i st H1 H2).
    assert (holders {| sched := setTasks ({[nextTask (sched y)]} ∪ activeTasks (sched y))
                                  (S (nextTask (sched y)))
                                  (setPages (alter (stamp now) j (pages (sched y))) (sched y));
                       pending := delete k (pending y);
                       inflight := {| acqPage := p; index := j; task := nextTask (sched y) |}
                                   :: inflight y;
                       released := released y |}
            ≡ₚ holders y) as E
      by exact (holders_perm_finish y k j p
                  {| acqPage := p; index := j; task := nextTask (sched y) |} Hk eq_refl).
    rewrite E. exact Hh.
  - simpl in Honce. rewrite Honce in Hstep. apply bool_decide_eq_true in Honce.
    injection Hstep as <- <-. cbn [sched] in Hl. rewrite release_pages in Hl.
    destruct (decide (index a = i)) as [<-|Hne].
    { rewrite list_lookup_alter_eq in Hl.
      destruct (pages (sched y) !! index a); simpl in Hl; [|discriminate].
      injection Hl as <-. discriminate. }
    rewrite list_lookup_alter_ne in Hl by exact Hne.
    specialize (Hh i st' Hl Hb). unfold holders in *. cbn [pending inflight].
    apply elem_of_app in Hh as [Hh|Hh]; apply elem_of_app; [left; exact Hh|right].
    apply list_elem_of_fmap in Hh as (b & -> & Hbin). apply list_elem_of_fmap.
    exists b. split; [reflexivity|]. apply list_elem_of_In, filter_In.
    split; [apply list_elem_of_In, Hbin|].
    apply negb_true_iff, bool_decide_eq_false. congruence.
  - injection Hstep as <- <-. cbn [sched withSched] in Hl. unfold cleanupBegin in Hl.
    rewrite stopRotation_pages in Hl. eauto.
  - destruct (shuttingDown (sched y)); [|discriminate].
    injection Hstep as <- <-. eauto.
  - destruct (shuttingDown (sched y)); [|discriminate]. simpl in Hstep.
    injection Hstep as <- <-. simpl in Hl. inversion Hl.
Qed.

Lemma allHeld_run es : forall y y',
  allHeld y -> allOnce y es = true -> forallb activated es = true ->
  runEvents y es = Some y' -> allHeld y'.
Proof.
  induction es as [|e es IH]; intros y y' Hh Hall Hact Hrun; simpl in *.
  - injection Hrun as <-. exact Hh.
  - apply andb_true_iff in Hall as [Honce Hall]. apply andb_true_iff in Hact as [Ha Hact].
    destruct (step y e) as [[y1 fx]|] eqn:Hst; [|discriminate].
    apply (IH y1 y'); [|exact Hall|exact Hact|exact Hrun].
    eapply allHeld_step; eauto.
Qed.

(** X6.  As long as no [bringToFront] rejects and callers release once, a
    slot of the pool is busy exactly when an acquisition holds it, pending or
    returned: the pool neither leaks a slot nor hands out one that is held. *)
Theorem busy_slots_are_the_held_ones ps interval es y i st :
  allOnce (start ps interval) es = true ->
  forallb activated es = true ->
  runEvents (start ps interval) es = Some y ->
  pages (sched y) !! i = Some st ->
  busy st = true <-> i ∈ holders y.
Proof.
  intros Hall Hact Hrun Hl. split.
  - intros Hb. refine (allHeld_run es (start ps interval) y _ Hall Hact Hrun i st Hl Hb).
    intros j stj Hj Hbj. simpl in Hj. unfold create in Hj. simpl in Hj.
    apply list_lookup_fmap_Some in Hj as (q & -> & _). discriminate.
  - intros Hi.
    destruct (consistent_run ps es _ _ (consistent_start ps interval) Hall Hrun)
      as [_ _ Hb _ _].
    exact (Hb i st Hi Hl).
Qed.

(** [busy_slots_are_the_held_ones] after a run in which three acquisitions
    are returned and one is released: both slots are held. *)
Lemma busy_slots_are_the_held_ones_witness :
  exists st, pages (sched onceState) !! 1%nat = Some st
             /\ (busy st = true <-> 1%nat ∈ holders onceState).
Proof.
  assert (runEvents (start [7; 8]%nat None) onceTrace = Some onceState) as H
    by (vm_compute; reflexivity).
  assert (exists st, pages (sched onceState) !! 1%nat = Some st) as [st Hst]
    by (eexists; vm_compute; reflexivity).
  exists st. split; [exact Hst|].
  exact (busy_slots_are_the_held_ones [7; 8]%nat None onceTrace onceState 1%nat st
           eq_refl eq_refl H Hst).
Defined.

(** *** The rotation cursor *)

Lemma handleAt_pages s s' k :
  page <$> pages s' = page <$> pages s -> handleAt s' k = handleAt s k.
Proof. unfold handleAt. intros H. rewrite <- !list_lookup_fmap, H. reflexivity. Qed.

Lemma pages_length s s' :
  page <$> pages s' = page <$> pages s -> length (pages s') = length (pages s).
Proof. intros H. rewrite <- (length_fmap page (pages s')), H. apply length_fmap. Qed.

Lemma release_cursor a s : currentActiveIndex (release a s) = currentActiveIndex s.
Proof. unfold release. destruct (pages s !! index a); reflexivity. Qed.

(** What one segment does to the cursor while the pool is open. *)
Lemma step_cursor y e y' fx c :
  shuttingDown (sched y) = false -> currentActiveIndex (sched y) = Some c ->
  (c < length (pages (sched y)))%nat ->
  noCleanup e = true -> step y e = Some (y', fx) ->
  shuttingDown (sched y') = false
  /\ page <$> pages (sched y') = page <$> pages (sched y)
  /\ (if isTick e
      then currentActiveIndex (sched y') = Some ((c + 1) mod length (pages (sched y)))%nat
           /\ exists p, handleAt (sched y) ((c + 1) mod length (pages (sched y)))%nat = Some p
                        /\ fx = [MouseMove p]
      else currentActiveIndex (sched y') = Some c /\ moves fx = []).
Proof.
  intros Hsd Hc Hlt Hnc Hstep.
  destruct e as [| |now| |k now resolved|a| | |]; simpl in Hstep; try discriminate Hnc.
  - injection Hstep as <- <-. simpl.
    unfold startRotation. destruct (rotationTimerId (sched y)); simpl; auto.
  - injection Hstep as <- <-. simpl.
    unfold stopRotation. destruct (rotationTimerId (sched y)); simpl; auto.
  - remember ((c + 1) mod length (pages (sched y)))%nat as k eqn:Ek.
    assert (nextIndex (Some c) (length (pages (sched y))) = Some k) as Hk.
    { rewrite Ek. destruct (length (pages (sched y))); [lia|reflexivity]. }
    assert (k < length (pages (sched y)))%nat as Hin
      by (rewrite Ek; apply Nat.mod_upper_bound; lia).
    apply lookup_lt_is_Some_2 in Hin as [st Hst].
    unfold rotateActivePage in Hstep. rewrite Hsd, Hc, Hk in Hstep. simpl in Hstep.
    rewrite Hst in Hstep. simpl in Hstep. rewrite Hsd in Hstep. simpl in Hstep.
    injection Hstep as <- <-.
    simpl. split; [exact Hsd|]. split; [apply pages_alter_page; reflexivity|].
    split; [reflexivity|]. exists (page st). unfold handleAt. rewrite Hst. auto.
  - unfold acquireAttempt in Hstep. rewrite Hsd in Hstep.
    destruct (findIndex _ (pages (sched y))) as [j|];
      [|injection Hstep as <- <-; simpl; auto].
    destruct (pages (sched y) !! j) eqn:Hj; injection Hstep as <- <-; [|simpl; auto].
    simpl. split; [exact Hsd|]. split; [apply pages_alter_page; reflexivity|]. auto.
  - destruct (pending y !! k) as [[j p]|]; [|discriminate].
    destruct resolved; simpl in Hstep; injection Hstep as <- <-; simpl; [|auto].
    split; [exact Hsd|]. split; [apply pages_alter_page; reflexivity|]. auto.
  - assert (shuttingDown (release a (sched y)) = false
            /\ page <$> pages (release a (sched y)) = page <$> pages (sched y)
            /\ currentActiveIndex (release a (sched y)) = Some c) as (H1 & H2 & H3).
    { rewrite release_shuttingDown, release_pages, release_cursor.
      split; [exact Hsd|]. split; [apply pages_alter_page; reflexivity|exact Hc]. }
    destruct (bool_decide (a ∈ inflight y)).
    + injection Hstep as <- <-. cbn [sched isTick]. auto.
    + destruct (bool_decide (a ∈ released y)); [|discriminate].
      injection Hstep as <- <-. cbn [sched withSched isTick]. auto.
Qed.

(** X7.  While the pool is open the cursor of the rotation timer moves by
    one slot per tick, round the pool, whatever callers do in between: after
    a run it stands [ticks] slots further, modulo the size of the pool, and
    the pointer moves requested during the run went, in order, to the pages
    of the slots that follow the cursor, one per tick. *)
Theorem rotation_is_round_robin es : forall y y' c,
  shuttingDown (sched y) = false ->
  currentActiveIndex (sched y) = Some c ->
  (c < length (pages (sched y)))%nat ->
  forallb noCleanup es = true ->
  runEvents y es = Some y' ->
  currentActiveIndex (sched y') = Some ((c + ticks es) mod length (pages (sched y)))%nat
  /\ length (moves (effects y es)) = ticks es
  /\ (forall j, (j < ticks es)%nat ->
         moves (effects y es) !! j =
         MouseMove <$> handleAt (sched y) ((c + 1 + j) mod length (pages (sched y)))%nat).
Proof.
  induction es as [|e es IH]; intros y y' c Hsd Hc Hlt Hnc Hrun; simpl in *.
  - injection Hrun as <-. unfold ticks. simpl. rewrite Nat.add_0_r, Nat.mod_small by exact Hlt.
    split; [exact Hc|]. split; [reflexivity|]. intros j Hj. lia.
  - apply andb_true_iff in Hnc as [Hne Hnc].
    destruct (step y e) as [[y1 fx]|] eqn:Hst; [|discriminate].
    destruct (step_cursor y e y1 fx c Hsd Hc Hlt Hne Hst) as (Hsd1 & Hp1 & Hcur).
    pose proof (pages_length _ _ Hp1) as Hlen.
    unfold moves in *. rewrite List.filter_app. unfold ticks in *. simpl.
    destruct (isTick e).
    + destruct Hcur as (Hc1 & p & Hp & ->). simpl.
      assert ((c + 1) mod length (pages (sched y)) < length (pages (sched y1)))%nat as Hlt1
        by (rewrite Hlen; apply Nat.mod_upper_bound; lia).
      destruct (IH y1 y' _ Hsd1 Hc1 Hlt1 Hnc Hrun) as (IH1 & IH2 & IH3).
      rewrite Hlen in IH1, IH3. split; [|split].
      * rewrite IH1, Nat.Div0.add_mod_idemp_l. f_equal. f_equal. lia.
      * rewrite IH2. reflexivity.
      * intros [|j] Hj; simpl.
        -- rewrite Nat.add_0_r, Hp. reflexivity.
        -- rewrite IH3 by lia. rewrite (handleAt_pages _ _ _ Hp1).
           rewrite <- Nat.add_assoc, Nat.Div0.add_mod_idemp_l.
           f_equal; f_equal; f_equal; try lia.
    + destruct Hcur as (Hc1 & ->). simpl.
      assert (c < length (pages (sched y1)))%nat as Hlt1 by (rewrite Hlen; exact Hlt).
      destruct (IH y1 y' _ Hsd1 Hc1 Hlt1 Hnc Hrun) as (IH1 & IH2 & IH3).
      rewrite Hlen in IH1, IH3. split; [exact IH1|]. split; [exact IH2|].
      intros j Hj. rewrite IH3 by exact Hj. rewrite (handleAt_pages _ _ _ Hp1). reflexivity.
Qed.

(** [rotation_is_round_robin] for three ticks on a fresh pool of two pages,
    with a caller in between. *)
Lemma rotation_is_round_robin_witness :
  exists y', runEvents (start [7; 8]%nat None) tickTrace = Some y'
    /\ currentActiveIndex (sched y') = Some 1%nat
    /\ moves (effects (start [7; 8]%nat None) tickTrace) !! 2%nat = Some (MouseMove 8%nat).
Proof.
  assert (exists y', runEvents (start [7; 8]%nat None) tickTrace = Some y') as [y' Hy]
    by (eexists; vm_compute; reflexivity).
  exists y'. split; [exact Hy|].
  destruct (rotation_is_round_robin tickTrace (start [7; 8]%nat None) y' 0%nat
              eq_refl eq_refl ltac:(simpl; lia) eq_refl Hy) as (H1 & _ & H3).
  split; [exact H1|]. exact (H3 2%nat ltac:(vm_compute; lia)).
Defined.

(** *** Acquire and release *)

Lemma delete_last {A} (l : list A) x : delete (length l) (l ++ [x]) = l.
Proof. induction l as [|a l IH]; simpl; [reflexivity|]. f_equal. exact IH. Qed.

Lemma lookup_last {A} (l : list A) x : (l ++ [x]) !! length l = Some x.
Proof. induction l as [|a l IH]; simpl; [reflexivity|exact IH]. Qed.

Lemma filter_absent (a : AcquiredPage) l :
  a ∉ l -> List.filter (fun b => negb (bool_decide (b = a))) l = l.
Proof.
  induction l as [|x l IH]; intros Hni; simpl; [reflexivity|].
  apply not_elem_of_cons in Hni as [Hne Hni].
  rewrite bool_decide_eq_false_2 by congruence. simpl. f_equal. exact (IH Hni).
Qed.

Lemma busyCount_flags (l l' : list PageState) :
  busy <$> l = busy <$> l' -> length (List.filter busy l) = length (List.filter busy l').
Proof.
  revert l'. induction l as [|x l IH]; intros [|x' l'] H; simpl in *; try discriminate.
  - reflexivity.
  - injection H as Hx Hl. rewrite Hx. destruct (busy x'); simpl; rewrite (IH l' Hl); reflexivity.
Qed.

Lemma cycle_pages now i (l : list PageState) st :
  l !! i = Some st -> busy st = false ->
  alter (setBusy false) i (alter (stamp now) i (alter (setBusy true) i l))
  = alter (stamp now) i l.
Proof.
  intros Hl Hb. apply list_eq. intros j. destruct (decide (i = j)) as [<-|Hne].
  - rewrite !list_lookup_alter_eq, Hl. simpl. f_equal.
    destruct st as [pg b t]. simpl in Hb. subst b. reflexivity.
  - rewrite !list_lookup_alter_ne by exact Hne. reflexivity.
Qed.

(** X8.  An acquisition that is granted, returned and then released leaves
    the pool as it found it, but for the stamp of the slot: the busy flags,
    the statistics and the set of active tasks are those of before, and so
    are the acquisitions pending and in flight. *)
Theorem acquire_then_release_restores ps interval es y now a y' :
  runEvents (start ps interval) es = Some y ->
  a ∉ inflight y -> a ∉ released y ->
  runEvents y [EvAttempt; EvFinish (length (pending y)) now true; EvRelease a] = Some y' ->
  getStats (sched y') = getStats (sched y)
  /\ busy <$> pages (sched y') = busy <$> pages (sched y)
  /\ (forall j, j <> index a -> pages (sched y') !! j = pages (sched y) !! j)
  /\ activeTasks (sched y') = activeTasks (sched y)
  /\ pending y' = pending y /\ inflight y' = inflight y /\ released y' = a :: released y.
Proof.
  intros Hrun0 Hni Hnr Hrun.
  destruct (tracked_run es _ y (tracked_start ps interval) Hrun0) as [_ Hold Hact].
  simpl in Hrun.
  destruct (acquireAttempt (sched y)) as [[s1 att] fx] eqn:Hatt.
  assert (activeTasks s1 = activeTasks (sched y) /\ nextTask s1 = nextTask (sched y))
    as [Ha1 Hn1].
  { pose proof (attempt_tasks (sched y)) as H. rewrite Hatt in H. exact H. }
  destruct att as [|i p|]; simpl in Hrun.
  1,3: destruct (pending y !! length (pending y)) eqn:E;
    [apply lookup_lt_Some in E; lia|discriminate].
  rewrite lookup_last in Hrun. simpl in Hrun. rewrite delete_last in Hrun.
  set (a0 := {| acqPage := p; index := i; task := nextTask s1 |}) in *.
  assert (a0 ∉ inflight y) as Hfresh.
  { intros Hin. assert (task a0 < nextTask (sched y))%nat as H
      by (apply Hold, elem_of_app; left; exact Hin).
    simpl in H. lia. }
  destruct (bool_decide (a ∈ a0 :: inflight y)) eqn:Hin.
  2:{ rewrite bool_decide_eq_false_2 in Hrun by exact Hnr. discriminate. }
  apply bool_decide_eq_true, elem_of_cons in Hin as [->|Hin]; [|contradiction].
  injection Hrun as <-. cbn [sched pending inflight released List.filter].
  rewrite bool_decide_eq_true_2 by reflexivity. cbn [negb].
  rewrite (filter_absent a0 _ Hfresh).
  apply attempt_grants_free_slot in Hatt as Hfree.
  destruct Hfree as [(st & Hst & Hb & Hp) _].
  assert (pages s1 = alter (setBusy true) i (pages (sched y))) as Hp1.
  { unfold acquireAttempt in Hatt. destruct (shuttingDown (sched y)); [discriminate|].
    destruct (findIndex _ (pages (sched y))) as [j|]; [|discriminate].
    destruct (pages (sched y) !! j); [|discriminate]. injection Hatt as <- <- _ _. reflexivity. }
  assert (pages (release a0 (setTasks ({[nextTask s1]} ∪ activeTasks s1) (S (nextTask s1))
                               (setPages (alter (stamp now) i (pages s1)) s1)))
          = alter (stamp now) i (pages (sched y))) as Hpages.
  { rewrite release_pages. cbn [pages setTasks setPages index a0]. rewrite Hp1.
    exact (cycle_pages now i _ st Hst Hb). }
  assert (activeTasks (release a0 (setTasks ({[nextTask s1]} ∪ activeTasks s1) (S (nextTask s1))
                               (setPages (alter (stamp now) i (pages s1)) s1)))
          = activeTasks (sched y)) as Htasks.
  { rewrite (proj1 (release_tasks _ _)). cbn [activeTasks setTasks setPages task a0].
    rewrite Ha1, Hn1. apply set_eq. intros t.
    rewrite elem_of_difference, elem_of_union, elem_of_singleton. split.
    - intros [[->|H] Hne]; [contradiction|exact H].
    - intros H. split; [right; exact H|]. intros ->.
      rewrite Hact, elem_of_list_to_set in H. apply list_elem_of_fmap in H as (b & Hb1 & Hb2).
      assert (task b < nextTask (sched y))%nat
        by (apply Hold, elem_of_app; left; exact Hb2).
      lia. }
  assert (busy <$> alter (stamp now) i (pages (sched y)) = busy <$> pages (sched y)) as Hflags.
  { apply list_eq. intros j. rewrite !list_lookup_fmap. destruct (decide (i = j)) as [<-|Hne].
    - rewrite list_lookup_alter_eq. destruct (pages (sched y) !! i); reflexivity.
    - rewrite list_lookup_alter_ne by exact Hne. reflexivity. }
  split; [|split; [|split; [|split]]].
  - unfold getStats, getBusyCount. rewrite Hpages, Htasks.
    rewrite (busyCount_flags _ _ Hflags), length_alter. reflexivity.
  - rewrite Hpages. exact Hflags.
  - intros j Hj. rewrite Hpages. simpl in Hj. apply list_lookup_alter_ne. congruence.
  - exact Htasks.
  - auto.
Qed.

(** [acquire_then_release_restores] on a pool with one of two pages taken. *)
Lemma acquire_then_release_restores_witness :
  exists y', runEvents tickState
               [EvAttempt; EvFinish 0 20 true;
                EvRelease {| acqPage := 8%nat; index := 1; task := 1 |}] = Some y'
    /\ getStats (sched y') = getStats (sched tickState).
Proof.
  assert (runEvents (start [7; 8]%nat None) tickTrace = Some tickState) as H0
    by (vm_compute; reflexivity).
  assert (exists y', runEvents tickState
               [EvAttempt; EvFinish (length (pending tickState)) 20 true;
                EvRelease {| acqPage := 8%nat; index := 1; task := 1 |}] = Some y')
    as [y' Hy] by (eexists; vm_compute; reflexivity).
  exists y'. split; [exact Hy|].
  refine (proj1 (acquire_then_release_restores [7; 8]%nat None tickTrace tickState 20
                   {| acqPage := 8%nat; index := 1; task := 1 |} y' H0 _ _ Hy)).
  - vm_compute. intros H. apply elem_of_cons in H as [H|H]; [discriminate|inversion H].
  - vm_compute. intros H. inversion H.
Defined.

End PoolLaws.

(** * More facts about the extraction pipeline *)

Module ExtractorLaws.
Import Exif Extractor ExtractorRuns ExifFacts ExtractorFacts.
Local Open Scope Z_scope.
Local Open Scope js_scope.

(** *** File names *)

Lemma safeChar_dash : safeChar "-" = true.
Proof. reflexivity. Qed.

Lemma safeChar_not c d : safeChar d = false -> safeChar c = true -> Ascii.eqb c d = false.
Proof.
  intros Hd Hc. destruct (Ascii.eqb c d) eqn:E; [|reflexivity].
  apply Ascii.eqb_eq in E. subst. congruence.
Qed.

Lemma allSafe_includes d s : safeChar d = false -> allSafe s = true -> Js.includes d s = false.
Proof.
  intros Hd. induction s as [|c s IH]; simpl; [reflexivity|].
  intros H. apply andb_true_iff in H as [Hc Hs].
  rewrite (safeChar_not c d Hd Hc), (IH Hs). reflexivity.
Qed.

Lemma allSafe_sanitize s : allSafe (sanitize s) = true.
Proof.
  unfold sanitize. induction s as [|c s IH]; simpl; [reflexivity|].
  rewrite IH, andb_true_r. destruct (safeChar c) eqn:E; [exact E|reflexivity].
Qed.

Lemma sanitize_safe s : allSafe s = true -> sanitize s = s.
Proof.
  unfold sanitize. induction s as [|c s IH]; simpl; [reflexivity|].
  intros H. apply andb_true_iff in H as [Hc Hs]. rewrite Hc, (IH Hs). reflexivity.
Qed.

Lemma sanitize_app a b : sanitize (a +:+ b) = sanitize a +:+ sanitize b.
Proof.
  unfold sanitize. induction a as [|c a IH]; simpl; [reflexivity|]. rewrite IH. reflexivity.
Qed.

Lemma allSafe_app a b : allSafe (a +:+ b) = allSafe a && allSafe b.
Proof.
  induction a as [|c a IH]; simpl; [reflexivity|]. rewrite IH, andb_assoc. reflexivity.
Qed.

(** X9.  The replacement of line 334 keeps the length of the image id and
    leaves only letters, digits, dots, dashes and underscores: a sanitized id
    holds no path separator, an id of such characters is kept as it is, and
    sanitizing twice changes nothing more.  Ids that differ only in a
    replaced character get the same name. *)
Theorem sanitize_keeps_safe_characters imageId :
  String.length (sanitize imageId) = String.length imageId
  /\ allSafe (sanitize imageId) = true
  /\ Js.includes "/" (sanitize imageId) = false
  /\ Js.includes "\" (sanitize imageId) = false
  /\ sanitize (sanitize imageId) = sanitize imageId
  /\ (allSafe imageId = true <-> sanitize imageId = imageId)
  /\ (forall a c b, imageId = a +:+ String c b -> safeChar c = false ->
        sanitize imageId = sanitize (a +:+ String "-" b)).
Proof.
  split; [|split; [|split; [|split; [|split; [|split]]]]].
  - unfold sanitize. induction imageId as [|c s IH]; simpl; [reflexivity|]. rewrite IH.
    reflexivity.
  - apply allSafe_sanitize.
  - apply allSafe_includes; [reflexivity|apply allSafe_sanitize].
  - apply allSafe_includes; [reflexivity|apply allSafe_sanitize].
  - apply sanitize_safe, allSafe_sanitize.
  - split; [apply sanitize_safe|]. intros <-. apply allSafe_sanitize.
  - intros a c b -> Hc. rewrite !sanitize_app. f_equal. unfold sanitize. simpl.
    rewrite Hc. reflexivity.
Qed.

(** [sanitize_keeps_safe_characters] at an id with a slash. *)
Lemma sanitize_keeps_safe_characters_witness :
  sanitize "a/b" = sanitize "a-b".
Proof.
  exact (proj2 (proj2 (proj2 (proj2 (proj2 (proj2
           (sanitize_keeps_safe_characters "a/b")))))) "a" "/"%char "b" eq_refl eq_refl).
Defined.

Lemma append_length a b : String.length (a +:+ b) = (String.length a + String.length b)%nat.
Proof. induction a as [|c a IH]; simpl; [reflexivity|]. rewrite IH. reflexivity. Qed.

Lemma append_inj_same_length a b x y :
  String.length a = String.length b -> a +:+ x = b +:+ y -> a = b.
Proof.
  revert b. induction a as [|c a IH]; intros [|d b] Hl H; simpl in *; try discriminate.
  - reflexivity.
  - injection H as -> H. f_equal. apply IH; [lia|exact H].
Qed.

Lemma append_cancel_r a b x : a +:+ x = b +:+ x -> a = b.
Proof.
  intros H. apply (append_inj_same_length a b x x); [|exact H].
  apply (f_equal String.length) in H. rewrite !append_length in H. lia.
Qed.

Lemma append_assoc (a b c : string) : (a +:+ b) +:+ c = a +:+ (b +:+ c).
Proof.
  induction a as [|x a IH]; [reflexivity|].
  change (String x ((a +:+ b) +:+ c) = String x (a +:+ (b +:+ c))). f_equal. exact IH.
Qed.

Lemma png_suffix_differs a b : a +:+ ".png" <> b +:+ ".jpg".
Proof.
  intros H. assert (String.length a = String.length b) as Hl.
  { apply (f_equal String.length) in H. rewrite !append_length in H. simpl in H. lia. }
  pose proof (append_inj_same_length a b _ _ Hl H) as ->.
  apply append_inj_l in H. discriminate.
Qed.

Lemma allSafe_modeName mode : allSafe (modeName mode) = true.
Proof. destruct mode; reflexivity. Qed.

(** X10.  The two files of a call are named after the sanitized id and the
    mode, inside the output directory: the names hold no character outside
    [a-zA-Z0-9.\-_]; the PNG, the JPEG and the files of the other mode are
    four different paths; and two image ids share their files exactly when
    their sanitized forms are the same. *)
Theorem file_names_of_a_call w outputDir imageId mode :
  allSafe (pngFilename imageId mode) = true
  /\ allSafe (jpgFilename imageId mode) = true
  /\ pngPath w imageId outputDir mode <> jpgPath w imageId outputDir mode
  /\ (forall other mode', pngPath w imageId outputDir mode <> jpgPath w other outputDir mode')
  /\ jpgPath w imageId outputDir Full <> jpgPath w imageId outputDir Thumbnail
  /\ pngPath w imageId outputDir Full <> pngPath w imageId outputDir Thumbnail
  /\ (forall other,
        jpgPath w imageId outputDir mode = jpgPath w other outputDir mode
        <-> sanitize imageId = sanitize other)
  /\ (forall other,
        pngPath w imageId outputDir mode = pngPath w other outputDir mode
        <-> sanitize imageId = sanitize other).
Proof.
  unfold pngPath, jpgPath, pngFilename, jpgFilename, sanitizedId.
  split; [|split; [|split; [|split; [|split; [|split; [|split]]]]]].
  - rewrite !allSafe_app, allSafe_sanitize, allSafe_modeName. reflexivity.
  - rewrite !allSafe_app, allSafe_sanitize, allSafe_modeName. reflexivity.
  - apply png_not_jpg.
  - intros other mode' H. apply append_inj_l in H. rewrite <- !append_assoc in H.
    exact (png_suffix_differs _ _ H).
  - intros H. do 2 apply append_inj_l in H. discriminate.
  - intros H. do 2 apply append_inj_l in H. discriminate.
  - intros other. split; [|intros ->; reflexivity].
    intros H. apply append_inj_l in H. rewrite <- !append_assoc in H.
    apply append_cancel_r in H. apply append_cancel_r in H. apply append_cancel_r in H.
    exact H.
  - intros other. split; [|intros ->; reflexivity].
    intros H. apply append_inj_l in H. rewrite <- !append_assoc in H.
    apply append_cancel_r in H. apply append_cancel_r in H. apply append_cancel_r in H.
    exact H.
Qed.

(** *** Settings and the polling delays *)




Lemma orElse_nonzero v d : d <> 0 -> orElse v d <> 0.
Proof.
  intros Hd. unfold orElse. destruct v as [z|]; [|exact Hd].
  destruct (Z.eqb z 0) eqn:E; [exact Hd|]. apply Z.eqb_neq, E.
Qed.

Lemma orElse_unset v d : v = None \/ v = Some 0 -> orElse v d = d.
Proof. intros [->| ->]; reflexivity. Qed.

(** X12.  A setting is read with [||], so a configured 0 counts as absent:
    each of the two stabilization waits, the polling budget, the two
    validation thresholds and the two JPEG qualities is the configured
    number when that is not 0, and its default (500 ms, 750 ms, 30000 ms,
    51200 bytes, 500 pixels, 95 and 80) when it is absent or 0.  So none of
    them is ever 0, whatever the configuration holds. *)
Theorem settings_are_never_zero config :
  (initialStabilizationMs config <> 0
   /\ postResizeStabilizationMs config <> 0
   /\ maxWaitMs config <> 0
   /\ minFileSize config <> 0
   /\ minDimensions config <> 0
   /\ jpgQualityFor config Full <> 0
   /\ jpgQualityFor config Thumbnail <> 0)
  /\ (forall z, z <> 0 ->
        (cfgField config initialRenderWaitMs = Some z -> initialStabilizationMs config = z)
        /\ (cfgField config postResizeWaitMs = Some z -> postResizeStabilizationMs config = z)
        /\ (cfgField config maxRenderWaitMs = Some z -> maxWaitMs config = z)
        /\ (cfgField config minValidFileSize = Some z -> minFileSize config = z)
        /\ (cfgField config minValidDimensions = Some z -> minDimensions config = z)
        /\ (forall q, cfgField config jpgQuality = Some q -> full q = Some z ->
              jpgQualityFor config Full = z)
        /\ (forall q, cfgField config jpgQuality = Some q -> thumbnail q = Some z ->
              jpgQualityFor config Thumbnail = z))
  /\ ((cfgField config initialRenderWaitMs = None
       \/ cfgField config initialRenderWaitMs = Some 0 -> initialStabilizationMs config = 500)
      /\ (cfgField config postResizeWaitMs = None
          \/ cfgField config postResizeWaitMs = Some 0 -> postResizeStabilizationMs config = 750)
      /\ (cfgField config maxRenderWaitMs = None
          \/ cfgField config maxRenderWaitMs = Some 0 -> maxWaitMs config = 30000)
      /\ (cfgField config minValidFileSize = None
          \/ cfgField config minValidFileSize = Some 0 -> minFileSize config = 51200)
      /\ (cfgField config minValidDimensions = None
          \/ cfgField config minValidDimensions = Some 0 -> minDimensions config = 500)
      /\ (cfgField config jpgQuality = None -> jpgQualityFor config Full = 95)
      /\ (cfgField config jpgQuality = None -> jpgQualityFor config Thumbnail = 80)
      /\ (forall q, cfgField config jpgQuality = Some q ->
            full q = None \/ full q = Some 0 -> jpgQualityFor config Full = 95)
      /\ (forall q, cfgField config jpgQuality = Some q ->
            thumbnail q = None \/ thumbnail q = Some 0 -> jpgQualityFor config Thumbnail = 80)).
Proof.
  unfold initialStabilizationMs, postResizeStabilizationMs, maxWaitMs, minFileSize,
    minDimensions, jpgQualityFor.
  split; [|split].
  - repeat split; apply orElse_nonzero; lia.
  - intros z Hz. repeat split.
    + intros ->. apply orElse_set, Hz.
    + intros ->. apply orElse_set, Hz.
    + intros ->. apply orElse_set, Hz.
    + intros ->. apply orElse_set, Hz.
    + intros ->. apply orElse_set, Hz.
    + intros q -> Hq. cbn [mbind option_bind]. rewrite Hq. apply orElse_set, Hz.
    + intros q -> Hq. cbn [mbind option_bind]. rewrite Hq. apply orElse_set, Hz.
  - repeat split.
    + apply orElse_unset.
    + apply orElse_unset.
    + apply orElse_unset.
    + apply orElse_unset.
    + apply orElse_unset.
    + intros ->. reflexivity.
    + intros ->. reflexivity.
    + intros q -> Hq. cbn [mbind option_bind]. apply orElse_unset, Hq.
    + intros q -> Hq. cbn [mbind option_bind]. apply orElse_unset, Hq.
Qed.

(** [settings_are_never_zero] for a configuration that sets the size
    threshold to 0, the budget to 2000 ms and the second wait to 10 ms. *)
Lemma settings_are_never_zero_witness :
  minFileSize (sampleConfig 2000 0) = 51200
  /\ maxWaitMs (sampleConfig 2000 0) = 2000
  /\ postResizeStabilizationMs (sampleConfig 2000 0) = 10
  /\ initialStabilizationMs (sampleConfig 2000 0) = 500.
Proof.
  destruct (settings_are_never_zero (sampleConfig 2000 0)) as (_ & Hset & Hdef).
  destruct (Hset 2000 ltac:(lia)) as (_ & _ & H2 & _).
  destruct (Hset 10 ltac:(lia)) as (_ & H3 & _).
  destruct Hdef as (H4 & _ & _ & H1 & _).
  split; [exact (H1 (or_intror eq_refl))|]. split; [exact (H2 eq_refl)|].
  split; [exact (H3 eq_refl)|exact (H4 (or_introl eq_refl))].
Defined.

(** *** The payload of the data URL *)

Lemma prefix_append p s : String.prefix p s = true -> exists r, s = p +:+ r.
Proof.
  revert s. induction p as [|c p IH]; intros s H.
  - exists s. reflexivity.
  - destruct s as [|d s]; [discriminate|]. simpl in H.
    destruct (ascii_dec c d) as [->|]; [|discriminate].
    destruct (IH s H) as [r ->]. exists r. reflexivity.
Qed.

Lemma split_no_sep sep s : Js.includes sep s = false -> Js.split sep s = [s].
Proof.
  induction s as [|c s IH]; simpl; [reflexivity|]. intros H.
  apply orb_false_iff in H as [Hc Hs]. rewrite Hc, (IH Hs). reflexivity.
Qed.

Lemma split_prefix rest :
  Js.split "," (dataUrlPrefix +:+ rest) = "data:image/png;base64" :: Js.split "," rest.
Proof. reflexivity. Qed.

Lemma second_piece url :
  Js.startsWith dataUrlPrefix url = true -> is_Some (Js.split "," url !! 1%nat).
Proof.
  intros H. apply prefix_append in H as [rest ->]. rewrite split_prefix.
  pose proof (split_nonempty "," rest) as Hne.
  destruct (Js.split "," rest) as [|h t]; [contradiction|]. simpl. eauto.
Qed.

(** X13.  A data URL that passes the test of line 324 always has a second
    piece when split on commas, so line 330 never yields [undefined]: the
    text decoded is what follows the prefix, up to the next comma if there
    is one. *)
Theorem payload_follows_the_prefix url :
  Js.startsWith dataUrlPrefix url = true ->
  exists rest,
    url = dataUrlPrefix +:+ rest
    /\ Js.split "," url !! 1%nat = head (Js.split "," rest)
    /\ is_Some (Js.split "," url !! 1%nat)
    /\ (Js.includes "," rest = false -> Js.split "," url !! 1%nat = Some rest)
    /\ (forall a b, rest = a +:+ String "," b -> Js.includes "," a = false ->
          Js.split "," url !! 1%nat = Some a).
Proof.
  intros H. apply prefix_append in H as [rest ->]. exists rest.
  rewrite split_prefix. cbn [lookup list_lookup].
  assert (forall l : list string, l !! 0%nat = head l) as Hh by (intros []; reflexivity).
  rewrite Hh. split; [reflexivity|]. split; [reflexivity|]. split; [|split].
  - pose proof (split_nonempty "," rest) as Hne.
    destruct (Js.split "," rest); [contradiction|]. simpl. eauto.
  - intros Hi. rewrite (split_no_sep _ _ Hi). reflexivity.
  - intros a b -> Ha. clear Hh. induction a as [|c a IH]; simpl.
    + reflexivity.
    + simpl in Ha. apply orb_false_iff in Ha as [Hc Ha]. rewrite Hc.
      specialize (IH Ha).
      destruct (Js.split "," (a +:+ String "," b)) as [|h t]; [discriminate|].
      simpl in IH. injection IH as ->. reflexivity.
Qed.

(** [payload_follows_the_prefix] at the sample payload. *)
Lemma payload_follows_the_prefix_witness :
  Js.split "," "data:image/png;base64,iVBORw0KGgo=" !! 1%nat = Some "iVBORw0KGgo=".
Proof.
  destruct (payload_follows_the_prefix "data:image/png;base64,iVBORw0KGgo=" eq_refl)
    as (rest & E & _ & _ & H & _).
  apply (String.app_inj dataUrlPrefix) in E. subst rest. exact (H eq_refl).
Defined.

(** *** What a call touches *)

Section Frame.

Variables (w : World) (png jpg : string).

Lemma untouched_refl st : untouched png jpg st st.
Proof. intros p _ _. reflexivity. Qed.

Lemma untouched_trans a b c :
  untouched png jpg a b -> untouched png jpg b c -> untouched png jpg a c.
Proof. intros H1 H2 p Hp Hj. rewrite (H2 p Hp Hj). exact (H1 p Hp Hj). Qed.

Lemma untouched_tick : preserves (untouched png jpg) (tick w).
Proof. intros st p _ _. reflexivity. Qed.

Lemma untouched_wait ms : preserves (untouched png jpg) (wait w ms).
Proof. intros st p _ _. reflexivity. Qed.

Lemma untouched_write k b : k = png \/ k = jpg -> preserves (untouched png jpg) (writeFileSync w k b).
Proof.
  intros Hk st p Hp Hj. rewrite writeFileSync_eq. destruct (writable w k); simpl; [|reflexivity].
  apply lookup_insert_ne. destruct Hk; congruence.
Qed.

Lemma untouched_unlink k : k = png \/ k = jpg -> preserves (untouched png jpg) (unlinkSync w k).
Proof.
  intros Hk st p Hp Hj. rewrite unlinkSync_eq. destruct (fs st !! k); simpl; [|reflexivity].
  destruct (deletable w k); simpl; [|reflexivity].
  apply lookup_delete_ne. destruct Hk; congruence.
Qed.

Lemma untouched_toFile buf q k : k = png \/ k = jpg -> preserves (untouched png jpg) (toFile w buf q k).
Proof.
  intros Hk st p Hp Hj. rewrite toFile_eq.
  destruct (transcode w buf q) as [j|why [b|]]; simpl; try reflexivity;
    apply lookup_insert_ne; destruct Hk; congruence.
Qed.

Lemma untouched_statSize k : preserves (untouched png jpg) (statSize w k).
Proof.
  intros st p _ _. rewrite statSize_eq. destruct (fs st !! k); [|reflexivity].
  destruct (statable w k); reflexivity.
Qed.

Lemma untouched_dimensions k : preserves (untouched png jpg) (dimensions w k).
Proof.
  intros st p _ _. rewrite dimensions_eq. destruct (fs st !! k); [|reflexivity].
  destruct (imageInfo w _) as [[? ?]|]; reflexivity.
Qed.

Lemma untouched_embed k md :
  k = png \/ k = jpg -> preserves (untouched png jpg) (embedExifMetadata w k md).
Proof.
  intros Hk st p Hp Hj. unfold embedExifMetadata, bind, tick, ret, throw. simpl.
  destruct (exiftool w (exifArgs k md)) as [code [b|]|msg|why]; simpl; try reflexivity.
  - destruct (fs st !! k); simpl.
    + destruct code as [[| |]|]; simpl; apply lookup_insert_ne; destruct Hk; congruence.
    + destruct code as [[| |]|]; reflexivity.
  - destruct code as [[| |]|]; reflexivity.
Qed.

End Frame.

Section FrameOfCall.

Variables (w : World) (config : option ScraperConfig) (imageId outputDir : string).
Variables (mode : ViewportMode) (metadata : option ImageMetadata).

Local Ltac step :=
  first
    [ apply preserves_ret; apply untouched_refl
    | apply preserves_throw; apply untouched_refl
    | apply preserves_dateNow; apply untouched_refl
    | apply preserves_evalAttribute;
        [apply untouched_refl|apply untouched_trans|apply untouched_tick]
    | apply preserves_stabilizeAndPoll;
        [apply untouched_refl|apply untouched_trans|apply untouched_tick|apply untouched_wait]
    | apply untouched_statSize
    | apply untouched_dimensions
    | apply untouched_write; [left; reflexivity]
    | apply untouched_toFile; [right; reflexivity]
    | apply untouched_unlink; [left; reflexivity]
    | apply untouched_unlink; [right; reflexivity]
    | apply untouched_embed; [right; reflexivity]
    | apply preserves_tryCatch; [apply untouched_trans| |intros ?]
    | apply preserves_bind; [apply untouched_trans| |intros ?] ].

Lemma untouched_onTimeout t0 :
  preserves (untouched (pngPath w imageId outputDir mode) (jpgPath w imageId outputDir mode))
    (onTimeout w config imageId t0).
Proof.
  unfold onTimeout. repeat step.
  destruct (Js.truthy _); step.
Qed.

Lemma untouched_readSignal t0 :
  preserves (untouched (pngPath w imageId outputDir mode) (jpgPath w imageId outputDir mode))
    (readSignal w imageId t0).
Proof.
  unfold readSignal. repeat step.
  destruct (Js.truthy _); [step|].
  destruct (Js.truthy _); [|step].
  destruct (Js.startsWith _ _); [|step].
  destruct (lookup _ _); step.
Qed.

Lemma untouched_saveAndTranscode buf :
  preserves (untouched (pngPath w imageId outputDir mode) (jpgPath w imageId outputDir mode))
    (saveAndTranscode w config imageId outputDir mode buf).
Proof. unfold saveAndTranscode. repeat step. Qed.

Lemma untouched_validate t0 :
  preserves (untouched (pngPath w imageId outputDir mode) (jpgPath w imageId outputDir mode))
    (validate w config imageId outputDir mode t0).
Proof.
  unfold validate. step; [step|]. step.
  - destruct (Z.ltb _ _); repeat step.
  - step; [step|]. destruct a1 as [width height].
    destruct (orb _ _); repeat step.
Qed.

Lemma untouched_extractBody :
  preserves (untouched (pngPath w imageId outputDir mode) (jpgPath w imageId outputDir mode))
    (extractBody w config imageId outputDir mode metadata).
Proof.
  unfold extractBody. step; [step|]. destruct a as [t0 ready].
  step; [destruct (negb ready); [apply untouched_onTimeout|step]|].
  step; [apply untouched_readSignal|].
  step; [apply untouched_saveAndTranscode|].
  step; [apply untouched_validate|].
  step; [|step].
  unfold embedIfProvided. destruct metadata; step.
Qed.

End FrameOfCall.

(** X14.  Whatever happens in a call, it writes and deletes nothing but its
    intermediate PNG and its JPEG: every other file is, when the call
    returns, as it was when the call began. *)
Theorem call_touches_only_its_files w config imageId outputDir mode metadata st p :
  p <> pngPath w imageId outputDir mode ->
  p <> jpgPath w imageId outputDir mode ->
  fs (extractCanvasImage w config imageId outputDir mode metadata st).1 !! p = fs st !! p.
Proof.
  intros Hp Hj. revert p Hp Hj.
  change (untouched (pngPath w imageId outputDir mode) (jpgPath w imageId outputDir mode) st
            (extractCanvasImage w config imageId outputDir mode metadata st).1).
  revert st.
  change (preserves (untouched (pngPath w imageId outputDir mode)
                       (jpgPath w imageId outputDir mode))
            (extractCanvasImage w config imageId outputDir mode metadata)).
  unfold extractCanvasImage.
  apply preserves_tryCatch; [apply untouched_trans| |].
  - apply preserves_bind; [apply untouched_trans|apply untouched_extractBody|].
    intros a. apply preserves_ret, untouched_refl.
  - intros e. apply preserves_ret, untouched_refl.
Qed.

(** [call_touches_only_its_files] for a successful extraction into a
    directory that holds another image. *)
Lemma call_touches_only_its_files_witness :
  fs (extractCanvasImage
        (sampleWorld (later payload) (JpegWritten (jpegOf 8)) (Some 600, Some 600)
           (SpawnError ""))
        (sampleConfig 2000 5) "img" "/out" Full None stKeep).1 !! "/out/keep.jpg"
  = Some (jpegOf 3).
Proof.
  rewrite call_touches_only_its_files.
  - reflexivity.
  - vm_compute. discriminate.
  - vm_compute. discriminate.
Defined.

(** *** The pointer moves of the polling loop *)

Lemma bind_ext {A B} (c c' : M A) (k k' : A -> M B) :
  (forall st, c st = c' st) -> (forall a st, k a st = k' a st) ->
  forall st, bind c k st = bind c' k' st.
Proof.
  intros Hc Hk st. unfold bind. rewrite Hc. destruct (c' st) as [st1 [a|e|]]; auto.
Qed.

Lemma keepAlive_eq w n st : keepAlive w n st = (if (n mod 5 =? 0)%nat then after w st else st, Ok tt).
Proof.
  unfold keepAlive. destruct (n mod 5 =? 0)%nat; [|reflexivity].
  unfold tryCatch. rewrite await_eq. destruct (mouseMove w (ticks st)) as [[]|why]; reflexivity.
Qed.

Lemma keepAlive_withMouse w m n st : keepAlive (withMouse m w) n st = keepAlive w n st.
Proof. rewrite !keepAlive_eq. reflexivity. Qed.

Lemma pollLoop_withMouse w m config t0 fuel : forall attempt st,
  pollLoop (withMouse m w) config t0 fuel attempt st = pollLoop w config t0 fuel attempt st.
Proof.
  induction fuel as [|fuel IH]; intros attempt st; rewrite !pollLoop_eq.
  - reflexivity.
  - destruct (now st - t0 <? maxWaitMs config); [|reflexivity].
    apply bind_ext; [reflexivity|]. intros found st1. destruct found; [reflexivity|].
    apply bind_ext; [reflexivity|]. intros _ st2.
    apply bind_ext; [apply keepAlive_withMouse|]. intros _ st3. apply IH.
Qed.

Lemma stabilizeAndPoll_withMouse w m config st :
  stabilizeAndPoll (withMouse m w) config st = stabilizeAndPoll w config st.
Proof.
  unfold stabilizeAndPoll.
  apply bind_ext; [reflexivity|]. intros _ st1.
  apply bind_ext; [reflexivity|]. intros _ st2.
  apply bind_ext; [reflexivity|]. intros _ st3.
  apply bind_ext; [reflexivity|]. intros t0 st4.
  apply bind_ext; [apply pollLoop_withMouse|]. reflexivity.
Qed.

(** X15.  The pointer moves of the polling loop are best effort: whether
    they succeed or are rejected, at every fifth attempt or never, a call
    ends in the same state with the same result. *)
Theorem pointer_moves_do_not_matter w m config imageId outputDir mode metadata st :
  extractCanvasImage (withMouse m w) config imageId outputDir mode metadata st
  = extractCanvasImage w config imageId outputDir mode metadata st.
Proof.
  rewrite !extractCanvasImage_eq.
  assert (extractBody (withMouse m w) config imageId outputDir mode metadata st
          = extractBody w config imageId outputDir mode metadata st) as ->; [|reflexivity].
  unfold extractBody. apply bind_ext; [apply stabilizeAndPoll_withMouse|].
  intros [t0 ready] st1. reflexivity.
Qed.

(** *** Stabilization and polling *)

(** X16.  Polling starts no earlier than the delays of the two
    stabilization timers after the call began: the two configured waits when
    each is between 1 ms and 2^31-1 ms, and 1 ms for a wait outside that
    range, which is what [setTimeout] makes of it.  Polling ends with the
    files as they were, and it reports the canvas ready only when its last
    query saw the response element with a data URL or an error, and not ready
    only when the polling budget is used up. *)
Theorem polling_starts_after_stabilization w config st st1 t0 ready :
  stabilizeAndPoll w config st = (st1, Ok (t0, ready)) ->
  bringToFront w = Resolves tt
  /\ now st + timerDelay (initialStabilizationMs config)
            + timerDelay (postResizeStabilizationMs config) <= t0
  /\ (1 <= initialStabilizationMs config <= 2147483647 ->
      1 <= postResizeStabilizationMs config <= 2147483647 ->
      now st + initialStabilizationMs config + postResizeStabilizationMs config <= t0)
  /\ (forall ms, ms < 1 \/ 2147483647 < ms -> timerDelay ms = 1)
  /\ t0 <= now st1
  /\ fs st1 = fs st
  /\ (ready = false -> maxWaitMs config <= now st1 - t0)
  /\ (ready = true ->
      exists sig, dom w (Nat.pred (ticks st1)) = Resolves (Some sig)
                  /\ (is_Some (dataUrl sig) \/ is_Some (dataError sig))).
Proof.
  intros H.
  assert (bringToFront w = Resolves tt) as Hb.
  { destruct (bringToFront w) as [[]|why] eqn:E; [reflexivity|].
    unfold stabilizeAndPoll in H. rewrite (bind_throw _ _ st (after w st) (Rejection why)) in H;
      [discriminate|]. rewrite await_eq, E. reflexivity. }
  split; [exact Hb|].
  pose proof (stabilizeAndPoll_fs w config st st1 _ H) as Hfs.
  rewrite (stabilizeAndPoll_eq w config st Hb) in H. cbv zeta in H.
  remember ((wait w (postResizeStabilizationMs config)
               (wait w (initialStabilizationMs config) (after w st)).1).1) as s3 eqn:E3.
  destruct (pollLoop w config (now s3) (pollFuel config) 0 s3) as [s4 [r|e|]] eqn:Hp;
    [|discriminate|discriminate].
  injection H as -> <- ->.
  assert (now st + timerDelay (initialStabilizationMs config)
            + timerDelay (postResizeStabilizationMs config) <= now s3) as Hs3.
  { rewrite E3, !wait_eq. unfold after, tick. simpl. lia. }
  pose proof (preserves_pollLoop clock clock_refl clock_trans w (clock_tick w) (clock_wait w)
                config (now s3) (pollFuel config) 0%nat s3) as Hc.
  rewrite Hp in Hc. unfold clock in Hc. simpl in Hc.
  split; [exact Hs3|].
  split; [intros Hi1 Hi2; rewrite <- (timerDelay_set _ Hi1), <- (timerDelay_set _ Hi2);
          exact Hs3|].
  split.
  { intros ms Hms. unfold timerDelay.
    destruct (Z.leb 1 ms) eqn:E1; [|reflexivity].
    destruct (Z.leb ms 2147483647) eqn:E2; [|reflexivity].
    apply Z.leb_le in E1, E2. lia. }
  split; [exact Hc|]. split; [exact Hfs|]. split.
  - intros ->. exact (pollLoop_gives_up w config _ _ _ _ _ Hp).
  - intros ->. destruct (pollLoop_found w config _ _ _ _ _ Hp) as [s0 Hs0].
    rewrite hasResponse_eq in Hs0.
    destruct (dom w (ticks s0)) as [[sig|]|why] eqn:Hd; try discriminate.
    injection Hs0 as <- Hr. exists sig. unfold after, tick. simpl. split; [exact Hd|].
    apply orb_true_iff in Hr as [Hr|Hr]; apply bool_decide_eq_true in Hr; auto.
Qed.

(** [polling_starts_after_stabilization] for a page that shows its payload
    from the sixth step on. *)
Lemma polling_starts_after_stabilization_witness :
  exists st1 t0,
    stabilizeAndPoll (sampleWorld (later payload) (JpegWritten []) (None, None) (SpawnError ""))
      (sampleConfig 2000 5) st0 = (st1, Ok (t0, true))
    /\ now st0 + 500 + 10 <= t0.
Proof.
  assert (exists st1 t0,
    stabilizeAndPoll (sampleWorld (later payload) (JpegWritten []) (None, None) (SpawnError ""))
      (sampleConfig 2000 5) st0 = (st1, Ok (t0, true))) as (st1 & t0 & H)
    by (do 2 eexists; vm_compute; reflexivity).
  exists st1, t0. split; [exact H|].
  destruct (polling_starts_after_stabilization _ _ _ _ _ _ H) as (_ & _ & Hin & _).
  exact (Hin ltac:(vm_compute; split; discriminate) ltac:(vm_compute; split; discriminate)).
Defined.

(** *** From the signal to the file *)

(** X17.  When polling ends ready and the two reads that follow find the
    response element without an error text and with a data URL that starts
    with the PNG prefix, the call has its image: the bytes decoded from the
    text after the prefix, two steps after polling ended and with no file
    touched. *)
Theorem valid_signal_is_decoded w config imageId st st1 t0 sig1 sig2 url :
  stabilizeAndPoll w config st = (st1, Ok (t0, true)) ->
  dom w (ticks st1) = Resolves (Some sig1) ->
  dom w (S (ticks st1)) = Resolves (Some sig2) ->
  Js.truthy (dataError sig2) = None ->
  dataUrl sig1 = Some url ->
  Js.startsWith dataUrlPrefix url = true ->
  decoded w config imageId st = (after w (after w st1), Ok (t0, base64 w (base64Data url)))
  /\ fs (after w (after w st1)) = fs st.
Proof.
  intros Hpoll H1 H2 Herr Hurl Hpre. split.
  - unfold decoded. rewrite (bind_ok _ _ st st1 (t0, true) Hpoll). cbn [negb].
    unfold bind at 1. cbn [ret].
    pose proof (readSignal_eq w imageId t0 st1 sig1 sig2 H1 H2) as Hr. cbv zeta in Hr.
    rewrite Herr, Hurl in Hr.
    assert (url <> "") as Hne by (intros ->; discriminate).
    rewrite (truthy_Some url Hne), Hpre in Hr.
    destruct (second_piece url Hpre) as [b Hb].
    rewrite Hb in Hr. rewrite (bind_ok _ _ st1 _ _ Hr). unfold base64Data. rewrite Hb.
    reflexivity.
  - cbn [after tick fst fs]. exact (stabilizeAndPoll_fs w config st st1 _ Hpoll).
Qed.

(** [valid_signal_is_decoded] for a page that shows its payload from the
    sixth step on. *)
Lemma valid_signal_is_decoded_witness :
  exists st3 t0,
    decoded (sampleWorld (later payload) (JpegWritten []) (None, None) (SpawnError ""))
      (sampleConfig 2000 5) "img" st0
    = (st3, Ok (t0, [Byte.x89; Byte.x50; Byte.x4e; Byte.x47])).
Proof.
  assert (exists st1 t0,
    stabilizeAndPoll (sampleWorld (later payload) (JpegWritten []) (None, None) (SpawnError ""))
      (sampleConfig 2000 5) st0 = (st1, Ok (t0, true)) /\ (6 <= ticks st1)%nat)
    as (st1 & t0 & H & Ht)
    by (do 2 eexists; split; [vm_compute; reflexivity|vm_compute; lia]).
  exists (after (sampleWorld (later payload) (JpegWritten []) (None, None) (SpawnError ""))
            (after (sampleWorld (later payload) (JpegWritten []) (None, None) (SpawnError ""))
               st1)), t0.
  refine (proj1 (valid_signal_is_decoded _ _ "img" _ _ _
                   {| dataUrl := Some "data:image/png;base64,iVBORw0KGgo="; dataError := None |}
                   {| dataUrl := Some "data:image/png;base64,iVBORw0KGgo="; dataError := None |}
                   "data:image/png;base64,iVBORw0KGgo=" H _ _ eq_refl eq_refl eq_refl)).
  - cbn [dom sampleWorld]. unfold later.
    destruct (ticks st1 <? 6)%nat eqn:E; [apply Nat.ltb_lt in E; lia|reflexivity].
  - cbn [dom sampleWorld]. unfold later.
    destruct (S (ticks st1) <? 6)%nat eqn:E; [apply Nat.ltb_lt in E; lia|reflexivity].
Defined.

Section Validated.

Variables (w : World) (config : option ScraperConfig) (imageId outputDir : string).
Variables (mode : ViewportMode) (t0 : Z) (st1 : St) (j : bytes).

Hypothesis on_disk : fs st1 !! jpgPath w imageId outputDir mode = Some j.

Lemma validate_passes ow oh :
  statable w (jpgPath w imageId outputDir mode) = true ->
  minFileSize config <= Z.of_nat (length j) ->
  imageInfo w j = Resolves (ow, oh) ->
  minDimensions config <= orElse ow 0 -> minDimensions config <= orElse oh 0 ->
  validate w config imageId outputDir mode t0 st1 = (after w (after w st1), Ok tt).
Proof.
  intros Hstat Hsize Hinfo Hw Hh. unfold validate.
  unfold bind at 1. rewrite statSize_eq, on_disk, Hstat.
  apply Z.ltb_ge in Hsize. rewrite Hsize.
  unfold bind at 1. cbn [ret]. unfold bind at 1. rewrite dimensions_eq.
  cbn [fs after tick fst]. rewrite on_disk, Hinfo.
  apply Z.ltb_ge in Hw, Hh. rewrite Hw, Hh. reflexivity.
Qed.

Lemma validate_ok_inv st2 :
  validate w config imageId outputDir mode t0 st1 = (st2, Ok tt) ->
  statable w (jpgPath w imageId outputDir mode) = true
  /\ minFileSize config <= Z.of_nat (length j)
  /\ exists ow oh, imageInfo w j = Resolves (ow, oh)
       /\ minDimensions config <= orElse ow 0 /\ minDimensions config <= orElse oh 0.
Proof.
  intros H.
  destruct (statable w (jpgPath w imageId outputDir mode)) eqn:Hstat.
  2:{ exfalso. revert H. unfold validate.
      unfold bind at 1. rewrite statSize_eq, on_disk, Hstat. discriminate. }
  split; [reflexivity|].
  destruct (Z.ltb (Z.of_nat (length j)) (minFileSize config)) eqn:Hs.
  { apply Z.ltb_lt in Hs.
    destruct (deletable w (jpgPath w imageId outputDir mode)) eqn:Hdel.
    - rewrite (validate_size w config imageId outputDir mode t0 st1 j on_disk Hstat Hs Hdel)
        in H. discriminate.
    - rewrite (validate_size_kept w config imageId outputDir mode t0 st1 j on_disk Hstat Hs
                 Hdel) in H. discriminate. }
  apply Z.ltb_ge in Hs. split; [exact Hs|].
  destruct (imageInfo w j) as [[ow oh]|why] eqn:Hinfo.
  - exists ow, oh. split; [reflexivity|].
    assert (orElse ow 0 < minDimensions config \/ orElse oh 0 < minDimensions config -> False)
      as Hno.
    { intros Hdim.
      destruct (deletable w (jpgPath w imageId outputDir mode)) eqn:Hdel.
      - rewrite (validate_dimensions w config imageId outputDir mode t0 st1 j on_disk Hstat
                   ow oh Hs Hinfo Hdim Hdel) in H. discriminate.
      - rewrite (validate_dimensions_kept w config imageId outputDir mode t0 st1 j on_disk
                   Hstat ow oh Hs Hinfo Hdim Hdel) in H. discriminate. }
    split; apply Z.nlt_ge; intros Hlt; apply Hno; auto.
  - exfalso. revert H. unfold validate.
    unfold bind at 1. rewrite statSize_eq, on_disk, Hstat.
    apply Z.ltb_ge in Hs. rewrite Hs.
    unfold bind at 1. cbn [ret]. unfold bind at 1. rewrite dimensions_eq.
    cbn [fs after tick fst]. rewrite on_disk, Hinfo. discriminate.
Qed.

End Validated.

Lemma embedIfProvided_ok w imageId outputDir mode metadata st st' :
  embedIfProvided w imageId outputDir mode metadata st = (st', Ok tt) ->
  (forall p, p <> jpgPath w imageId outputDir mode -> fs st' !! p = fs st !! p)
  /\ (is_Some (fs st !! jpgPath w imageId outputDir mode) ->
      is_Some (fs st' !! jpgPath w imageId outputDir mode))
  /\ (metadata = None -> st' = st)
  /\ (forall md, metadata = Some md ->
        reported (exiftool w (exifArgs (jpgPath w imageId outputDir mode) md)) = true).
Proof.
  intros H. unfold embedIfProvided in H. destruct metadata as [md|].
  - split; [|split; [|split]].
    + intros p Hp.
      pose proof (untouched_embed w (jpgPath w imageId outputDir mode)
                    (jpgPath w imageId outputDir mode) _ md (or_introl eq_refl) st p Hp Hp)
        as Hu.
      rewrite H in Hu. exact Hu.
    + destruct (reported (exiftool w (exifArgs (jpgPath w imageId outputDir mode) md))) eqn:E.
      * destruct (embedExifMetadata_resolves w _ md st E) as (s & Hs & Hk).
        rewrite H in Hs. injection Hs as <-. exact Hk.
      * exfalso. revert H. unfold embedExifMetadata, bind. cbn [tick].
        destruct (exiftool w _) as [code rw|msg|why]; try discriminate E. discriminate.
    + discriminate.
    + intros md' [= <-].
      destruct (exiftool w (exifArgs (jpgPath w imageId outputDir mode) md))
        as [code rw|msg|why] eqn:E; try reflexivity.
      exfalso. revert H. unfold embedExifMetadata, bind. cbn [tick]. rewrite E. discriminate.
  - injection H as <-. split; [auto|]. split; [auto|]. split; [auto|]. discriminate.
Qed.

(** X18.  Once the payload is decoded, these are enough: a PNG path that
    can be written and, after the transcoding, removed; a transcoder that
    delivers; a JPEG that can be read and meets both thresholds; an exiftool
    that reports its end.  Then the call returns the path of the JPEG, the
    JPEG is on disk, the intermediate PNG is gone, and without metadata the
    JPEG is the transcoder's output byte for byte. *)
Theorem valid_capture_is_returned w config imageId outputDir mode metadata st st1 t0 buf
    j ow oh :
  decoded w config imageId st = (st1, Ok (t0, buf)) ->
  writable w (pngPath w imageId outputDir mode) = true ->
  transcode w buf (jpgQualityFor config mode) = JpegWritten j ->
  deletable w (pngPath w imageId outputDir mode) = true ->
  statable w (jpgPath w imageId outputDir mode) = true ->
  minFileSize config <= Z.of_nat (length j) ->
  imageInfo w j = Resolves (ow, oh) ->
  minDimensions config <= orElse ow 0 ->
  minDimensions config <= orElse oh 0 ->
  (forall md, metadata = Some md ->
     reported (exiftool w (exifArgs (jpgPath w imageId outputDir mode) md)) = true) ->
  exists st',
    extractCanvasImage w config imageId outputDir mode metadata st
      = (st', Ok (Some (jpgPath w imageId outputDir mode)))
    /\ is_Some (fs st' !! jpgPath w imageId outputDir mode)
    /\ fs st' !! pngPath w imageId outputDir mode = None
    /\ (metadata = None -> fs st' !! jpgPath w imageId outputDir mode = Some j).
Proof.
  intros Hdec Hw Htr Hdel Hstat Hsize Hinfo Hdw Hdh Hmd.
  pose proof (png_not_jpg w imageId outputDir mode) as Hne.
  pose proof (saveAndTranscode_eq w config imageId outputDir mode buf st1 Hw) as Hsave.
  cbv zeta in Hsave. rewrite Htr, Hdel in Hsave.
  remember (setFs (delete (pngPath w imageId outputDir mode)
                     (<[jpgPath w imageId outputDir mode := j]>
                        (<[pngPath w imageId outputDir mode := buf]> (fs st1))))
              (after w (after w (setFs (<[pngPath w imageId outputDir mode := buf]> (fs st1))
                                   (after w st1))))) as s2 eqn:E2.
  assert (fs s2 !! jpgPath w imageId outputDir mode = Some j) as Hj.
  { rewrite E2. cbn [fs setFs]. rewrite lookup_delete_ne by exact Hne.
    apply lookup_insert_eq. }
  assert (fs s2 !! pngPath w imageId outputDir mode = None) as Hp.
  { rewrite E2. cbn [fs setFs]. apply lookup_delete_eq. }
  pose proof (validate_passes w config imageId outputDir mode t0 s2 j Hj ow oh
                Hstat Hsize Hinfo Hdw Hdh) as Hval.
  assert (exists st', embedIfProvided w imageId outputDir mode metadata (after w (after w s2))
                      = (st', Ok tt)) as [st' Hemb].
  { unfold embedIfProvided. destruct metadata as [md|]; [|eexists; reflexivity].
    destruct (embedExifMetadata_resolves w (jpgPath w imageId outputDir mode) md
                (after w (after w s2)) (Hmd md eq_refl)) as (s & Hs & _). eauto. }
  exists st'.
  destruct (embedIfProvided_ok w imageId outputDir mode metadata _ _ Hemb)
    as (Hother & Hkeep & Hnone & _).
  split; [|split; [|split]].
  - rewrite extractCanvasImage_eq, extractBody_decoded.
    rewrite (bind_ok _ _ st st1 (t0, buf) Hdec).
    rewrite (bind_ok _ _ st1 s2 tt Hsave).
    rewrite (bind_ok _ _ s2 _ tt Hval).
    rewrite (bind_ok _ _ _ st' tt Hemb). reflexivity.
  - apply Hkeep. cbn [after tick fst fs]. rewrite Hj. eauto.
  - rewrite Hother by exact Hne. cbn [after tick fst fs]. exact Hp.
  - intros Hm. rewrite (Hnone Hm). cbn [after tick fst fs]. exact Hj.
Qed.

(** [valid_capture_is_returned] for a JPEG of eight bytes against a
    threshold of five. *)
Lemma valid_capture_is_returned_witness :
  exists st',
    extractCanvasImage
      (sampleWorld (later payload) (JpegWritten (jpegOf 8)) (Some 600, Some 600) (SpawnError ""))
      (sampleConfig 2000 5) "img" "/out" Full None st0
    = (st', Ok (Some "/out/img_canvas_full.jpg"))
    /\ fs st' !! "/out/img_canvas_full.jpg" = Some (jpegOf 8).
Proof.
  assert (exists st1 t0,
    decoded (sampleWorld (later payload) (JpegWritten (jpegOf 8)) (Some 600, Some 600)
               (SpawnError ""))
      (sampleConfig 2000 5) "img" st0
    = (st1, Ok (t0, [Byte.x89; Byte.x50; Byte.x4e; Byte.x47]))) as (st1 & t0 & H)
    by (do 2 eexists; vm_compute; reflexivity).
  destruct (valid_capture_is_returned _ _ "img" "/out" Full None _ _ _ _
              (jpegOf 8) (Some 600) (Some 600) H eq_refl eq_refl eq_refl eq_refl
              ltac:(vm_compute; discriminate) eq_refl
              ltac:(vm_compute; discriminate) ltac:(vm_compute; discriminate)
              ltac:(discriminate)) as (st' & H1 & _ & _ & H4).
  exists st'. split; [exact H1|exact (H4 eq_refl)].
Defined.

(** X19.  A call that returns a path returns the path of its JPEG, and then
    everything went well: the payload was decoded, the PNG could be written
    and later removed, the transcoder delivered a JPEG that could be read and
    met the size and the dimension thresholds, exiftool, if asked, reported
    its end; the JPEG is on disk and the intermediate PNG is not. *)
Theorem returned_path_is_a_valid_capture w config imageId outputDir mode metadata st st' p :
  extractCanvasImage w config imageId outputDir mode metadata st = (st', Ok (Some p)) ->
  p = jpgPath w imageId outputDir mode
  /\ is_Some (fs st' !! jpgPath w imageId outputDir mode)
  /\ fs st' !! pngPath w imageId outputDir mode = None
  /\ writable w (pngPath w imageId outputDir mode) = true
  /\ (forall md, metadata = Some md ->
        reported (exiftool w (exifArgs (jpgPath w imageId outputDir mode) md)) = true)
  /\ exists st1 t0 buf j ow oh,
       decoded w config imageId st = (st1, Ok (t0, buf))
       /\ transcode w buf (jpgQualityFor config mode) = JpegWritten j
       /\ minFileSize config <= Z.of_nat (length j)
       /\ imageInfo w j = Resolves (ow, oh)
       /\ minDimensions config <= orElse ow 0
       /\ minDimensions config <= orElse oh 0
       /\ (metadata = None -> fs st' !! jpgPath w imageId outputDir mode = Some j)
       /\ deletable w (pngPath w imageId outputDir mode) = true
       /\ statable w (jpgPath w imageId outputDir mode) = true.
Proof.
  intros H. rewrite extractCanvasImage_eq in H.
  destruct (extractBody w config imageId outputDir mode metadata st) as [s [q|e|]] eqn:Hb;
    try discriminate.
  injection H as -> ->.
  pose proof (extractBody_path _ _ _ _ _ _ _ _ _ Hb) as ->.
  rewrite extractBody_decoded in Hb.
  apply bind_Ok_inv in Hb as (st1 & [t0 buf] & Hdec & Hb).
  apply bind_Ok_inv in Hb as (s2 & [] & Hsave & Hb).
  apply bind_Ok_inv in Hb as (s3 & [] & Hval & Hb).
  apply bind_Ok_inv in Hb as (s4 & [] & Hemb & Hb).
  injection Hb as <-.
  pose proof (png_not_jpg w imageId outputDir mode) as Hne.
  destruct (saveAndTranscode_ok _ _ _ _ _ _ _ _ Hsave) as (j & Htr & Hj & Hp).
  destruct (validate_ok_inv w config imageId outputDir mode t0 s2 j Hj s3 Hval)
    as (Hstat & Hsize & ow & oh & Hinfo & Hdw & Hdh).
  pose proof (validate_ok_fs _ _ _ _ _ _ _ _ Hval) as Hfs.
  destruct (embedIfProvided_ok w imageId outputDir mode metadata _ _ Hemb)
    as (Hother & Hkeep & Hnone & Hrep).
  assert (writable w (pngPath w imageId outputDir mode) = true) as Hw.
  { destruct (writable w (pngPath w imageId outputDir mode)) eqn:Hw; [reflexivity|].
    exfalso. revert Hsave. unfold saveAndTranscode.
    unfold bind at 1. rewrite writeFileSync_eq, Hw. discriminate. }
  assert (deletable w (pngPath w imageId outputDir mode) = true) as Hdel.
  { destruct (deletable w (pngPath w imageId outputDir mode)) eqn:Hdel; [reflexivity|].
    exfalso. revert Hsave.
    rewrite (saveAndTranscode_eq w config imageId outputDir mode buf st1 Hw). cbv zeta.
    rewrite Htr, Hdel. discriminate. }
  split; [reflexivity|]. split; [|split; [|split; [|split]]].
  - apply Hkeep. rewrite Hfs, Hj. eauto.
  - rewrite Hother by exact Hne. rewrite Hfs. exact Hp.
  - exact Hw.
  - exact Hrep.
  - exists st1, t0, buf, j, ow, oh. repeat (split; [assumption|]).
    split; [|split; assumption].
    intros Hm. rewrite (Hnone Hm), Hfs. exact Hj.
Qed.

(** [returned_path_is_a_valid_capture] on the same run. *)
Lemma returned_path_is_a_valid_capture_witness :
  writable (sampleWorld (later payload) (JpegWritten (jpegOf 8)) (Some 600, Some 600)
              (Closed (Some 1) None))
    "/out/img_canvas_thumbnail.png" = true.
Proof.
  assert (exists st',
    extractCanvasImage
      (sampleWorld (later payload) (JpegWritten (jpegOf 8)) (Some 600, Some 600)
         (Closed (Some 1) None))
      (sampleConfig 2000 5) "img" "/out" Thumbnail (Some (tagsOnly "a, b")) st0
    = (st', Ok (Some "/out/img_canvas_thumbnail.jpg"))) as (st' & H)
    by (eexists; vm_compute; reflexivity).
  exact (proj1 (proj2 (proj2 (proj2 (returned_path_is_a_valid_capture _ _ _ _ _ _ _ _ _ H))))).
Defined.

(** X20.  When [spawn] itself throws, the promise of [embedExifMetadata]
    rejects and the call returns [null], although the JPEG has passed
    validation: the file stays on disk, as the transcoder wrote it. *)
Theorem spawn_failure_loses_a_valid_capture w config imageId outputDir mode md st st1 st2 t0
    why :
  captured w config imageId outputDir mode st = (st1, Ok t0) ->
  validate w config imageId outputDir mode t0 st1 = (st2, Ok tt) ->
  exiftool w (exifArgs (jpgPath w imageId outputDir mode) md) = SpawnThrows why ->
  extractBody w config imageId outputDir mode (Some md) st
    = (after w st2, Throw (Rejection why))
  /\ extractCanvasImage w config imageId outputDir mode (Some md) st = (after w st2, Ok None)
  /\ fs (after w st2) !! jpgPath w imageId outputDir mode
     = fs st1 !! jpgPath w imageId outputDir mode
  /\ is_Some (fs (after w st2) !! jpgPath w imageId outputDir mode).
Proof.
  intros Hcap Hval Hex.
  assert (extractBody w config imageId outputDir mode (Some md) st
          = (after w st2, Throw (Rejection why))) as Hb.
  { rewrite extractBody_captured.
    rewrite (bind_ok _ _ st st1 t0 Hcap).
    rewrite (bind_ok _ _ st1 st2 tt Hval).
    apply bind_throw. unfold embedIfProvided, embedExifMetadata, bind. cbn [tick].
    rewrite Hex. reflexivity. }
  split; [exact Hb|]. split; [rewrite extractCanvasImage_eq, Hb; reflexivity|].
  pose proof (validate_ok_fs _ _ _ _ _ _ _ _ Hval) as Hfs.
  cbn [after tick fst fs]. rewrite Hfs. split; [reflexivity|].
  destruct (captured_jpeg _ _ _ _ _ _ _ _ Hcap) as (j & Hj & _). rewrite Hj. eauto.
Qed.

(** [spawn_failure_loses_a_valid_capture] on the sample run. *)
Lemma spawn_failure_loses_a_valid_capture_witness :
  exists st3,
    extractCanvasImage
      (sampleWorld (later payload) (JpegWritten (jpegOf 8)) (Some 600, Some 600)
         (SpawnThrows "ERR_INVALID_ARG_VALUE"))
      (sampleConfig 2000 5) "img" "/out" Full (Some (tagsOnly "a")) st0 = (st3, Ok None)
    /\ is_Some (fs st3 !! "/out/img_canvas_full.jpg").
Proof.
  assert (exists st1 t0 st2,
    captured (sampleWorld (later payload) (JpegWritten (jpegOf 8)) (Some 600, Some 600)
                (SpawnThrows "ERR_INVALID_ARG_VALUE"))
      (sampleConfig 2000 5) "img" "/out" Full st0 = (st1, Ok t0)
    /\ validate (sampleWorld (later payload) (JpegWritten (jpegOf 8)) (Some 600, Some 600)
                   (SpawnThrows "ERR_INVALID_ARG_VALUE"))
         (sampleConfig 2000 5) "img" "/out" Full t0 st1 = (st2, Ok tt))
    as (st1 & t0 & st2 & H1 & H2)
    by (do 3 eexists; split; vm_compute; reflexivity).
  destruct (spawn_failure_loses_a_valid_capture _ _ _ _ _ (tagsOnly "a") _ _ _ _
              "ERR_INVALID_ARG_VALUE" H1 H2 eq_refl) as (_ & H3 & _ & H4).
  eexists. split; [exact H3|exact H4].
Defined.

(** *** The argument vector of exiftool *)

Lemma whenTruthy_Forall (P : string -> Prop) o (f : string -> list string) :
  (forall v, Forall P (f v)) -> Forall P (whenTruthy o f).
Proof. intros H. unfold whenTruthy. destruct (Js.truthy o); [apply H|constructor]. Qed.

Lemma tagArgs_assign t : Forall (fun a => isAssignment a = true) (tagArgs t).
Proof.
  unfold tagArgs. induction (tagList t) as [|tag l IH]; simpl; [constructor|].
  constructor; [reflexivity|]. constructor; [reflexivity|]. exact IH.
Qed.

(** X21.  The argument vector handed to [spawn] begins with
    [-overwrite_original] and ends with the path of the JPEG, and everything
    in between is an assignment [-TAG=value] or [-TAG+=value]: a metadata
    value, whatever it holds, never becomes an argument of its own.  With no
    metadata field set, or only empty ones, nothing stands in between. *)
Theorem exif_values_stay_inside_assignments p md :
  (exists mid, exifArgs p md = "-overwrite_original" :: mid ++ [p]
               /\ Forall (fun a => isAssignment a = true) mid)
  /\ (Js.truthy (titleField md) = None -> Js.truthy (subjectField md) = None ->
      Js.truthy (comments md) = None -> Js.truthy (authors md) = None ->
      Js.truthy (copyright md) = None -> Js.truthy (dateTaken md) = None ->
      Js.truthy (tags md) = None ->
      exifArgs p md = ["-overwrite_original"; p]).
Proof.
  split.
  - unfold exifArgs. eexists. split.
    + cbn [app]. f_equal. rewrite !List.app_assoc. reflexivity.
    + repeat apply Forall_app_2; try (apply whenTruthy_Forall; intros v).
      * repeat constructor.
      * repeat constructor.
      * repeat constructor.
      * repeat constructor.
      * repeat constructor.
      * unfold dateArgs. destruct (Regex.matchStart isoDate v); repeat constructor.
      * apply tagArgs_assign.
  - intros H1 H2 H3 H4 H5 H6 H7. unfold exifArgs, whenTruthy.
    rewrite H1, H2, H3, H4, H5, H6, H7. reflexivity.
Qed.

(** [exif_values_stay_inside_assignments] for metadata of empty texts. *)
Lemma exif_values_stay_inside_assignments_witness :
  exifArgs "/out/x.jpg" (tagsOnly "") = ["-overwrite_original"; "/out/x.jpg"].
Proof.
  exact (proj2 (exif_values_stay_inside_assignments "/out/x.jpg" (tagsOnly ""))
           eq_refl eq_refl eq_refl eq_refl eq_refl eq_refl eq_refl).
Defined.

Lemma not_keyword_group o (f : string -> list string) a :
  (forall v b, In b (f v) ->
     Js.startsWith "-IPTC:Keywords" b = false /\ Js.startsWith "-XMP:Subject" b = false) ->
  In a (whenTruthy o f) ->
  Js.startsWith "-IPTC:Keywords" a = false /\ Js.startsWith "-XMP:Subject" a = false.
Proof.
  intros H. unfold whenTruthy. destruct (Js.truthy o) as [v|]; [apply H|intros []].
Qed.

Local Ltac literal_args :=
  let v := fresh "v" in let b := fresh "b" in let Hb := fresh "Hb" in
  intros v b Hb; simpl in Hb;
  repeat (destruct Hb as [<-|Hb]; [split; reflexivity|]); destruct Hb.

(** X22.  Keywords come from the tags and from nothing else: an argument
    that writes [IPTC:Keywords] or [XMP:Subject] is the keyword or the
    subject argument of a token of the tags field.  The subject, the title,
    the comments and the other fields never end up among the keywords. *)
Theorem keywords_come_only_from_tags p md a :
  In a (exifArgs p md) ->
  a <> p ->
  Js.startsWith "-IPTC:Keywords" a = true \/ Js.startsWith "-XMP:Subject" a = true ->
  exists t tok,
    Js.truthy (tags md) = Some t /\ In tok (tagList t)
    /\ (a = keywordArg tok \/ a = subjectArg tok).
Proof.
  intros Hin Hp Hk.
  assert (Js.startsWith "-IPTC:Keywords" a = false /\ Js.startsWith "-XMP:Subject" a = false
          -> False) as Hno.
  { intros [H1 H2]. destruct Hk as [Hk|Hk]; congruence. }
  unfold exifArgs in Hin.
  apply in_app_or in Hin as [Hin|Hin].
  { exfalso. apply Hno. destruct Hin as [<-|[]]. split; reflexivity. }
  apply in_app_or in Hin as [Hin|Hin].
  { exfalso. apply Hno. revert Hin. apply not_keyword_group. literal_args. }
  apply in_app_or in Hin as [Hin|Hin].
  { exfalso. apply Hno. revert Hin. apply not_keyword_group. literal_args. }
  apply in_app_or in Hin as [Hin|Hin].
  { exfalso. apply Hno. revert Hin. apply not_keyword_group. literal_args. }
  apply in_app_or in Hin as [Hin|Hin].
  { exfalso. apply Hno. revert Hin. apply not_keyword_group. literal_args. }
  apply in_app_or in Hin as [Hin|Hin].
  { exfalso. apply Hno. revert Hin. apply not_keyword_group. literal_args. }
  apply in_app_or in Hin as [Hin|Hin].
  { exfalso. apply Hno. revert Hin. apply not_keyword_group.
    intros v b Hb. unfold dateArgs in Hb.
    destruct (Regex.matchStart isoDate v); simpl in Hb;
      repeat (destruct Hb as [<-|Hb]; [split; reflexivity|]); destruct Hb. }
  apply in_app_or in Hin as [Hin|Hin].
  - unfold whenTruthy in Hin. destruct (Js.truthy (tags md)) as [t|]; [|destruct Hin].
    unfold tagArgs in Hin. apply in_flat_map in Hin as (tok & Htok & Ha).
    exists t, tok. split; [reflexivity|]. split; [exact Htok|].
    destruct Ha as [<-|[<-|[]]]; auto.
  - destruct Hin as [<-|[]]. contradiction.
Qed.

(** [keywords_come_only_from_tags] for a subject and one tag. *)
Lemma keywords_come_only_from_tags_witness :
  exists t tok,
    Js.truthy (tags subjectAndTag) = Some t /\ In tok (tagList t)
    /\ ("-XMP:Subject+=x" = keywordArg tok \/ "-XMP:Subject+=x" = subjectArg tok).
Proof.
  apply (keywords_come_only_from_tags "/out/x.jpg" subjectAndTag "-XMP:Subject+=x").
  - vm_compute. auto 10.
  - discriminate.
  - right. reflexivity.
Defined.

End ExtractorLaws.
